(** * Boost2Git: the repository export core (src/src/repository.cpp)

    A shallow embedding of [Repository] and [Repository::Transaction]:
    the branch registry, the two mark counters, the pending reset
    buffers, the commit block emission and the incremental recovery
    over the marks file and the progress log.

    Conventions.
    - C++ [int] values are [Z].  No wrap-around is written out: signed
      overflow is undefined in C++, and every counter modelled here stays
      below 2^31 on the inputs the theorems speak about (marks are
      bounded by [maxMark] = 2^20 - 2, revisions by the cutoff).  A
      theorem that tells when a call goes through on an arbitrary
      repository assumes that its two counters are [int] values whose
      successor and predecessor are.
    - [QString], [QByteArray] and [std::string] are [string]; the
      encodings (UTF-8, Latin-1) are the identity on the ASCII range.
    - A function that can abort ([Q_ASSERT], [qFatal], a thrown
      [std::runtime_error]) returns in the error monad [Res].
    - The fast-import child is the list of chunks written to it, one
      chunk per [write] call, oldest first.  A [write] only queues its
      bytes; whether the child takes them shows in the wait that ends
      [Transaction::commit], modelled by [commit_and_wait].
    - [Log::warn] and [qCritical] are recorded in [logged]; [Log::debug]
      and [Log::trace] messages are not recorded. *)

From Stdlib Require Import ZArith Lia String Ascii DecimalString DecimalPos Sorted.
From stdpp Require Import base gmap list strings fin_maps sorting.

Local Open Scope Z_scope.

(** ** The error monad *)

Inductive Res (A : Type) : Type :=
| Ok (a : A)
| Fatal (why : string).
Arguments Ok {A} a.
Arguments Fatal {A} why.

#[global] Instance Res_ret : MRet Res := fun A a => Ok a.
#[global] Instance Res_bind : MBind Res := fun A B f m =>
  match m with
  | Ok a => f a
  | Fatal why => Fatal why
  end.

(** [Q_ASSERT(cond)]: aborts the program when [cond] is false. *)
Definition Q_ASSERT (cond : bool) (what : string) : Res unit :=
  if cond then Ok tt else Fatal ("ASSERT: " +:+ what).

(** ** Strings and numbers *)

(** [QByteArray::number(int)], [QString::number]: decimal, with a
    leading minus sign for negative values. *)
Definition number (n : Z) : string := NilZero.string_of_int (Z.to_int n).

(** [QByteArray::number(int, 8)] for a non-negative argument (a file
    mode); the text Qt gives for a negative one depends on its version
    and is not modelled. *)
Fixpoint octal_digits (fuel : nat) (n : Z) (acc : string) : string :=
  match fuel with
  | O => acc
  | S fuel' =>
    let d := String (ascii_of_nat (48 + Z.to_nat (n mod 8))) acc in
    if n / 8 =? 0 then d else octal_digits fuel' (n / 8) d
  end.
Definition number8 (n : Z) : string := octal_digits (S (Z.to_nat (Z.log2 n))) n "".

(** [indexOf(c)] followed by [truncate], and the C string of a
    [std::string] ([c_str()], with [c] the null byte): the bytes before
    the first [c]. *)
Fixpoint before_char (c : ascii) (s : string) : string :=
  match s with
  | EmptyString => EmptyString
  | String a s' => if Ascii.eqb a c then EmptyString else String a (before_char c s')
  end.

(** [QString::startsWith], [boost::ends_with]. *)
Definition startsWith (s pre : string) : bool := String.prefix pre s.
Definition ends_with (s suf : string) : bool :=
  String.prefix (String.rev suf) (String.rev s).

(** [std::string::find(needle) != npos]. *)
Fixpoint contains_str (s needle : string) : bool :=
  String.prefix needle s ||
  match s with
  | EmptyString => false
  | String _ s' => contains_str s' needle
  end.

(** [QByteArray::mid(pos)]: the bytes from [pos] on. *)
Fixpoint mid (s : string) (pos : nat) : string :=
  match pos, s with
  | O, _ => s
  | S p, String _ s' => mid s' p
  | S _, EmptyString => EmptyString
  end.

Definition isEmpty_str (s : string) : bool :=
  match s with EmptyString => true | _ => false end.

(** ** Vectors ([QVector<int>]) *)

Definition isEmpty {A} (v : list A) : bool :=
  match v with [] => true | _ => false end.

(** [QVector::last()] asserts that the vector is not empty. *)
Definition vec_last (v : list Z) : Res Z :=
  match last v with
  | Some x => Ok x
  | None => Fatal "ASSERT: !isEmpty() in QVector::last"
  end.

(** [QVector::operator[]] asserts that the index is in range. *)
Definition vec_at (v : list Z) (i : nat) : Res Z :=
  match v !! i with
  | Some x => Ok x
  | None => Fatal "ASSERT: index out of range in QVector::operator[]"
  end.

(** [qUpperBound(begin, end, value)] of QtAlgorithms: the binary search
    [while (n > 0) { half = n >> 1; middle = begin + half;
      if (value < *middle) n = half;
      else { begin = middle + 1; n -= half + 1; } } return begin;]
    The iterators are offsets into the vector; [n] at least halves each
    round, so [length v] rounds are enough. *)
Fixpoint qUpperBound_loop (fuel : nat) (v : list Z) (value : Z)
    (begin n : nat) : nat :=
  match fuel with
  | O => begin
  | S fuel' =>
    match n with
    | O => begin
    | _ =>
      let half := Nat.div2 n in
      let middle := (begin + half)%nat in
      match v !! middle with
      | Some x =>
        if value <? x
        then qUpperBound_loop fuel' v value begin half
        else qUpperBound_loop fuel' v value (middle + 1)%nat (n - (half + 1))%nat
      | None => begin
      end
    end
  end.

Definition qUpperBound (v : list Z) (value : Z) : nat :=
  qUpperBound_loop (length v) v value 0%nat (length v).

(** ** The data model *)

(** Modelled from the spec: repository.h is not part of the sources; the
    branch record is the spec's [created], [commits], [marks], [note].
    [branches[key]] on a missing key inserts a value-initialised record. *)
Record Branch : Type := mkBranch {
  created : Z;
  commits : list Z;
  marks : list Z;
  note : string
}.

Definition Branch_default : Branch := mkBranch 0 [] [] "".

#[global] Instance Branch_eq_dec : EqDecision Branch.
Proof. solve_decision. Defined.

Inductive LogLevel : Type := Warn | Critical.

(** Modelled from the spec: the members of [Repository] as the
    constructor's initialiser list and the member functions use them;
    [running] is [fastImport.state() != QProcess::NotRunning]. *)
Record Repository : Type := mkRepository {
  name : string;
  prefix : string;
  branches : gmap string Branch;
  resetBranches : gmap string string;
  deletedBranches : gmap string string;
  commitCount : Z;
  outstandingTransactions : Z;
  last_commit_mark : Z;
  next_file_mark : Z;
  processHasStarted : bool;
  incremental : bool;
  running : bool;
  written : list string;
  logged : list (LogLevel * string)
}.

(** Modelled from the spec: the process-wide options object (options.hpp
    is not part of the sources). *)
Record Options : Type := mkOptions {
  dry_run : bool;
  add_metadata : bool;
  add_metadata_notes : bool;
  commit_interval : Z
}.

Definition maxMark : Z := Z.shiftl 1 20 - 2.

Definition set_branches (bs : gmap string Branch) (r : Repository) : Repository :=
  mkRepository (name r) (prefix r) bs (resetBranches r) (deletedBranches r)
    (commitCount r) (outstandingTransactions r) (last_commit_mark r)
    (next_file_mark r) (processHasStarted r) (incremental r) (running r)
    (written r) (logged r).

Definition set_resetBranches (m : gmap string string) (r : Repository) : Repository :=
  mkRepository (name r) (prefix r) (branches r) m (deletedBranches r)
    (commitCount r) (outstandingTransactions r) (last_commit_mark r)
    (next_file_mark r) (processHasStarted r) (incremental r) (running r)
    (written r) (logged r).

Definition set_deletedBranches (m : gmap string string) (r : Repository) : Repository :=
  mkRepository (name r) (prefix r) (branches r) (resetBranches r) m
    (commitCount r) (outstandingTransactions r) (last_commit_mark r)
    (next_file_mark r) (processHasStarted r) (incremental r) (running r)
    (written r) (logged r).

Definition set_commitCount (n : Z) (r : Repository) : Repository :=
  mkRepository (name r) (prefix r) (branches r) (resetBranches r) (deletedBranches r)
    n (outstandingTransactions r) (last_commit_mark r)
    (next_file_mark r) (processHasStarted r) (incremental r) (running r)
    (written r) (logged r).

Definition set_outstandingTransactions (n : Z) (r : Repository) : Repository :=
  mkRepository (name r) (prefix r) (branches r) (resetBranches r) (deletedBranches r)
    (commitCount r) n (last_commit_mark r)
    (next_file_mark r) (processHasStarted r) (incremental r) (running r)
    (written r) (logged r).

Definition set_last_commit_mark (n : Z) (r : Repository) : Repository :=
  mkRepository (name r) (prefix r) (branches r) (resetBranches r) (deletedBranches r)
    (commitCount r) (outstandingTransactions r) n
    (next_file_mark r) (processHasStarted r) (incremental r) (running r)
    (written r) (logged r).

Definition set_next_file_mark (n : Z) (r : Repository) : Repository :=
  mkRepository (name r) (prefix r) (branches r) (resetBranches r) (deletedBranches r)
    (commitCount r) (outstandingTransactions r) (last_commit_mark r)
    n (processHasStarted r) (incremental r) (running r)
    (written r) (logged r).

Definition set_process (started run : bool) (r : Repository) : Repository :=
  mkRepository (name r) (prefix r) (branches r) (resetBranches r) (deletedBranches r)
    (commitCount r) (outstandingTransactions r) (last_commit_mark r)
    (next_file_mark r) started (incremental r) run
    (written r) (logged r).

(** [fastImport.write(bytes)] and [writeNoLog]: one more chunk. *)
Definition write (bytes : string) (r : Repository) : Repository :=
  mkRepository (name r) (prefix r) (branches r) (resetBranches r) (deletedBranches r)
    (commitCount r) (outstandingTransactions r) (last_commit_mark r)
    (next_file_mark r) (processHasStarted r) (incremental r) (running r)
    (written r ++ [bytes]) (logged r).

Definition write_all (chunks : list string) (r : Repository) : Repository :=
  foldl (fun r c => write c r) r chunks.

Definition log_msg (lvl : LogLevel) (msg : string) (r : Repository) : Repository :=
  mkRepository (name r) (prefix r) (branches r) (resetBranches r) (deletedBranches r)
    (commitCount r) (outstandingTransactions r) (last_commit_mark r)
    (next_file_mark r) (processHasStarted r) (incremental r) (running r)
    (written r) (logged r ++ [(lvl, msg)]).

(** [branches[key]]: the record under [key], inserted value-initialised
    when the key is missing. *)
Definition branches_index (bs : gmap string Branch) (key : string)
    : Branch * gmap string Branch :=
  match bs !! key with
  | Some br => (br, bs)
  | None => (Branch_default, <[key := Branch_default]> bs)
  end.

(** [Repository::Repository], lines 70-121: the declared branches with
    [created = 0], the default branch with [created = 1], the counters
    at their start.  [rule_branches] are the qualified ref names of the
    rule's branches; the creation of the bare repository on disk is
    left out. *)
Definition Repository_new (rule_name : string) (rule_branches : list string)
    (incr : bool) : Repository :=
  let declared :=
    foldl (fun bs b =>
             let '(br, bs) := branches_index bs b in
             <[b := mkBranch 0 (commits br) (marks br) (note br)]> bs)
          (∅ : gmap string Branch) rule_branches in
  let '(m, declared) := branches_index declared "refs/heads/master" in
  let bs := <["refs/heads/master" := mkBranch 1 (commits m) (marks m) (note m)]> declared in
  mkRepository rule_name "" bs ∅ ∅ 0 0 0 maxMark false incr false [] [].

(** ** The branch registry *)

(** [Repository::markFrom], lines 325-355. *)
Definition markFrom (branchFrom : string) (branchRevNum : Z)
    (branchFromDesc : string) (r : Repository) : Res (Z * string * Repository) :=
  _ ← Q_ASSERT (startsWith branchFrom "refs/") "branchFrom.startsWith(refs/)";
  let '(brFrom, bs) := branches_index (branches r) branchFrom in
  let r := set_branches bs r in
  if created brFrom =? 0 then Ok (-1, branchFromDesc, r)
  else if isEmpty (commits brFrom) then Ok (-1, branchFromDesc, r)
  else
    lastc ← vec_last (commits brFrom);
    if branchRevNum =? lastc then
      m ← vec_last (marks brFrom); Ok (m, branchFromDesc, r)
    else
      let it := qUpperBound (commits brFrom) branchRevNum in
      match it with
      | O => Ok (0, branchFromDesc, r)
      | S it =>
        closestCommit ← vec_at (commits brFrom) it;
        let desc :=
          if isEmpty_str branchFromDesc then branchFromDesc
          else
            let d := branchFromDesc +:+ " at r" +:+ number branchRevNum in
            if closestCommit =? branchRevNum then d
            else d +:+ " => r" +:+ number closestCommit in
        m ← vec_at (marks brFrom) it;
        Ok (m, desc, r)
      end.

(** [Repository::branchExists], lines 662-665. *)
Definition branchExists (branch : string) (r : Repository) : bool :=
  bool_decide (is_Some (branches r !! branch)).

Definition LF : string := String "010"%char EmptyString.

(** [!v.isEmpty() && v.last()]: the vector ends in a non-zero entry. *)
Definition last_nonzero (v : list Z) : bool :=
  match last v with
  | Some x => negb (x =? 0)
  | None => false
  end.

(** [QMap::values()]: the values in ascending key order. *)
Definition values (m : gmap string string) : list string :=
  (merge_sort (fun a b : string * string => String.le a.1 b.1) (map_to_list m)).*2.

Definition map_isEmpty {A} (m : gmap string A) : bool :=
  bool_decide (m = ∅).

(** ** The process handle *)

(** [Repository::reloadBranches], lines 299-323.  The keys of the
    registry are visited in the map's enumeration order ([QHash] fixes
    none). *)
Definition reloadBranches (o : Options) (r : Repository) : Res Repository :=
  '(r, reset_notes) ←
    foldl (fun (acc : Res (Repository * bool)) (kv : string * Branch) =>
             '(r, reset_notes) ← acc;
             let '(branch, br) := kv in
             _ ← Q_ASSERT (startsWith branch "refs/") "branch.startsWith(refs/)";
             if negb (last_nonzero (marks br)) then Ok (r, reset_notes)
             else
               m ← vec_last (marks br);
               Ok (write ("reset " +:+ branch +:+ LF +:+ "from :" +:+ number m
                          +:+ LF +:+ LF +:+ "progress Branch " +:+ branch
                          +:+ " reloaded" +:+ LF) r, true))
          (Ok (r, false)) (map_to_list (branches r));
  if reset_notes && add_metadata_notes o
  then Ok (write ("reset refs/notes/commits" +:+ LF +:+ "from :"
                  +:+ number (maxMark + 1) +:+ LF) r)
  else Ok r.

(** [Repository::startFastImport], lines 623-651.  [processCache.touch]
    closes the children of other repositories only and is left out. *)
Definition startFastImport (o : Options) (r : Repository) : Res Repository :=
  if running r then Ok r
  else if processHasStarted r
  then Fatal "git-fast-import has been started once and crashed?"
  else reloadBranches o (set_process true true r).

(** [Repository::closeFastImport], lines 278-297. *)
Definition closeFastImport (r : Repository) : Repository :=
  let r := if running r then write ("checkpoint" +:+ LF) r else r in
  set_process false false r.

(** ** The repository facade *)

(** The backup command of [resetBranch], lines 422-439: empty unless the
    record was created at another revision and ends in a non-zero mark. *)
Definition backup_command (br : Branch) (branch : string) (revnum : Z)
    (comment : string) : string :=
  let branchRef := branch in
  if negb (created br =? 0) && negb (created br =? revnum)
     && last_nonzero (marks br)
  then
    let backupBranch :=
      if String.eqb comment "delete" && startsWith branchRef "refs/heads/"
      then "refs/tags/backups/" +:+ mid branchRef 11 +:+ "@" +:+ number revnum
      else "refs/backups/r" +:+ number revnum +:+ mid branchRef 4 in
    "reset " +:+ backupBranch +:+ LF +:+ "from " +:+ branchRef +:+ LF +:+ LF
  else "".

(** The reset command of [resetBranch], lines 445-448. *)
Definition reset_command (branch : string) (revnum mark : Z)
    (resetTo comment : string) : string :=
  "reset " +:+ branch +:+ LF +:+ "from " +:+ resetTo +:+ LF +:+ LF
  +:+ "progress SVN r" +:+ number revnum
  +:+ " branch " +:+ branch +:+ " = :" +:+ number mark
  +:+ " # " +:+ comment +:+ LF +:+ LF.

(** [Repository::resetBranch], lines 408-466; [branch] is the ref name,
    [revnum] is [svn_revision->id()].  [submoduleChanged] has an empty
    body. *)
Definition resetBranch (branch : string) (revnum mark : Z)
    (resetTo comment : string) (r : Repository) : Res Repository :=
  _ ← Q_ASSERT (startsWith branch "refs/") "branch.startsWith(refs/)";
  let '(br, bs) := branches_index (branches r) branch in
  let backupCmd := backup_command br branch revnum comment in
  let br := mkBranch revnum (commits br ++ [revnum]) (marks br ++ [mark]) (note br) in
  let r := set_branches (<[branch := br]> bs) r in
  let cmd := reset_command branch revnum mark resetTo comment in
  if String.eqb comment "delete" then
    if bool_decide (is_Some (resetBranches r !! branch))
    then Ok (set_resetBranches (delete branch (resetBranches r)) r)
    else
      Ok (set_deletedBranches
            (<[branch := default "" (deletedBranches r !! branch)
                         +:+ backupCmd +:+ cmd]> (deletedBranches r)) r)
  else
    Ok (set_resetBranches
          (<[branch := default "" (resetBranches r !! branch)
                       +:+ backupCmd +:+ cmd]> (resetBranches r)) r).

(** [Repository::createBranch], lines 357-394; [branch] is
    [git_ref_name(branch_rule)]. *)
Definition createBranch (branch : string) (revnum : Z) (branchFrom : string)
    (branchRevNum : Z) (r : Repository) : Res Repository :=
  _ ← Q_ASSERT (startsWith branch "refs/") "branch.startsWith(refs/)";
  _ ← Q_ASSERT (startsWith branchFrom "refs/") "branchFrom.startsWith(refs/)";
  let branchFromDesc := "from branch " +:+ branchFrom in
  '(mark, branchFromDesc, r) ← markFrom branchFrom branchRevNum branchFromDesc r;
  if mark =? -1 then
    Fatal (branch +:+ " in repository " +:+ name r
           +:+ " is branching from branch " +:+ branchFrom
           +:+ " but the latter doesn't exist. Can't continue.")
  else
    let branchFromRef := ":" +:+ number mark in
    let '(r, branchFromRef, branchFromDesc) :=
      if mark =? 0 then
        (log_msg Warn (branch +:+ " in repository " +:+ name r
                       +:+ " is branching but no exported commits exist in repository."
                       +:+ " creating an empty branch.") r,
         branchFrom, branchFromDesc +:+ ", deleted/unknown")
      else (r, branchFromRef, branchFromDesc) in
    let fromNote := note (default Branch_default (branches r !! branchFrom)) in
    let '(br, bs) := branches_index (branches r) branch in
    let r := set_branches
               (<[branch := mkBranch (created br) (commits br) (marks br) fromNote]> bs) r in
    resetBranch branch revnum mark branchFromRef branchFromDesc r.

(** [static QByteArray null_sha(40, '0')]. *)
Definition null_sha : string := "0000000000000000000000000000000000000000".

(** [Repository::deleteBranch], lines 396-406. *)
Definition deleteBranch (branch : string) (revnum : Z) (r : Repository)
    : Res Repository :=
  _ ← Q_ASSERT (startsWith branch "refs/") "branch.startsWith(refs/)";
  if String.eqb branch "refs/heads/master" then Ok r
  else
    resetBranch branch revnum 0 null_sha "delete" r.

(** [Repository::commit], lines 468-481: the flush of the pending reset
    buffers. *)
Definition Repository_commit (o : Options) (r : Repository) : Res Repository :=
  if map_isEmpty (deletedBranches r) && map_isEmpty (resetBranches r) then Ok r
  else
    r ← startFastImport o r;
    let r := write_all (values (deletedBranches r)) r in
    let r := write_all (values (resetBranches r)) r in
    Ok (set_resetBranches ∅ (set_deletedBranches ∅ r)).

(** [Repository::formatMetadataMessage], lines 653-660. *)
Definition formatMetadataMessage (svnprefix : string) (revnum : Z) (tag : string)
    : string :=
  let msg := "svn path=" +:+ svnprefix +:+ "; revision=" +:+ number revnum in
  let msg := if isEmpty_str tag then msg else msg +:+ "; tag=" +:+ tag in
  msg +:+ LF.

(** [Repository::branchNote] and [setBranchNote], lines 667-676. *)
Definition branchNote (branch : string) (r : Repository) : string :=
  note (default Branch_default (branches r !! branch)).

Definition setBranchNote (branch noteText : string) (r : Repository) : Repository :=
  match branches r !! branch with
  | Some br =>
    set_branches
      (<[branch := mkBranch (created br) (commits br) (marks br) noteText]> (branches r)) r
  | None => r
  end.

(** [Repository::forgetTransaction], lines 521-527. *)
Definition forgetTransaction (r : Repository) : Repository :=
  let n := outstandingTransactions r - 1 in
  let r := set_outstandingTransactions n r in
  if n =? 0 then set_next_file_mark maxMark r else r.

(** ** Transactions *)

(** Modelled from the spec: the members of [Repository::Transaction]
    as the member functions use them. *)
Record Transaction : Type := mkTransaction {
  branch : string;
  svnprefix : string;
  datetime : Z;
  revnum : Z;
  author : string;
  log : string;
  merges : list Z;
  deletedFiles : list string;
  modifiedFiles : string
}.

(** [Repository::newTransaction], lines 491-519.  The remainder by a
    [commit_interval] of 0 is undefined in C++; the model aborts. *)
Definition newTransaction (o : Options) (branch svnprefix : string) (revnum : Z)
    (r : Repository) : Res (Transaction * Repository) :=
  _ ← Q_ASSERT (startsWith branch "refs/") "branch.startsWith(refs/)";
  let txn := mkTransaction branch svnprefix 0 revnum "" "" [] [] "" in
  let r := set_commitCount (commitCount r + 1) r in
  r ← (if commit_interval o =? 0 then Fatal "commitCount % 0"
       else if Z.rem (commitCount r) (commit_interval o) =? 0 then
         r ← startFastImport o r;
         Ok (write ("checkpoint" +:+ LF) r)
       else Ok r);
  Ok (txn, set_outstandingTransactions (outstandingTransactions r + 1) r).

(** The natural parent of a commit on a branch record, lines 832-836:
    [br.marks.last()] when [br.created && !br.marks.isEmpty() &&
    br.marks.last()], else 0 (no parent). *)
Definition parentmark_of (br : Branch) : Z :=
  if negb (created br =? 0) && last_nonzero (marks br)
  then default 0 (last (marks br))
  else 0.

(** The [foreach (const int merge, merges)] loop of lines 872-894: the
    chunks written, the description, and whether the loop broke on more
    than 16 parents. *)
Fixpoint merge_loop (ms : list Z) (parentmark i : Z) (desc : string)
    (out : list string) : list string * string * bool :=
  match ms with
  | [] => (out, desc, false)
  | merge :: rest =>
    if merge =? parentmark then merge_loop rest parentmark i desc out
    else
      let i := i + 1 in
      if 16 <? i then (out, desc, true)
      else
        let m := " :" +:+ number merge in
        merge_loop rest parentmark i (desc +:+ m) (out ++ ["merge" +:+ m +:+ LF])
  end.

(** [qSort] on a [QVector<int>]. *)
Definition qSort (v : list Z) : list Z := merge_sort Z.le v.

(** [QVector::pop_back]. *)
Definition pop_back {A} (v : list A) : list A := removelast v.

Definition cvs2svn_marker : string := "This commit was manufactured by cvs2svn".

(** The merge lines of a commit block, lines 860-895: the chunks
    written, the description for the progress line, the merges as the
    transaction keeps them, and the too-many-parents warning. *)
Definition emit_merges (log : string) (ms : list Z) (parentmark : Z)
    : Res (list string * string * list Z * bool) :=
  let i := if parentmark =? 0 then 0 else 1 in
  if contains_str log cvs2svn_marker && (1 <? Z.of_nat (length ms)) then
    let sorted := qSort ms in
    top ← vec_last sorted;
    Ok (["merge :" +:+ number top +:+ LF], "", pop_back sorted, false)
  else
    let '(out, desc, warn) := merge_loop ms parentmark i "" [] in
    Ok (out, desc, ms, warn).

Module Transaction_.

Definition setAuthor (a : string) (t : Transaction) : Transaction :=
  mkTransaction (branch t) (svnprefix t) (datetime t) (revnum t) a (log t)
    (merges t) (deletedFiles t) (modifiedFiles t).

Definition setDateTime (dt : Z) (t : Transaction) : Transaction :=
  mkTransaction (branch t) (svnprefix t) dt (revnum t) (author t) (log t)
    (merges t) (deletedFiles t) (modifiedFiles t).

Definition setLog (l : string) (t : Transaction) : Transaction :=
  mkTransaction (branch t) (svnprefix t) (datetime t) (revnum t) (author t) l
    (merges t) (deletedFiles t) (modifiedFiles t).

Definition set_merges (ms : list Z) (t : Transaction) : Transaction :=
  mkTransaction (branch t) (svnprefix t) (datetime t) (revnum t) (author t) (log t)
    ms (deletedFiles t) (modifiedFiles t).

(** [Transaction::noteCopyFromBranch], lines 698-740. *)
Definition noteCopyFromBranch (branchFrom : string) (branchRevNum : Z)
    (t : Transaction) (r : Repository) : Res (Transaction * Repository) :=
  _ ← Q_ASSERT (startsWith branchFrom "refs/") "branchFrom.startsWith(refs/)";
  if String.eqb (branch t) branchFrom then
    Ok (t, log_msg Warn ("Cannot merge inside a branch in repository " +:+ name r) r)
  else
    '(mark, dummy, r) ← markFrom branchFrom branchRevNum "" r;
    _ ← Q_ASSERT (isEmpty_str dummy) "dummy.isEmpty()";
    if mark =? -1 then
      Ok (t, log_msg Warn (branch t +:+ " is copying from branch " +:+ branchFrom
                           +:+ " but the latter doesn't exist. Continuing, assuming the files exist"
                           +:+ " in repository " +:+ name r) r)
    else if mark =? 0 then
      Ok (t, log_msg Warn ("Unknown revision r" +:+ number branchRevNum
                           +:+ ". Continuing, assuming the files exist"
                           +:+ " in repository " +:+ name r) r)
    else if bool_decide (mark ∈ merges t) then Ok (t, r)
    else Ok (set_merges (merges t ++ [mark]) t, r).

(** [Transaction::deleteFile], lines 742-748. *)
Definition deleteFile (path : string) (t : Transaction) (r : Repository)
    : Transaction :=
  let pathNoSlash := prefix r +:+ path in
  let pathNoSlash :=
    if ends_with pathNoSlash "/"
    then String.rev (mid (String.rev pathNoSlash) 1)
    else pathNoSlash in
  mkTransaction (branch t) (svnprefix t) (datetime t) (revnum t) (author t) (log t)
    (merges t) (deletedFiles t ++ [pathNoSlash]) (modifiedFiles t).

(** [Transaction::addFile], lines 750-779.  The function returns the
    fast-import device; the model returns the blob mark it allocated,
    which is the mark the caller's blob data is stored under. *)
Definition addFile (o : Options) (path : string) (mode length : Z)
    (t : Transaction) (r : Repository) : Res (Z * Transaction * Repository) :=
  let mark := next_file_mark r in
  let r := set_next_file_mark (next_file_mark r - 1) r in
  _ ← Q_ASSERT (last_commit_mark r + 1 <? mark) "mark > repository->last_commit_mark + 1";
  _ ← Q_ASSERT (negb (isEmpty_str (prefix r +:+ path))) "!(prefix + path).empty()";
  let t := mkTransaction (branch t) (svnprefix t) (datetime t) (revnum t) (author t)
             (log t) (merges t) (deletedFiles t)
             (modifiedFiles t +:+ "M " +:+ number8 mode +:+ " :" +:+ number mark
              +:+ " " +:+ prefix r +:+ path +:+ LF) in
  if negb (dry_run o) then
    r ← startFastImport o r;
    Ok (mark, t,
        write_all ["blob" +:+ LF +:+ "mark :"; number mark; LF +:+ "data ";
                   number length; LF] r)
  else Ok (mark, t, r).

(** [Transaction::commitNote], lines 781-811; [commit] is [None] for
    the null byte array of the default argument. *)
Definition commitNote (noteText : string) (append : bool) (commit : option string)
    (t : Transaction) (r : Repository) : Res Repository :=
  _ ← Q_ASSERT (startsWith (branch t) "refs/") "branch.startsWith(refs/)";
  let branchRef := branch t in
  let commitRef := default branchRef commit in
  let message := "Adding Git note for current " +:+ commitRef +:+ LF in
  let text := noteText in
  let '(text, message) :=
    if append && bool_decide (commit = None) && branchExists (branch t) r
       && negb (isEmpty_str (branchNote (branch t) r))
    then (branchNote (branch t) r +:+ text,
          "Appending Git note for current " +:+ commitRef +:+ LF)
    else (text, message) in
  let s := "commit refs/notes/commits" +:+ LF
           +:+ "mark :" +:+ number (maxMark + 1) +:+ LF
           +:+ "committer " +:+ author t +:+ " " +:+ number (datetime t) +:+ " +0000" +:+ LF
           +:+ "data " +:+ number (Z.of_nat (String.length message)) +:+ LF
           +:+ message +:+ LF
           +:+ "N inline " +:+ commitRef +:+ LF
           +:+ "data " +:+ number (Z.of_nat (String.length text)) +:+ LF
           +:+ text +:+ LF in
  let r := write s r in
  Ok (if bool_decide (commit = None) then setBranchNote (branch t) text r else r).

(** The commit message, lines 826-830. *)
Definition commit_message (o : Options) (t : Transaction) : string :=
  let message := log t in
  let message := if ends_with message LF then message else message +:+ LF in
  if add_metadata o
  then message +:+ LF +:+ formatMetadataMessage (svnprefix t) (revnum t) ""
  else message.

(** The parent and the registry update, lines 832-846: the parent mark,
    and the repository with the new entry appended to the record (and
    the warning of the incremental mode). *)
Definition commit_branch (t : Transaction) (mark : Z) (r : Repository)
    : Z * Repository :=
  let '(br, bs) := branches_index (branches r) (branch t) in
  let has_tip := negb (created br =? 0) && last_nonzero (marks br) in
  let r :=
    if has_tip then r
    else if incremental r
    then log_msg Warn ("Branch " +:+ branch t +:+ " in repository " +:+ name r
                       +:+ " doesn't exist at revision " +:+ number (revnum t)
                       +:+ " -- did you resume from the wrong revision?") r
    else r in
  let br' := mkBranch (if has_tip then created br else revnum t)
               (commits br ++ [revnum t]) (marks br ++ [mark]) (note br) in
  (parentmark_of br, set_branches (<[branch t := br']> bs) r).

(** The head of the commit block, lines 851-857.  The data line counts
    the whole message; the body is [QByteArray(message.c_str())], the
    bytes of the message before its first null byte. *)
Definition commit_header (o : Options) (t : Transaction) (mark : Z) : string :=
  let message := commit_message o t in
  "commit " +:+ branch t +:+ LF
  +:+ "mark :" +:+ number mark +:+ LF
  +:+ "committer " +:+ author t +:+ " " +:+ number (datetime t) +:+ " +0000" +:+ LF
  +:+ "data " +:+ number (Z.of_nat (String.length message)) +:+ LF
  +:+ before_char "000" message +:+ LF.

(** The file operations and the progress line, lines 896-909. *)
Definition commit_files (t : Transaction) (mark : Z) (desc : string) : list string :=
  (if bool_decide ("" ∈ deletedFiles t) then ["deleteall" +:+ LF]
   else (fun df => "D " +:+ df +:+ LF) <$> deletedFiles t)
  ++ [modifiedFiles t;
      LF +:+ "progress SVN r" +:+ number (revnum t)
      +:+ " branch " +:+ branch t +:+ " = :" +:+ number mark
      +:+ (if isEmpty_str desc then "" else " # merge from") +:+ desc
      +:+ LF +:+ LF].

(** [Transaction::commit], lines 813-917: the function up to the wait
    for the child that ends it, which [commit_and_wait] adds. *)
Definition commit (o : Options) (t : Transaction) (r : Repository)
    : Res (Transaction * Repository) :=
  r ← startFastImport o r;
  let mark := last_commit_mark r + 1 in
  let r := set_last_commit_mark mark r in
  _ ← Q_ASSERT (mark <? next_file_mark r - 1) "mark < repository->next_file_mark - 1";
  let '(parentmark, r) := commit_branch t mark r in
  _ ← Q_ASSERT (startsWith (branch t) "refs/") "branch.startsWith(refs/)";
  let r := write (commit_header o t mark) r in
  em ← emit_merges (log t) (merges t) parentmark;
  let '(out, desc, ms, warn) := (em : list string * string * list Z * bool) in
  let t := set_merges ms t in
  let r := write_all out r in
  let r := if warn then log_msg Warn ("too many merge parents in repository " +:+ name r) r
           else r in
  let r := write_all (commit_files t mark desc) r in
  r ← (if add_metadata_notes o
       then commitNote (formatMetadataMessage (svnprefix t) (revnum t) "") false None t r
       else Ok r);
  Ok (t, r).

End Transaction_.

(** [Transaction::commit] with the loop that ends it, lines 918-921: the
    wait for the child to take the bytes queued, fatal when a wait
    fails.  [taken] tells whether every wait of the loop succeeds; the
    fatal message stands for the one of line 920, which also carries
    the error string of the process and the name of the repository. *)
Definition commit_and_wait (taken : bool) (o : Options) (t : Transaction)
    (r : Repository) : Res (Transaction * Repository) :=
  tr ← Transaction_.commit o t r;
  if taken then Ok tr else Fatal "Failed to write to process".

(** ** Files and lines *)

(** The file system the recovery works on: file name to content. *)
Abbreviation FileSystem := (gmap string string).

Fixpoint replace_slash (s : string) : string :=
  match s with
  | EmptyString => EmptyString
  | String c s' =>
    String (if Ascii.eqb c "/"%char then "_"%char else c) (replace_slash s')
  end.

(** [marksFileName] and [logFileName], lines 63-68 and 123-128. *)
Definition marksFileName (name : string) : string := "marks-" +:+ replace_slash name.
Definition logFileName (name : string) : string := "log-" +:+ replace_slash name.

(** [QFile::readLine] until [atEnd]: the lines of a file, each with its
    terminating newline (the last one possibly without). *)
Fixpoint readLines (s : string) : list string :=
  match s with
  | EmptyString => []
  | String c s' =>
    if Ascii.eqb c "010"%char then String c EmptyString :: readLines s'
    else match readLines s' with
         | [] => [String c EmptyString]
         | l :: ls => String c l :: ls
         end
  end.

(** [QFile::resize(pos)] on a file of at least [pos] bytes. *)
Fixpoint take_str (n : nat) (s : string) : string :=
  match n, s with
  | S n', String c s' => String c (take_str n' s')
  | _, _ => EmptyString
  end.

(** [indexOf(c)]: the offset of the first [c], if any. *)
Fixpoint indexOf (c : ascii) (s : string) : option nat :=
  match s with
  | EmptyString => None
  | String a s' => if Ascii.eqb a c then Some O else S <$> indexOf c s'
  end.

Fixpoint drop_space (s : string) : string :=
  match s with
  | String a s' => if Ascii.is_space a then drop_space s' else s
  | EmptyString => EmptyString
  end.

(** [QByteArray::trimmed]. *)
Definition trimmed (s : string) : string :=
  String.rev (drop_space (String.rev (drop_space s))).

(** The conversion of a byte array to a [QString] stops at the first
    NUL byte. *)
Definition to_QString (s : string) : string := before_char "000"%char s.

Definition is_digit (c : ascii) : bool :=
  (48 <=? nat_of_ascii c)%nat && (nat_of_ascii c <=? 57)%nat.

Fixpoint all_digits (s : string) : bool :=
  match s with
  | EmptyString => true
  | String c s' => is_digit c && all_digits s'
  end.

Fixpoint digits_value (s : string) (acc : Z) : Z :=
  match s with
  | EmptyString => acc
  | String c s' => digits_value s' (10 * acc + Z.of_nat (nat_of_ascii c - 48))
  end.

(** [QString::toInt()]: surrounding white space, an optional sign and
    decimal digits; 0 when the text is not a number or does not fit an
    [int]. *)
Definition toInt (s : string) : Z :=
  let s := trimmed s in
  let '(neg, ds) :=
    match s with
    | String "-"%char s' => (true, s')
    | String "+"%char s' => (false, s')
    | _ => (false, s)
    end in
  if isEmpty_str ds || negb (all_digits ds) then 0
  else
    let v := if neg then - digits_value ds 0 else digits_value ds 0 in
    if (-2147483648 <=? v) && (v <=? 2147483647) then v else 0.

Fixpoint span_digits (s : string) : string * string :=
  match s with
  | String c s' =>
    if is_digit c then let '(d, rest) := span_digits s' in (String c d, rest)
    else (EmptyString, s)
  | EmptyString => (EmptyString, EmptyString)
  end.

Fixpoint strip_prefix (pre s : string) : option string :=
  match pre, s with
  | EmptyString, _ => Some s
  | String a pre', String b s' => if Ascii.eqb a b then strip_prefix pre' s' else None
  | String _ _, EmptyString => None
  end.

(** [progress.exactMatch(line)] for the pattern
    [progress SVN r(\d+) branch (ANY) = :(\d+)], where ANY is the greedy
    dot-star, with the three captures.  The first run of digits is
    followed by a space, so it is the maximal run; the last capture is
    all digits up to the end of the line, so it is the maximal run of
    digits at the end, and the greedy capture in the middle is whatever
    stands between [ branch ] and the [ = :] before that run. *)
Definition progress_exactMatch (line : string) : option (string * string * string) :=
  rest ← strip_prefix "progress SVN r" line;
  let '(cap1, rest) := span_digits rest in
  if isEmpty_str cap1 then None
  else
    rest ← strip_prefix " branch " rest;
    let '(cap3_rev, before_rev) := span_digits (String.rev rest) in
    if isEmpty_str cap3_rev then None
    else
      cap2_rev ← strip_prefix ": = " before_rev;
      Some (cap1, String.rev cap2_rev, String.rev cap3_rev).

(** ** Incremental recovery *)

(** The mark of a line of the marks file, lines 145-152: the number
    between the leading colon and the first space, 0 when the line has
    neither. *)
Definition line_mark (line : string) : Z :=
  match line with
  | String ":"%char _ =>
    match indexOf " "%char line with
    | Some sp => toInt (String.substring 1 (sp - 1) line)
    | None => 0
    end
  | _ => 0
  end.

(** The loop of [lastValidMark], lines 139-173, over the lines still to
    read: the value returned and the critical messages. *)
Fixpoint lastValidMark_loop (fileName : string) (lines : list string)
    (lineno prev_mark : Z) : Z * list (LogLevel * string) :=
  match lines with
  | [] => (prev_mark, [])
  | raw :: rest =>
    let line := to_QString raw in
    let lineno := lineno + 1 in
    if isEmpty_str line then lastValidMark_loop fileName rest lineno prev_mark
    else
      let mark := line_mark line in
      let critical what :=
        [(Critical, fileName +:+ " line " +:+ number lineno +:+ " " +:+ what)] in
      if mark =? 0 then (0, critical "marks file corrupt?")
      else if mark =? prev_mark then (0, critical "marks file has duplicates")
      else if mark <? prev_mark then (0, critical "marks file not sorted")
      else if prev_mark + 1 <? mark then (prev_mark, [])
      else lastValidMark_loop fileName rest lineno mark
  end.

(** [lastValidMark], lines 130-176.  Nothing on this path aborts: the
    result is always [Ok]. *)
Definition lastValidMark (name : string) (fs : FileSystem)
    : Res (Z * list (LogLevel * string)) :=
  let fileName := name +:+ "/" +:+ marksFileName name in
  match fs !! fileName with
  | None => Ok (0, [])
  | Some content => Ok (lastValidMark_loop fileName (readLines content) 0 0)
  end.

(** What the scan of the log makes of a line, lines 198-209: nothing
    for a line that is empty after the comment is cut and the white
    space trimmed, or that is not a progress line; else the revision,
    the branch and the mark. *)
Definition parse_progress (raw : string) : option (Z * string * Z) :=
  let line := trimmed (before_char "#"%char raw) in
  if isEmpty_str line then None
  else
    caps ← progress_exactMatch (to_QString line);
    let '(cap1, cap2, cap3) := (caps : string * string * string) in
    Some (toInt cap1, cap2, toInt cap3).

(** The replay of one progress line into the registry, lines 228-237. *)
Definition replay_progress (revnum : Z) (branch : string) (mark : Z)
    (r : Repository) : Repository :=
  let r := if last_commit_mark r <? mark then set_last_commit_mark mark r else r in
  let '(br, bs) := branches_index (branches r) branch in
  let br_created :=
    if (created br =? 0) || (mark =? 0) || isEmpty (marks br)
       || negb (last_nonzero (marks br))
    then revnum else created br in
  set_branches
    (<[branch := mkBranch br_created (commits br ++ [revnum]) (marks br ++ [mark]) (note br)]> bs)
    r.

(** How the scan of the log ends: at the end of the file, or at the
    [beyond_cutoff] label with the position of the line it stopped at
    and the cutoff then in force. *)
Inductive ScanEnd : Type :=
| AtEnd (last_revnum : Z)
| BeyondCutoff (pos : nat) (cutoff : Z).

Definition not_monotonic_warning (r : Repository) (last_revnum revnum : Z)
    : string :=
  name r +:+ " revision numbers are not monotonic: "
  +:+ " got " +:+ number last_revnum +:+ " and then " +:+ number revnum.

Definition unknown_mark_warning (r : Repository) : string :=
  name r +:+ " unknown commit mark found:"
  +:+ " rewinding -- did you hit Ctrl-C?".

(** The loop of [setupIncremental], lines 195-238, over the lines still
    to read; [pos] is [logfile.pos()] before the next [readLine]. *)
Fixpoint setupIncremental_loop (lines : list string) (pos : nat)
    (cutoff last_valid_mark last_revnum : Z) (r : Repository)
    : ScanEnd * Repository :=
  match lines with
  | [] => (AtEnd last_revnum, r)
  | raw :: rest =>
    let next := (pos + String.length raw)%nat in
    match parse_progress raw with
    | None => setupIncremental_loop rest next cutoff last_valid_mark last_revnum r
    | Some (revnum, branch, mark) =>
      if cutoff <=? revnum then (BeyondCutoff pos cutoff, r)
      else
        let r :=
          if revnum <? last_revnum
          then log_msg Warn (not_monotonic_warning r last_revnum revnum) r
          else r in
        if last_valid_mark <? mark
        then (BeyondCutoff pos revnum, log_msg Warn (unknown_mark_warning r) r)
        else
          setupIncremental_loop rest next cutoff last_valid_mark revnum
            (replay_progress revnum branch mark r)
    end
  end.

(** [Repository::setupIncremental], lines 178-260: the value returned,
    the cutoff as the reference parameter holds it afterwards, the files
    and the repository.  Nothing on this path aborts. *)
Definition setupIncremental (cutoff : Z) (fs : FileSystem) (r : Repository)
    : Res (Z * Z * FileSystem * Repository) :=
  let logfile := logFileName (name r) in
  match fs !! logfile with
  | None => Ok (1, cutoff, fs, r)
  | Some content =>
    '(last_valid_mark, msgs) ← lastValidMark (name r) fs;
    let r := foldl (fun r m => log_msg m.1 m.2 r) r msgs in
    let bkup := logfile +:+ ".old" in
    match setupIncremental_loop (readLines content) 0 cutoff last_valid_mark 0 r with
    | (AtEnd last_revnum, r) =>
      let retval := last_revnum + 1 in
      let fs := if retval =? cutoff then delete bkup fs else fs in
      Ok (retval, cutoff, fs, r)
    | (BeyondCutoff pos cutoff, r) =>
      let fs := delete bkup fs in
      let fs := <[bkup := content]> fs in
      let fs := <[logfile := take_str pos content]> fs in
      Ok (cutoff, cutoff, fs, r)
    end
  end.

(** [Repository::restoreLog], lines 262-270. *)
Definition restoreLog (fs : FileSystem) (r : Repository) : FileSystem :=
  let file := logFileName (name r) in
  let bkup := file +:+ ".old" in
  match fs !! bkup with
  | None => fs
  | Some saved => <[file := saved]> (delete bkup (delete file fs))
  end.

(** The bytes of a list of lines. *)
Definition join (lines : list string) : string := foldr String.append "" lines.

(** A stretch of the marks file the scan runs through: every line that
    is not empty carries the mark after the one before; [regular p ls k]
    when the stretch [ls], entered with previous mark [p], is left with
    previous mark [k]. *)
Fixpoint regular (p : Z) (lines : list string) (k : Z) : Prop :=
  match lines with
  | [] => k = p
  | raw :: rest =>
    if isEmpty_str (to_QString raw) then regular p rest k
    else line_mark (to_QString raw) = p + 1 ∧ regular (p + 1) rest k
  end.

(** A stretch of the log the scan runs through: every progress line is
    before the cutoff and carries a mark the marks file knows. *)
Definition replayable (cutoff last_valid_mark : Z) (lines : list string) : Prop :=
  Forall (fun raw =>
            match parse_progress raw with
            | Some (revnum, _, mark) => revnum < cutoff ∧ mark ≤ last_valid_mark
            | None => True
            end) lines.

(** The revision of the last progress line of a stretch, [last] when it
    has none. *)
Definition last_progress_rev (last : Z) (lines : list string) : Z :=
  foldl (fun last raw =>
           match parse_progress raw with
           | Some (revnum, _, _) => revnum
           | None => last
           end) last lines.

(** ** Runs of a repository *)

(** The operations a driver applies to one repository.  A transaction
    lives with the driver, so the operations on one carry it; [OpReplay]
    is the replay of one progress line by [setupIncremental]. *)
Inductive Op : Type :=
| OpNewTransaction (branch svnprefix : string) (revnum : Z)
| OpNoteCopyFromBranch (t : Transaction) (branchFrom : string) (branchRevNum : Z)
| OpAddFile (t : Transaction) (path : string) (mode length : Z)
| OpCommit (t : Transaction)
| OpForgetTransaction
| OpCreateBranch (branch : string) (revnum : Z) (branchFrom : string) (branchRevNum : Z)
| OpDeleteBranch (branch : string) (revnum : Z)
| OpFlush
| OpCloseFastImport
| OpReplay (revnum : Z) (branch : string) (mark : Z).

Definition step (o : Options) (op : Op) (r : Repository) : Res Repository :=
  match op with
  | OpNewTransaction b p n => tr ← newTransaction o b p n r; Ok tr.2
  | OpNoteCopyFromBranch t b n => tr ← Transaction_.noteCopyFromBranch b n t r; Ok tr.2
  | OpAddFile t p m l => mtr ← Transaction_.addFile o p m l t r; Ok mtr.2
  | OpCommit t => tr ← Transaction_.commit o t r; Ok tr.2
  | OpForgetTransaction => Ok (forgetTransaction r)
  | OpCreateBranch b n bf bn => createBranch b n bf bn r
  | OpDeleteBranch b n => deleteBranch b n r
  | OpFlush => Repository_commit o r
  | OpCloseFastImport => Ok (closeFastImport r)
  | OpReplay n b m => Ok (replay_progress n b m r)
  end.

Fixpoint run (o : Options) (ops : list Op) (r : Repository) : Res Repository :=
  match ops with
  | [] => Ok r
  | op :: ops => r ← step o op r; run o ops r
  end.

(** The revision an operation appends to a branch record, if it appends. *)
Definition op_revnum (op : Op) : option Z :=
  match op with
  | OpCommit t => Some (revnum t)
  | OpCreateBranch _ n _ _ => Some n
  | OpDeleteBranch _ n => Some n
  | OpReplay n _ _ => Some n
  | _ => None
  end.

Definition is_replay (op : Op) : bool :=
  match op with OpReplay _ _ _ => true | _ => false end.

(** The replay steps of [setupIncremental] for the progress lines it
    takes, each given by its revision, branch and mark. *)
Definition replay_ops (ps : list (Z * string * Z)) : list Op :=
  (fun p => OpReplay p.1.1 p.1.2 p.2) <$> ps.

(** The marks handed out along a run: the commit marks so far, and the
    blob marks since the descending counter was last reset. *)
Record MarkLog : Type := mkMarkLog {
  commit_marks : list Z;
  blob_marks : list Z
}.

Definition note_marks (op : Op) (before after : Repository) (g : MarkLog) : MarkLog :=
  match op with
  | OpAddFile _ _ _ _ => mkMarkLog (commit_marks g) (next_file_mark before :: blob_marks g)
  | OpCommit _ => mkMarkLog (last_commit_mark after :: commit_marks g) (blob_marks g)
  | OpForgetTransaction =>
    if outstandingTransactions after =? 0 then mkMarkLog (commit_marks g) [] else g
  | _ => g
  end.

Fixpoint run_marks (o : Options) (ops : list Op) (r : Repository) (g : MarkLog)
    : Res (Repository * MarkLog) :=
  match ops with
  | [] => Ok (r, g)
  | op :: ops => r' ← step o op r; run_marks o ops r' (note_marks op r r' g)
  end.

(** One call of [resetBranch], as [createBranch] and [deleteBranch]
    issue them, and the calls of one revision in order. *)
Record ResetCall : Type := mkResetCall {
  rc_branch : string;
  rc_revnum : Z;
  rc_mark : Z;
  rc_resetTo : string;
  rc_comment : string
}.

Definition is_delete (c : ResetCall) : bool := String.eqb (rc_comment c) "delete".

Definition delete_call (branch : string) (revnum : Z) : ResetCall :=
  mkResetCall branch revnum 0 null_sha "delete".

Fixpoint resetBranch_calls (cs : list ResetCall) (r : Repository) : Res Repository :=
  match cs with
  | [] => Ok r
  | c :: cs =>
    r ← resetBranch (rc_branch c) (rc_revnum c) (rc_mark c) (rc_resetTo c)
          (rc_comment c) r;
    resetBranch_calls cs r
  end.


(** ** Concrete inputs *)

Definition demo_options : Options := mkOptions false false false 10000.
Definition dry_options : Options := mkOptions true false false 10000.

(** A fresh repository "R" with no declared branch but the default one. *)
Definition fresh : Repository := Repository_new "R" [] false.

Definition txn_master_r1 : Transaction :=
  mkTransaction "refs/heads/master" "/trunk" 1000 1 "a <a@x>" ("init" +:+ LF) [] [] "".

Definition txn_topic_r2 : Transaction :=
  mkTransaction "refs/heads/topic" "/branches/topic" 2000 2 "a <a@x>"
    ("work" +:+ LF) [] [] "".

(** Revision 1 commits to master; revision 2 copies master to a new
    branch and commits to that branch. *)
Definition copy_and_commit_run : list Op :=
  [OpNewTransaction "refs/heads/master" "/trunk" 1;
   OpCommit txn_master_r1;
   OpForgetTransaction;
   OpCreateBranch "refs/heads/topic" 2 "refs/heads/master" 1;
   OpFlush;
   OpNewTransaction "refs/heads/topic" "/branches/topic" 2;
   OpCommit txn_topic_r2;
   OpForgetTransaction].

(** A registry with one populated record. *)
Definition demo_registry : Repository :=
  set_branches
    (<["refs/heads/master" := mkBranch 1 [2; 5; 9] [1; 4; 7] ""]> ∅)
    fresh.



(** A transaction of a branch fabricated by cvs2svn, with three staged
    merge parents. *)
Definition txn_cvs2svn : Transaction :=
  mkTransaction "refs/heads/master" "/trunk" 1000 1 "a <a@x>"
    ("This commit was manufactured by cvs2svn to create branch 'b'." +:+ LF)
    [3; 9; 5] [] "".

(** The files of scenario S4: a marks file that ends at mark 7, and a
    log whose second progress line carries mark 9. *)
Definition marks_1_to_7 : string :=
  ":1 a" +:+ LF +:+ ":2 a" +:+ LF +:+ ":3 a" +:+ LF +:+ ":4 a" +:+ LF
  +:+ ":5 a" +:+ LF +:+ ":6 a" +:+ LF +:+ ":7 a" +:+ LF.

Definition log_line_r3 : string :=
  "progress SVN r3 branch refs/heads/master = :5" +:+ LF.

Definition log_line_r4 : string :=
  "progress SVN r4 branch refs/heads/master = :9" +:+ LF.

Definition fs_S4 : FileSystem :=
  <["log-R" := log_line_r3 +:+ log_line_r4]> (<["R/marks-R" := marks_1_to_7]> ∅).

(** A marks file with a duplicate, next to a log with one progress line. *)
Definition fs_duplicate : FileSystem :=
  <["log-R" := log_line_r3]>
    (<["R/marks-R" := ":1 a" +:+ LF +:+ ":1 b" +:+ LF]> ∅).

(** A log that ends before the cutoff, next to the backup a former run
    left behind. *)
Definition fs_stale_backup : FileSystem :=
  <["log-R.old" := "stale"]>
    (<["log-R" := log_line_r3]> (<["R/marks-R" := marks_1_to_7]> ∅)).

(** ** Predicates of the proofs *)

(** Two repositories that differ in the process handle only: the chunks
    written and the two process flags. *)
Definition same_but_process (r r' : Repository) : Prop :=
  name r' = name r ∧ prefix r' = prefix r ∧ branches r' = branches r
  ∧ resetBranches r' = resetBranches r ∧ deletedBranches r' = deletedBranches r
  ∧ commitCount r' = commitCount r
  ∧ outstandingTransactions r' = outstandingTransactions r
  ∧ last_commit_mark r' = last_commit_mark r
  ∧ next_file_mark r' = next_file_mark r
  ∧ incremental r' = incremental r ∧ logged r' = logged r.

(** The two counters of a repository. *)
Definition counters (r : Repository) : Z * Z := (last_commit_mark r, next_file_mark r).

(** The invariant of the mark space along a run. *)
Definition marks_inv (r : Repository) (g : MarkLog) : Prop :=
  last_commit_mark r + 1 ≤ next_file_mark r
  ∧ next_file_mark r ≤ maxMark
  ∧ last_commit_mark r + 1 < maxMark
  ∧ Forall (fun c => c ≤ last_commit_mark r) (commit_marks g)
  ∧ Forall (fun b => next_file_mark r < b) (blob_marks g).

(** [appended rev bs bs']: every record of [bs'] has the history
    (commits and marks) of the record [bs] had under its key, or of a
    value-initialised record, with at most one entry appended, at
    revision [rev] when one is given. *)
Definition appended (rev : option Z) (bs bs' : gmap string Branch) : Prop :=
  ∀ k br', bs' !! k = Some br' →
    ∃ br, (bs !! k = Some br ∨ br = Branch_default)
      ∧ ((commits br' = commits br ∧ marks br' = marks br)
         ∨ ∃ n m, rev = Some n ∧ commits br' = commits br ++ [n]
                  ∧ marks br' = marks br ++ [m]).

(** Commits in ascending order, none after revision [b]. *)
Definition ascending_upto (b : Z) (br : Branch) : Prop :=
  Sorted Z.le (commits br) ∧ Forall (fun c => c ≤ b) (commits br).



(** ** The process cache *)

(** [maxSimultaneousProcesses], line 33. *)
Definition maxSimultaneousProcesses : nat := 100.

Section ProcessCache.
Context {P : Type} `{EqDecision P}.

(** [QLinkedList::removeOne], as [ProcessCache::remove] calls it, lines
    52-59: the first occurrence goes, if there is one.  [P] stands for
    the repository pointers the list holds. *)
Fixpoint removeOne (repo : P) (l : list P) : list P :=
  match l with
  | [] => []
  | x :: l' => if decide (x = repo) then l' else x :: removeOne repo l'
  end.

(** [while (size() >= maxSimultaneousProcesses)
      takeFirst()->closeFastImport();], lines 44-46: the repositories
    closed, oldest first, and the list that stays.  The
    [processCache.remove] inside [closeFastImport] finds its repository
    taken out already. *)
Fixpoint evict (l : list P) : list P * list P :=
  match l with
  | [] => ([], [])
  | x :: l' =>
    if (maxSimultaneousProcesses <=? length l)%nat
    then let '(closed, rest) := evict l' in (x :: closed, rest)
    else ([], l)
  end.

(** [ProcessCache::touch], lines 40-50: the repositories it closes, and
    the cache afterwards. *)
Definition touch (repo : P) (cache : list P) : list P * list P :=
  let '(closed, rest) := evict (removeOne repo cache) in
  (closed, rest ++ [repo]).

End ProcessCache.

(** ** Annotated tags *)

(** Modelled from the spec: the annotated tag record of repository.h,
    with the members [createAnnotatedTag] assigns. *)
Record AnnotatedTag : Type := mkAnnotatedTag {
  supportingRef : string;
  tag_svnprefix : string;
  tag_revnum : Z;
  tag_author : string;
  tag_log : string;
  tag_dt : Z
}.

(** The key of a tag, lines 537-542: the ref without a leading
    [refs/tags/]. *)
Definition tag_name (ref : string) : string :=
  if startsWith ref "refs/tags/" then mid ref 10 else ref.

(** [Repository::createAnnotatedTag], lines 529-561, on the
    [annotatedTags] member; [ref] is [git_ref_name(branch_rule)]. *)
Definition createAnnotatedTag (ref svnprefix : string) (revnum : Z)
    (author : string) (dt : Z) (log : string)
    (annotatedTags : gmap string AnnotatedTag) : gmap string AnnotatedTag :=
  <[tag_name ref := mkAnnotatedTag ref svnprefix revnum author log dt]> annotatedTags.

(** The message of a tag, lines 578-582. *)
Definition tag_message (o : Options) (tagName : string) (tag : AnnotatedTag)
    : string :=
  let message := tag_log tag in
  let message := if ends_with message LF then message else message +:+ LF in
  if add_metadata o
  then message +:+ LF
       +:+ formatMetadataMessage (tag_svnprefix tag) (tag_revnum tag) tagName
  else message.

(** The head of a tag block, lines 585-593. *)
Definition tag_header (o : Options) (tagName : string) (tag : AnnotatedTag)
    : string :=
  let branchRef := supportingRef tag in
  "progress Creating annotated tag " +:+ tagName +:+ " from ref " +:+ branchRef +:+ LF
  +:+ "tag " +:+ tagName +:+ LF
  +:+ "from " +:+ branchRef +:+ LF
  +:+ "tagger " +:+ tag_author tag +:+ " " +:+ number (tag_dt tag) +:+ " +0000" +:+ LF
  +:+ "data " +:+ number (Z.of_nat (String.length (tag_message o tagName tag))) +:+ LF.

(** The body of the loop of [finalizeTags], lines 574-615, for one tag.
    [write(message.c_str())] writes the bytes before the first NUL; the
    side transaction of the metadata note is opened, used and deleted
    (the destructor calls [forgetTransaction]). *)
Definition finalize_tag (o : Options) (tagName : string) (tag : AnnotatedTag)
    (r : Repository) : Res Repository :=
  _ ← Q_ASSERT (startsWith (supportingRef tag) "refs/") "tag.supportingRef.startsWith(refs/)";
  let r := write (tag_header o tagName tag) r in
  let r := write (before_char "000"%char (tag_message o tagName tag)) r in
  let r := write LF r in
  if add_metadata_notes o then
    '(txn, r) ← newTransaction o (supportingRef tag) (tag_svnprefix tag) (tag_revnum tag) r;
    let txn := Transaction_.setAuthor (tag_author tag) txn in
    let txn := Transaction_.setDateTime (tag_dt tag) txn in
    r ← Transaction_.commitNote
          (formatMetadataMessage (tag_svnprefix tag) (tag_revnum tag) tagName)
          true None txn r;
    Ok (forgetTransaction r)
  else Ok r.

Fixpoint finalize_tags_loop (o : Options) (tags : list (string * AnnotatedTag))
    (r : Repository) : Res Repository :=
  match tags with
  | [] => Ok r
  | (tagName, tag) :: rest =>
    r ← finalize_tag o tagName tag r;
    finalize_tags_loop o rest r
  end.

(** [Repository::finalizeTags], lines 563-621.  The tags are visited in
    the map's enumeration order ([QHash] fixes none). *)
Definition finalizeTags (o : Options) (annotatedTags : gmap string AnnotatedTag)
    (r : Repository) : Res Repository :=
  if bool_decide (annotatedTags = ∅) then Ok r
  else
    r ← startFastImport o r;
    finalize_tags_loop o (map_to_list annotatedTags) r.

(** ** Progress lines *)

(** The progress line of a commit or a reset, lines 446-448 and 906-909,
    as the child echoes it into the log: [suffix] is what follows the
    mark (a comment, or nothing). *)
Definition progress_line (revnum : Z) (branch : string) (mark : Z)
    (suffix : string) : string :=
  "progress SVN r" +:+ number revnum +:+ " branch " +:+ branch
  +:+ " = :" +:+ number mark +:+ suffix.

(** The chunk [reloadBranches] writes for a record, lines 302-316: none
    for a record without marks or with a last mark of 0. *)
Definition reload_chunk (kv : string * Branch) : option string :=
  if last_nonzero (marks kv.2)
  then Some ("reset " +:+ kv.1 +:+ LF +:+ "from :" +:+ number (default 0 (last (marks kv.2)))
             +:+ LF +:+ LF +:+ "progress Branch " +:+ kv.1 +:+ " reloaded" +:+ LF)
  else None.

(** The line the child echoes into the log for the progress command of
    a reloaded branch, line 315, and for that of an annotated tag, line
    588. *)
Definition reloaded_line (branch : string) : string :=
  "progress Branch " +:+ branch +:+ " reloaded" +:+ LF.

Definition tag_progress_line (tagName branchRef : string) : string :=
  "progress Creating annotated tag " +:+ tagName +:+ " from ref " +:+ branchRef +:+ LF.

(** The entries the scan of a stretch of the log replays for a branch,
    oldest first. *)
Definition replayed_for (branch : string) (lines : list string) : list (Z * Z) :=
  omap (fun raw =>
          match parse_progress raw with
          | Some (revnum, b, mark) =>
            if String.eqb b branch then Some (revnum, mark) else None
          | None => None
          end) lines.

(** ** Further inputs and predicates *)

(** An annotated tag of revision 10 on its own ref. *)
Definition tag_v1 : AnnotatedTag :=
  mkAnnotatedTag "refs/tags/v1" "/tags/v1" 10 "a <a@x>" ("release" +:+ LF) 3000.

Definition notes_options : Options := mkOptions false true true 10000.

(** What a progress line keeps of a branch record: the revision of its
    creation, the commits and the marks. *)
Definition logged_part (br : Branch) : Z * list Z * list Z :=
  (created br, commits br, marks br).

(** The record the registry holds under a ref, value-initialised when it
    holds none. *)
Definition record (r : Repository) (b : string) : Branch :=
  default Branch_default (branches r !! b).

(** Two repositories with the same commit counter, the same pending
    resets and, under every ref, the same creation revision, commits and
    marks. *)
Definition same_registry (r r' : Repository) : Prop :=
  last_commit_mark r' = last_commit_mark r
  ∧ resetBranches r' = resetBranches r
  ∧ deletedBranches r' = deletedBranches r
  ∧ ∀ k, logged_part <$> branches r' !! k = logged_part <$> branches r !! k.

(** * Proofs *)

(** ** Strings *)

Lemma str_app_assoc (a b c : string) : (a +:+ b) +:+ c = a +:+ b +:+ c.
Proof.
  induction a as [|x a IH]; [reflexivity | exact (f_equal (String x) IH)].
Qed.

Lemma str_app_nil_r (a : string) : a +:+ "" = a.
Proof.
  induction a as [|x a IH]; [reflexivity | exact (f_equal (String x) IH)].
Qed.

(** ** The error monad *)

Lemma bind_Ok {A B} (m : Res A) (f : A → Res B) (b : B) :
  (m ≫= f) = Ok b → ∃ a, m = Ok a ∧ f a = Ok b.
Proof. destruct m as [a|w]; simpl; [eauto | discriminate]. Qed.

Lemma Q_ASSERT_Ok (c : bool) (w : string) (u : unit) : Q_ASSERT c w = Ok u → c = true.
Proof. destruct c; [done | discriminate]. Qed.

(** ** Binary search *)

Section UpperBound.
Variable v : list Z.
Variable q : Z.
Hypothesis v_sorted : Sorted Z.le v.

Lemma sorted_lookup_le (i j : nat) (x y : Z) :
  (i ≤ j)%nat → v !! i = Some x → v !! j = Some y → x ≤ y.
Proof using v_sorted.
  assert (Hs : StronglySorted Z.le v).
  { apply Sorted_StronglySorted; [|done]. intros a b c; lia. }
  clear v_sorted. revert i j. induction Hs as [|a l Hs IH Hall]; intros i j Hij Hi Hj.
  - done.
  - destruct i as [|i], j as [|j]; simpl in *; try lia.
    + simplify_eq. lia.
    + injection Hi as ->. rewrite Forall_forall in Hall. apply Hall.
      eapply list_elem_of_lookup_2; eauto.
    + eapply IH; [|eauto..]. lia.
Qed.

Lemma qUpperBound_loop_spec (fuel b n : nat) :
  (n ≤ fuel)%nat → (b + n ≤ length v)%nat →
  (∀ i x, (i < b)%nat → v !! i = Some x → x ≤ q) →
  (∀ i x, (b + n ≤ i)%nat → v !! i = Some x → q < x) →
  let ub := qUpperBound_loop fuel v q b n in
  (b ≤ ub ≤ b + n)%nat ∧
  (∀ i x, (i < ub)%nat → v !! i = Some x → x ≤ q) ∧
  (∀ i x, (ub ≤ i)%nat → v !! i = Some x → q < x).
Proof using v_sorted.
  revert b n. induction fuel as [|fuel IH]; intros b n Hn Hlen Hlo Hhi;
    cbn [qUpperBound_loop].
  - split; [lia|]. split; [done|]. intros i x ??. apply (Hhi i); [lia | done].
  - destruct n as [|n'].
    + split; [lia|]. split; [done|]. intros i x ??. apply (Hhi i); [lia | done].
    + set (n := S n') in *. assert (Hhalf : (Nat.div2 n < n)%nat).
      { apply Nat.lt_div2. lia. }
      destruct (lookup_lt_is_Some_2 v (b + Nat.div2 n)) as [x Hx]; [lia|].
      cbv zeta. rewrite Hx. clearbody n.
      generalize dependent (Nat.div2 n). intros half Hhalf Hx.
      destruct (Z.ltb_spec q x) as [Hq|Hq].
      * destruct (IH b half) as (Hb & Hl & Hh); [lia | lia | done | |].
        { intros i y Hi Hy. pose proof (sorted_lookup_le _ _ _ _ Hi Hx Hy). lia. }
        split; [lia | done].
      * destruct (IH (b + half + 1)%nat (n - (half + 1))%nat) as (Hb & Hl & Hh);
          [lia | lia | | |].
        { intros i y Hi Hy.
          assert (y ≤ x); [|lia]. eapply (sorted_lookup_le i (b + half)); eauto. lia. }
        { intros i y Hi Hy. apply (Hhi i); [lia | done]. }
        split; [lia | done].
Qed.

Lemma qUpperBound_spec :
  (qUpperBound v q ≤ length v)%nat ∧
  (∀ i x, (i < qUpperBound v q)%nat → v !! i = Some x → x ≤ q) ∧
  (∀ i x, (qUpperBound v q ≤ i)%nat → v !! i = Some x → q < x).
Proof using v_sorted.
  destruct (qUpperBound_loop_spec (length v) 0 (length v)) as (Hb & Hl & Hh);
    [lia | lia | intros; lia | |].
  { intros i x Hi Hx. apply lookup_lt_Some in Hx. lia. }
  split; [|done]. unfold qUpperBound. lia.
Qed.
End UpperBound.

(** ** The branch registry *)

Lemma branches_index_Some (bs : gmap string Branch) (k : string) (br : Branch) :
  bs !! k = Some br → branches_index bs k = (br, bs).
Proof. intros H. unfold branches_index. by rewrite H. Qed.

Lemma branches_index_None (bs : gmap string Branch) (k : string) :
  bs !! k = None → branches_index bs k = (Branch_default, <[k := Branch_default]> bs).
Proof. intros H. unfold branches_index. by rewrite H. Qed.

Lemma last_lookup_pred {A} (l : list A) : last l = l !! pred (length l).
Proof. apply last_lookup. Qed.

(** C1.  [markFrom(sourceRef, atRev)] returns -1 for an unknown or never
    created source and for one without commits; for a created record
    with as many marks as commits and commits in ascending order it
    returns 0 when [atRev] is before the first commit, the mark at the
    greatest index whose commit is at most [atRev] otherwise, and the
    last mark when [atRev] is the last commit. *)
Theorem markFrom_latest_commit (r : Repository) (sourceRef : string) (atRev : Z)
    (desc : string) :
  startsWith sourceRef "refs/" = true →
  ((branches r !! sourceRef = None ∨
    ∃ br, branches r !! sourceRef = Some br ∧ (created br = 0 ∨ commits br = [])) →
   ∃ d r', markFrom sourceRef atRev desc r = Ok (-1, d, r'))
  ∧
  (∀ br, branches r !! sourceRef = Some br → created br ≠ 0 →
     length (commits br) = length (marks br) → Sorted Z.le (commits br) →
     ∀ r1, head (commits br) = Some r1 →
       (atRev < r1 → ∃ d r', markFrom sourceRef atRev desc r = Ok (0, d, r'))
     ∧ (r1 ≤ atRev →
        ∃ k rk mk d r',
          commits br !! k = Some rk ∧ rk ≤ atRev
          ∧ (∀ j rj, commits br !! j = Some rj → rj ≤ atRev → (j ≤ k)%nat)
          ∧ marks br !! k = Some mk
          ∧ markFrom sourceRef atRev desc r = Ok (mk, d, r'))
     ∧ (last (commits br) = Some atRev →
        ∃ m d r', last (marks br) = Some m
          ∧ markFrom sourceRef atRev desc r = Ok (m, d, r'))).
Proof.
  intros Href. unfold markFrom. rewrite Href. cbn [Q_ASSERT mbind Res_bind].
  split.
  - intros [Hnone | (br & Hbr & [Hc | He])].
    + rewrite (branches_index_None _ _ Hnone). simpl. eauto.
    + rewrite (branches_index_Some _ _ _ Hbr), Hc. simpl. eauto.
    + rewrite (branches_index_Some _ _ _ Hbr), He. simpl.
      destruct (created br =? 0); eauto.
  - intros br Hbr Hcr Hlen Hsorted r1 Hhead.
    rewrite (branches_index_Some _ _ _ Hbr).
    rewrite (proj2 (Z.eqb_neq _ _) Hcr).
    destruct (commits br) as [|c0 cs] eqn:Ecs; [done|].
    injection Hhead as ->. cbn [isEmpty]. rewrite <- Ecs in *.
    assert (Hne : (0 < length (commits br))%nat) by (rewrite Ecs; simpl; lia).
    destruct (lookup_lt_is_Some_2 (commits br) (pred (length (commits br))))
      as [lastc Hlastc]; [lia|].
    destruct (lookup_lt_is_Some_2 (marks br) (pred (length (commits br))))
      as [lastm Hlastm]; [lia|].
    assert (H0 : commits br !! 0%nat = Some r1) by (by rewrite Ecs).
    pose proof (sorted_lookup_le _ Hsorted 0 _ _ _ ltac:(lia) H0 Hlastc) as Hr1last.
    destruct (qUpperBound_spec (commits br) atRev Hsorted) as (Hub & Hlo & Hhi).
    unfold vec_last. rewrite !last_lookup_pred, Hlastc.
    cbn [mbind Res_bind]. rewrite <- Hlen, Hlastm.
    split; [|split].
    + intros Hlt. rewrite (proj2 (Z.eqb_neq atRev lastc)); [|lia].
      destruct (qUpperBound (commits br) atRev) as [|it] eqn:Eub; [eauto|].
      pose proof (Hlo 0%nat r1 ltac:(lia) H0). lia.
    + intros Hle. destruct (Z.eqb_spec atRev lastc) as [->|Hneq].
      * exists (pred (length (commits br))), lastc, lastm. do 2 eexists.
        split; [done|]. split; [lia|]. split; [|done].
        intros j rj Hj _. apply lookup_lt_Some in Hj. lia.
      * destruct (qUpperBound (commits br) atRev) as [|it] eqn:Eub.
        { pose proof (Hhi 0%nat r1 ltac:(lia) H0). lia. }
        destruct (lookup_lt_is_Some_2 (commits br) it) as [rk Hrk]; [lia|].
        destruct (lookup_lt_is_Some_2 (marks br) it) as [mk Hmk]; [lia|].
        unfold vec_at. rewrite Hrk, Hmk. cbn [mbind Res_bind].
        exists it, rk, mk. do 2 eexists. split; [done|].
        split; [apply (Hlo it); [lia | done]|]. split; [|done].
        intros j rj Hj Hjle. destruct (decide (j ≤ it)%nat); [done|].
        pose proof (Hhi j rj ltac:(lia) Hj). lia.
    + intros [= ->].
      rewrite Z.eqb_refl. exists lastm. do 2 eexists. done.
Qed.

Lemma markFrom_latest_commit_witness :
  markFrom "refs/heads/unknown" 6 "" demo_registry
    = Ok (-1, "",
          set_branches
            (<["refs/heads/unknown" := Branch_default]> (branches demo_registry))
            demo_registry)
  ∧ ∃ d r', markFrom "refs/heads/master" 6 "" demo_registry = Ok (4, d, r').
Proof.
  split; [reflexivity|].
  destruct (markFrom_latest_commit demo_registry "refs/heads/master" 6 "" eq_refl)
    as [_ H].
  destruct (H (mkBranch 1 [2; 5; 9] [1; 4; 7] "") eq_refl ltac:(done) eq_refl
              ltac:(repeat constructor; lia) 2 eq_refl) as (_ & H2 & _).
  destruct (H2 ltac:(lia)) as (k & rk & mk & d & r' & Hk & Hle & Hmax & Hm & Hres).
  exists d, r'. rewrite Hres. f_equal. f_equal. f_equal.
  assert (k = 1%nat) as ->.
  { pose proof (Hmax 1%nat 5 eq_refl ltac:(lia)).
    destruct k as [|[|[|k]]]; simpl in Hk; try lia; try done.
    injection Hk as <-. lia. }
  simpl in Hm. congruence.
Defined.

(** C10.  A query [markFrom(R, q, desc)] for a ref [R] that is not in the
    registry returns -1 and leaves a value-initialised record for [R]
    behind ([created = 0], no commits, no marks), so that
    [branchExists(R)] holds afterwards; so does [noteCopyFromBranch] on a
    transaction of another branch. *)
Theorem markFrom_registers_unknown_ref (r : Repository) (R : string) (q : Z)
    (desc : string) (t : Transaction) :
  startsWith R "refs/" = true →
  branches r !! R = None →
  branchExists R r = false
  ∧ (∃ r', markFrom R q desc r = Ok (-1, desc, r')
       ∧ branches r' = <[R := Branch_default]> (branches r)
       ∧ branches r' !! R = Some (mkBranch 0 [] [] "")
       ∧ branchExists R r' = true)
  ∧ (branch t ≠ R →
     ∃ r', Transaction_.noteCopyFromBranch R q t r = Ok (t, r')
       ∧ branches r' !! R = Some (mkBranch 0 [] [] "")
       ∧ branchExists R r' = true).
Proof.
  intros Href Hnone.
  assert (Hmf : markFrom R q desc r
                = Ok (-1, desc, set_branches (<[R := Branch_default]> (branches r)) r)).
  { unfold markFrom. rewrite Href. cbn [Q_ASSERT mbind Res_bind].
    by rewrite (branches_index_None _ _ Hnone). }
  assert (Hex : ∀ r', branches r' !! R = Some Branch_default → branchExists R r' = true).
  { intros r' H. unfold branchExists. rewrite H. by apply bool_decide_eq_true. }
  split; [|split].
  - unfold branchExists. rewrite Hnone. apply bool_decide_eq_false. by intros [? ?].
  - eexists. split; [exact Hmf|]. cbn [branches set_branches].
    rewrite lookup_insert_eq. split; [done|]. split; [done|].
    apply Hex. cbn [branches set_branches]. by rewrite lookup_insert_eq.
  - intros Hne. unfold Transaction_.noteCopyFromBranch.
    rewrite Href. cbn [Q_ASSERT mbind Res_bind].
    rewrite (proj2 (String.eqb_neq _ _) Hne).
    assert (Hmf' : markFrom R q "" r
                = Ok (-1, "", set_branches (<[R := Branch_default]> (branches r)) r)).
    { unfold markFrom. rewrite Href. cbn [Q_ASSERT mbind Res_bind].
      by rewrite (branches_index_None _ _ Hnone). }
    rewrite Hmf'. cbn [mbind Res_bind isEmpty_str Q_ASSERT Z.eqb].
    eexists. split; [reflexivity|].
    cbn [branches set_branches log_msg]. rewrite lookup_insert_eq. split; [done|].
    apply Hex. cbn [branches set_branches log_msg]. by rewrite lookup_insert_eq.
Qed.

Lemma markFrom_registers_unknown_ref_witness :
  ∃ r', markFrom "refs/heads/ghost" 3 "" fresh = Ok (-1, "", r')
    ∧ branchExists "refs/heads/ghost" fresh = false
    ∧ branchExists "refs/heads/ghost" r' = true.
Proof.
  destruct (markFrom_registers_unknown_ref fresh
              "refs/heads/ghost" 3 "" (mkTransaction "refs/heads/master" "" 0 0 "" "" [] [] "")
              eq_refl eq_refl) as (Hno & (r' & Hmf & _ & _ & Hyes) & _).
  exists r'. done.
Defined.

(** ** Frame lemmas: what the process handle leaves alone *)

(** Inversion of a successful computation in [Res], one layer at a time. *)
Ltac res_inv :=
  repeat match goal with
  | H : Fatal _ = Ok _ |- _ => discriminate H
  | H : Ok _ = Ok _ |- _ => injection H as H; try subst
  | H : (_ ≫= _) = Ok _ |- _ =>
    let a := fresh "a" in let Ha := fresh "Ha" in
    apply bind_Ok in H as (a & Ha & H)
  | H : Q_ASSERT _ _ = Ok _ |- _ => apply Q_ASSERT_Ok in H
  | H : (if ?c then _ else _) = Ok _ |- _ =>
    let E := fresh "E" in destruct c eqn:E
  | H : (let '(_, _) := ?x in _) = Ok _ |- _ =>
    let E := fresh "E" in destruct x eqn:E
  end.

Lemma same_but_process_refl (r : Repository) : same_but_process r r.
Proof. repeat split. Qed.

Lemma same_but_process_trans (r1 r2 r3 : Repository) :
  same_but_process r1 r2 → same_but_process r2 r3 → same_but_process r1 r3.
Proof.
  unfold same_but_process. intros H1 H2. destruct_and!.
  repeat split; etrans; eauto.
Qed.

Lemma write_same (c : string) (r : Repository) : same_but_process r (write c r).
Proof. repeat split. Qed.

Lemma write_all_app (cs1 cs2 : list string) (r : Repository) :
  write_all (cs1 ++ cs2) r = write_all cs2 (write_all cs1 r).
Proof. unfold write_all. apply foldl_app. Qed.

Lemma write_all_same (cs : list string) (r : Repository) :
  same_but_process r (write_all cs r).
Proof.
  revert r. induction cs as [|c cs IH]; intros r; [apply same_but_process_refl|].
  eapply same_but_process_trans; [apply (write_same c)|apply IH].
Qed.

Lemma written_write_all (cs : list string) (r : Repository) :
  written (write_all cs r) = written r ++ cs.
Proof.
  revert r. induction cs as [|c cs IH]; intros r; simpl.
  - by rewrite app_nil_r.
  - unfold write_all in *. simpl. rewrite IH. simpl. by rewrite <- app_assoc.
Qed.

Lemma process_write_all (cs : list string) (r : Repository) :
  running (write_all cs r) = running r
  ∧ processHasStarted (write_all cs r) = processHasStarted r.
Proof.
  revert r. induction cs as [|c cs IH]; intros r; [done|].
  unfold write_all in *. simpl. by rewrite !(proj1 (IH _)), !(proj2 (IH _)).
Qed.

Lemma reloadBranches_fold_Ok (o : Options) (l : list (string * Branch))
    (r0 r1 : Repository) (b0 b1 : bool) :
  foldl (fun (acc : Res (Repository * bool)) (kv : string * Branch) =>
           '(r, reset_notes) ← acc;
           let '(branch, br) := kv in
           _ ← Q_ASSERT (startsWith branch "refs/") "branch.startsWith(refs/)";
           if negb (last_nonzero (marks br)) then Ok (r, reset_notes)
           else
             m ← vec_last (marks br);
             Ok (write ("reset " +:+ branch +:+ LF +:+ "from :" +:+ number m
                        +:+ LF +:+ LF +:+ "progress Branch " +:+ branch
                        +:+ " reloaded" +:+ LF) r, true))
        (Ok (r0, b0)) l = Ok (r1, b1) →
  ∃ cs, r1 = write_all cs r0.
Proof.
  revert r0 b0. induction l as [|[k br] l IH]; intros r0 b0 H; simpl in H.
  - injection H as -> ->. by exists [].
  - match type of H with foldl _ ?acc _ = _ => destruct acc as [[r2 b2]|w] eqn:E end.
    + apply IH in H as [cs ->]. cbn [mbind Res_bind] in E. res_inv.
      * by exists cs.
      * exists (("reset " +:+ k +:+ LF +:+ "from :" +:+ number a0
                 +:+ LF +:+ LF +:+ "progress Branch " +:+ k
                 +:+ " reloaded" +:+ LF) :: cs). done.
    + exfalso. clear -H. induction l as [|x l IH]; simpl in H; [done|]. by apply IH.
Qed.

Lemma reloadBranches_Ok (o : Options) (r r' : Repository) :
  reloadBranches o r = Ok r' → ∃ cs, r' = write_all cs r.
Proof.
  unfold reloadBranches. intros H. apply bind_Ok in H as ([r1 b1] & Hf & H).
  apply reloadBranches_fold_Ok in Hf as [cs ->]; [|done].
  destruct (b1 && add_metadata_notes o); injection H as <-.
  - exists (cs ++ ["reset refs/notes/commits" +:+ LF +:+ "from :"
                   +:+ number (maxMark + 1) +:+ LF]).
    by rewrite write_all_app.
  - by exists cs.
Qed.

Lemma startFastImport_Ok (o : Options) (r r' : Repository) :
  startFastImport o r = Ok r' →
  same_but_process r r' ∧ running r' = true
  ∧ ∃ cs, written r' = written r ++ cs.
Proof.
  unfold startFastImport. intros H. destruct (running r) eqn:Erun.
  - injection H as <-. split; [apply same_but_process_refl|]. split; [done|].
    exists []. by rewrite app_nil_r.
  - destruct (processHasStarted r); [done|].
    apply reloadBranches_Ok in H as [cs ->]. split; [|split].
    + eapply same_but_process_trans; [|apply write_all_same]. repeat split.
    + by rewrite (proj1 (process_write_all _ _)).
    + exists cs. by rewrite written_write_all.
Qed.

(** ** The mark allocator *)

Lemma same_but_process_counters (r r' : Repository) :
  same_but_process r r' → counters r' = counters r.
Proof. unfold same_but_process, counters. intros H. destruct_and!. congruence. Qed.

Lemma markFrom_counters (b : string) (n : Z) (d : string) (r : Repository) res :
  markFrom b n d r = Ok res → counters res.2 = counters r.
Proof.
  unfold markFrom. intros H. destruct (branches_index (branches r) b) as [br bs].
  res_inv; try done.
  all: repeat match goal with
       | H : match ?x with _ => _ end = Ok _ |- _ => destruct x eqn:?
       end; res_inv; done.
Qed.

Lemma resetBranch_counters (b : string) (n m : Z) (t c : string) (r r' : Repository) :
  resetBranch b n m t c r = Ok r' → counters r' = counters r.
Proof.
  unfold resetBranch. intros H. destruct (branches_index (branches r) b) as [br bs].
  res_inv; done.
Qed.

Lemma createBranch_counters (b : string) (n : Z) (bf : string) (bn : Z)
    (r r' : Repository) :
  createBranch b n bf bn r = Ok r' → counters r' = counters r.
Proof.
  unfold createBranch. intros H.
  apply bind_Ok in H as (? & _ & H). apply bind_Ok in H as (? & _ & H).
  apply bind_Ok in H as ([[mark d] r1] & Hmf & H).
  apply markFrom_counters in Hmf. simpl in Hmf. rewrite <- Hmf.
  destruct (mark =? -1); [done|].
  destruct (mark =? 0);
    match type of H with context [branches_index ?x ?y] =>
      destruct (branches_index x y) end;
    by apply resetBranch_counters in H.
Qed.

Lemma deleteBranch_counters (b : string) (n : Z) (r r' : Repository) :
  deleteBranch b n r = Ok r' → counters r' = counters r.
Proof.
  unfold deleteBranch. intros H. res_inv; [done|]. by apply resetBranch_counters in H.
Qed.

Lemma Repository_commit_counters (o : Options) (r r' : Repository) :
  Repository_commit o r = Ok r' → counters r' = counters r.
Proof.
  unfold Repository_commit. intros H. res_inv; [done|].
  apply startFastImport_Ok in Ha as [Hs _].
  etrans; [|apply (same_but_process_counters _ _ Hs)].
  etrans; [|eapply (same_but_process_counters _ _ (write_all_same _ _))].
  etrans; [|eapply (same_but_process_counters _ _ (write_all_same _ _))].
  reflexivity.
Qed.

Lemma newTransaction_counters (o : Options) (b p : string) (n : Z)
    (r : Repository) res :
  newTransaction o b p n r = Ok res → counters res.2 = counters r.
Proof.
  unfold newTransaction. intros H.
  apply bind_Ok in H as (? & _ & H). apply bind_Ok in H as (r1 & Hr1 & H).
  injection H as <-. cbn [snd]. change (counters r1 = counters r).
  destruct (commit_interval o =? 0); [done|].
  destruct (Z.rem _ _ =? 0).
  - apply bind_Ok in Hr1 as (r2 & Hr2 & Hr1). injection Hr1 as <-.
    apply startFastImport_Ok in Hr2 as [Hs _].
    by apply same_but_process_counters in Hs.
  - by injection Hr1 as <-.
Qed.

Lemma noteCopyFromBranch_counters (b : string) (n : Z) (t : Transaction)
    (r : Repository) res :
  Transaction_.noteCopyFromBranch b n t r = Ok res → counters res.2 = counters r.
Proof.
  unfold Transaction_.noteCopyFromBranch. intros H.
  apply bind_Ok in H as (? & _ & H).
  destruct (String.eqb (branch t) b); [by injection H as <-|].
  apply bind_Ok in H as ([[mark d] r1] & Hmf & H).
  apply markFrom_counters in Hmf. simpl in Hmf. rewrite <- Hmf.
  apply bind_Ok in H as (? & _ & H).
  repeat match type of H with (if ?c then _ else _) = _ => destruct c end;
    by injection H as <-.
Qed.

Lemma commitNote_counters (txt : string) (ap : bool) (c : option string)
    (t : Transaction) (r r' : Repository) :
  Transaction_.commitNote txt ap c t r = Ok r' → counters r' = counters r.
Proof.
  unfold Transaction_.commitNote. intros H. apply bind_Ok in H as (? & _ & H).
  match type of H with (let '(_, _) := ?x in _) = _ => destruct x end.
  injection H as <-.
  destruct (bool_decide (c = None)); [|done].
  unfold setBranchNote. cbn [branches write].
  by destruct (branches r !! branch t).
Qed.

(** What [addFile] does to the counters: the mark handed out is the old
    [next_file_mark], the assertion compares it with the commit counter,
    and the counter is one lower afterwards. *)
Lemma addFile_counters (o : Options) (p : string) (m l : Z) (t : Transaction)
    (r : Repository) (mark : Z) (t' : Transaction) (r' : Repository) :
  Transaction_.addFile o p m l t r = Ok (mark, t', r') →
  mark = next_file_mark r ∧ last_commit_mark r + 1 < mark
  ∧ last_commit_mark r' = last_commit_mark r ∧ next_file_mark r' = mark - 1
  ∧ outstandingTransactions r' = outstandingTransactions r.
Proof.
  unfold Transaction_.addFile. intros H.
  apply bind_Ok in H as (? & Ha & H). apply Q_ASSERT_Ok in Ha.
  apply bind_Ok in H as (? & _ & H). cbn [last_commit_mark set_next_file_mark] in Ha.
  apply Z.ltb_lt in Ha.
  destruct (negb (dry_run o)).
  - apply bind_Ok in H as (r1 & Hr1 & H). injection H as <- <- <-.
    apply startFastImport_Ok in Hr1 as [Hs _].
    pose proof (write_all_same
      ["blob" +:+ LF +:+ "mark :"; number (next_file_mark r); LF +:+ "data ";
       number l; LF] r1) as Hw.
    pose proof (same_but_process_trans _ _ _ Hs Hw) as Hsw.
    unfold same_but_process in Hsw. destruct_and!.
    repeat split; try done; try lia.
    all: etrans; [eassumption|]; reflexivity.
  - injection H as <- <- <-. repeat split; try done; lia.
Qed.

(** The stages of a successful [Transaction::commit]. *)
Lemma commit_Ok (o : Options) (t : Transaction) (r : Repository)
    (t' : Transaction) (r' : Repository) :
  Transaction_.commit o t r = Ok (t', r') →
  ∃ r1 out desc ms warn,
    startFastImport o r = Ok r1
    ∧ last_commit_mark r1 + 1 < next_file_mark r1 - 1
    ∧ startsWith (branch t) "refs/" = true
    ∧ let mark := last_commit_mark r1 + 1 in
      let pr := Transaction_.commit_branch t mark (set_last_commit_mark mark r1) in
      emit_merges (log t) (merges t) pr.1 = Ok (out, desc, ms, warn)
      ∧ t' = Transaction_.set_merges ms t
      ∧ let r2 := write_all out (write (Transaction_.commit_header o t mark) pr.2) in
        let r3 := if warn
                  then log_msg Warn ("too many merge parents in repository " +:+ name r2) r2
                  else r2 in
        let r4 := write_all (Transaction_.commit_files t' mark desc) r3 in
        (if add_metadata_notes o
         then Transaction_.commitNote
                (formatMetadataMessage (svnprefix t') (revnum t') "") false None t' r4
         else Ok r4) = Ok r'.
Proof.
  unfold Transaction_.commit. intros H.
  apply bind_Ok in H as (r1 & Hr1 & H).
  apply bind_Ok in H as (? & Ha & H). apply Q_ASSERT_Ok in Ha.
  cbn [next_file_mark set_last_commit_mark] in Ha. apply Z.ltb_lt in Ha.
  destruct (Transaction_.commit_branch _ _ _) as [pm r2] eqn:Ecb.
  apply bind_Ok in H as (? & Hb & H). apply Q_ASSERT_Ok in Hb.
  apply bind_Ok in H as ([[[out desc] ms] warn] & Hem & H).
  apply bind_Ok in H as (r5 & Hr5 & H). injection H as <- <-.
  exists r1, out, desc, ms, warn. rewrite Ecb. cbn [fst snd]. repeat split; done.
Qed.

Lemma commit_branch_counters (t : Transaction) (mark : Z) (r : Repository) :
  counters (Transaction_.commit_branch t mark r).2 = counters r
  ∧ outstandingTransactions (Transaction_.commit_branch t mark r).2
    = outstandingTransactions r.
Proof.
  unfold Transaction_.commit_branch. destruct (branches_index _ _) as [br bs].
  cbn [snd]. destruct (negb (created br =? 0) && last_nonzero (marks br)); [done|].
  by destruct (incremental r).
Qed.

Lemma commitNote_outstanding (txt : string) (ap : bool) (c : option string)
    (t : Transaction) (r r' : Repository) :
  Transaction_.commitNote txt ap c t r = Ok r' →
  outstandingTransactions r' = outstandingTransactions r.
Proof.
  unfold Transaction_.commitNote. intros H. apply bind_Ok in H as (? & _ & H).
  match type of H with (let '(_, _) := ?x in _) = _ => destruct x end.
  injection H as <-.
  destruct (bool_decide (c = None)); [|done].
  unfold setBranchNote. cbn [branches write].
  by destruct (branches r !! branch t).
Qed.

(** What [Transaction::commit] does to the counters: the mark handed out
    is the new [last_commit_mark], and the assertion compares it with
    the blob counter. *)
Lemma commit_counters (o : Options) (t : Transaction) (r : Repository)
    (t' : Transaction) (r' : Repository) :
  Transaction_.commit o t r = Ok (t', r') →
  last_commit_mark r' = last_commit_mark r + 1
  ∧ next_file_mark r' = next_file_mark r
  ∧ last_commit_mark r' + 1 < next_file_mark r'
  ∧ outstandingTransactions r' = outstandingTransactions r.
Proof.
  intros H. apply commit_Ok in H as (r1 & out & desc & ms & warn & Hr1 & Ha & _ & H).
  cbv zeta in H. destruct H as (_ & _ & H).
  apply startFastImport_Ok in Hr1 as [Hs _].
  set (mark := last_commit_mark r1 + 1) in *.
  set (pr := Transaction_.commit_branch t mark (set_last_commit_mark mark r1)) in *.
  set (r2 := write_all out (write (Transaction_.commit_header o t mark) pr.2)) in *.
  set (r3 := if warn then log_msg Warn _ r2 else r2) in *.
  set (r4 := write_all _ r3) in *.
  assert (Hpr : counters pr.2 = (mark, next_file_mark r1)
                ∧ outstandingTransactions pr.2 = outstandingTransactions r1).
  { destruct (commit_branch_counters t mark (set_last_commit_mark mark r1)). done. }
  assert (H2 : counters r2 = counters pr.2
               ∧ outstandingTransactions r2 = outstandingTransactions pr.2).
  { pose proof (same_but_process_trans _ _ _
                  (write_same (Transaction_.commit_header o t mark) pr.2)
                  (write_all_same out _)) as Hw.
    split; [by apply same_but_process_counters|].
    unfold same_but_process in Hw. by destruct_and!. }
  assert (H3 : counters r3 = counters r2
               ∧ outstandingTransactions r3 = outstandingTransactions r2).
  { subst r3. by destruct warn. }
  assert (H4 : counters r4 = counters r3
               ∧ outstandingTransactions r4 = outstandingTransactions r3).
  { pose proof (write_all_same (Transaction_.commit_files t' mark desc) r3) as Hw.
    split; [by apply same_but_process_counters|].
    unfold same_but_process in Hw. by destruct_and!. }
  assert (H5 : counters r' = counters r4
               ∧ outstandingTransactions r' = outstandingTransactions r4).
  { destruct (add_metadata_notes o).
    - split; [by eapply commitNote_counters | by eapply commitNote_outstanding].
    - by injection H as <-. }
  assert (Hc : counters r' = (mark, next_file_mark r1)).
  { destruct H5 as [-> _], H4 as [-> _], H3 as [-> _], H2 as [-> _]. apply Hpr. }
  assert (Ho : outstandingTransactions r' = outstandingTransactions r1).
  { destruct H5 as [_ ->], H4 as [_ ->], H3 as [_ ->], H2 as [_ ->]. apply Hpr. }
  injection Hc as Hl Hn. unfold same_but_process in Hs. destruct_and!.
  subst mark. repeat split; lia.
Qed.

Lemma maxMark_value : maxMark = 1048574.
Proof. reflexivity. Qed.

Lemma marks_inv_new (n : string) (bs : list string) (incr : bool) :
  marks_inv (Repository_new n bs incr) (mkMarkLog [] []).
Proof.
  unfold marks_inv, Repository_new.
  destruct (branches_index _ _).
  cbn [last_commit_mark next_file_mark]. rewrite maxMark_value.
  split; [lia|]. split; [lia|]. split; [lia|]. split; constructor.
Qed.

Lemma marks_inv_same_counters (r r' : Repository) (g : MarkLog) :
  counters r' = counters r → marks_inv r g → marks_inv r' g.
Proof. unfold counters, marks_inv. intros [= -> ->]. done. Qed.

Lemma step_counters_frame (o : Options) (op : Op) (r r' : Repository) :
  match op with
  | OpAddFile _ _ _ _ | OpCommit _ | OpForgetTransaction | OpReplay _ _ _ => False
  | _ => True
  end →
  step o op r = Ok r' → counters r' = counters r.
Proof.
  destruct op; simpl; intros Hop H; try done.
  - apply bind_Ok in H as (res & H & [= <-]). by eapply newTransaction_counters.
  - apply bind_Ok in H as (res & H & [= <-]). by eapply noteCopyFromBranch_counters.
  - by eapply createBranch_counters.
  - by eapply deleteBranch_counters.
  - by eapply Repository_commit_counters.
  - injection H as <-. unfold closeFastImport. by destruct (running r).
Qed.

Lemma step_marks_inv (o : Options) (op : Op) (r r' : Repository) (g : MarkLog) :
  is_replay op = false → step o op r = Ok r' →
  marks_inv r g → marks_inv r' (note_marks op r r' g).
Proof.
  intros Hop H Hinv.
  destruct op; try discriminate Hop;
    try (eapply marks_inv_same_counters; [|exact Hinv];
         eapply step_counters_frame; [|exact H]; done).
  - (* addFile *)
    simpl in H. apply bind_Ok in H as ([[mark t'] r1] & H & [= <-]).
    apply addFile_counters in H as (-> & Hlt & Hl & Hn & _).
    unfold marks_inv in *. destruct Hinv as (H1 & H2 & H3 & Hc & Hb).
    cbn [note_marks commit_marks blob_marks snd]. rewrite Hl, Hn.
    repeat split; try lia; [done|].
    constructor; [lia|]. eapply Forall_impl; [exact Hb|]. cbn. intros; lia.
  - (* commit *)
    simpl in H. apply bind_Ok in H as ([t' r1] & H & [= <-]).
    apply commit_counters in H as (Hl & Hn & Hlt & _).
    unfold marks_inv in *. destruct Hinv as (H1 & H2 & H3 & Hc & Hb).
    cbn [note_marks commit_marks blob_marks snd]. rewrite Hn in *.
    repeat split; try lia.
    + constructor; [lia|]. eapply Forall_impl; [exact Hc|]. cbn. intros; lia.
    + done.
  - (* forgetTransaction *)
    simpl in H. injection H as <-.
    unfold marks_inv in *. destruct Hinv as (H1 & H2 & H3 & Hc & Hb).
    unfold note_marks, forgetTransaction.
    cbn [outstandingTransactions set_outstandingTransactions].
    destruct (outstandingTransactions r - 1 =? 0) eqn:E.
    + cbn. rewrite E. cbn. repeat split; try lia; [done | constructor].
    + cbn. rewrite E. done.
Qed.

Lemma run_marks_inv (o : Options) (ops : list Op) (r r' : Repository) (g g' : MarkLog) :
  Forall (fun op => is_replay op = false) ops →
  run_marks o ops r g = Ok (r', g') →
  marks_inv r g → marks_inv r' g'.
Proof.
  intros Hops. revert r g. induction Hops as [|op ops Hop Hops IH]; intros r g H Hinv.
  - by injection H as <- <-.
  - simpl in H. apply bind_Ok in H as (r1 & Hstep & H).
    eapply IH; [exact H|]. by eapply step_marks_inv.
Qed.

(** The replay of a progress line raises [last_commit_mark] to the
    replayed mark and leaves [next_file_mark] alone; it checks nothing
    (lines 230-231). *)
Lemma replay_progress_counters (n : Z) (b : string) (m : Z) (r : Repository) :
  counters (replay_progress n b m r) = (Z.max (last_commit_mark r) m, next_file_mark r).
Proof.
  unfold replay_progress, counters.
  destruct (last_commit_mark r <? m) eqn:E;
    destruct (branches_index _ _);
    cbn [last_commit_mark next_file_mark set_branches set_last_commit_mark];
    f_equal; lia.
Qed.

Lemma run_marks_app (o : Options) (ops1 ops2 : list Op) (r r' : Repository)
    (g g' : MarkLog) :
  run_marks o (ops1 ++ ops2) r g = Ok (r', g') →
  ∃ r1 g1, run_marks o ops1 r g = Ok (r1, g1) ∧ run_marks o ops2 r1 g1 = Ok (r', g').
Proof.
  revert r g. induction ops1 as [|op ops1 IH]; intros r g H; simpl in *; [eauto|].
  apply bind_Ok in H as (r0 & Hstep & H). rewrite Hstep. cbn [mbind Res_bind].
  by apply IH.
Qed.

(** The replay before any blob mark is handed out, of marks a commit can
    have handed out: the invariant survives. *)
Lemma replay_ops_marks_inv (o : Options) (ps : list (Z * string * Z))
    (r r' : Repository) (g g' : MarkLog) :
  Forall (fun p => p.2 + 1 < maxMark) ps →
  run_marks o (replay_ops ps) r g = Ok (r', g') →
  marks_inv r g → next_file_mark r = maxMark →
  marks_inv r' g' ∧ next_file_mark r' = maxMark.
Proof.
  intros Hps. revert r g. induction Hps as [|p ps Hp _ IH]; intros r g H Hinv Hn.
  - by injection H as <- <-.
  - cbn [replay_ops fmap list_fmap run_marks step mbind Res_bind note_marks] in H.
    pose proof (replay_progress_counters p.1.1 p.1.2 p.2 r) as Hc.
    unfold counters in Hc. injection Hc as Hl Hf.
    eapply IH; [exact H| |congruence].
    unfold marks_inv in *. destruct Hinv as (H1 & H2 & H3 & Hcm & Hbm).
    rewrite Hl, Hf. repeat split; try lia; [|done].
    eapply Forall_impl; [exact Hcm|]. cbn. intros; lia.
Qed.

(** C2 (amended).  Along every run of a fresh repository that first
    replays progress lines with marks below [maxMark - 1] (the marks a
    commit can have handed out) and then applies live operations, the
    two counters satisfy [last_commit_mark + 1 <= next_file_mark <=
    maxMark]; every commit mark handed out so far is below every blob
    mark handed out since the blob counter was last reset, by two at
    least; a commit that does not abort hands out [last_commit_mark + 1]
    and leaves [last_commit_mark + 1 < next_file_mark]; an [addFile]
    that does not abort hands out the old [next_file_mark], which it
    checked to be above [last_commit_mark + 1], and leaves the counter
    one below it; a [forgetTransaction] that brings the count of
    outstanding transactions to zero resets [next_file_mark] to
    [maxMark] = 2^20 - 2; and the replay of a progress line checks
    nothing: it raises [last_commit_mark] to the replayed mark whatever
    [next_file_mark] is, which is why the replayed marks are bounded
    above. *)
Theorem mark_space_separation (o : Options) (rule_name : string)
    (rule_branches : list string) (incr : bool) (ps : list (Z * string * Z))
    (ops : list Op) (r : Repository) (g : MarkLog) :
  Forall (fun p => p.2 + 1 < maxMark) ps →
  Forall (fun op => is_replay op = false) ops →
  run_marks o (replay_ops ps ++ ops) (Repository_new rule_name rule_branches incr)
    (mkMarkLog [] [])
    = Ok (r, g) →
  (last_commit_mark r + 1 ≤ next_file_mark r ∧ next_file_mark r ≤ maxMark)
  ∧ (∀ c b, c ∈ commit_marks g → b ∈ blob_marks g → c + 1 < b)
  ∧ (∀ t t' r', Transaction_.commit o t r = Ok (t', r') →
       last_commit_mark r' = last_commit_mark r + 1
       ∧ next_file_mark r' = next_file_mark r
       ∧ last_commit_mark r' + 1 < next_file_mark r')
  ∧ (∀ p m l t mark t' r', Transaction_.addFile o p m l t r = Ok (mark, t', r') →
       mark = next_file_mark r ∧ last_commit_mark r + 1 < mark
       ∧ last_commit_mark r' = last_commit_mark r
       ∧ next_file_mark r' = mark - 1
       ∧ last_commit_mark r' + 1 ≤ next_file_mark r')
  ∧ (outstandingTransactions (forgetTransaction r) = 0 →
       next_file_mark (forgetTransaction r) = maxMark
       ∧ maxMark = 2 ^ 20 - 2
       ∧ last_commit_mark (forgetTransaction r) + 1 < next_file_mark (forgetTransaction r))
  ∧ (∀ n b m,
       last_commit_mark (replay_progress n b m r) = Z.max (last_commit_mark r) m
       ∧ next_file_mark (replay_progress n b m r) = next_file_mark r
       ∧ (last_commit_mark (replay_progress n b m r) + 1
            ≤ next_file_mark (replay_progress n b m r)
          ↔ m + 1 ≤ next_file_mark r)).
Proof.
  intros Hps Hops Hrun.
  apply run_marks_app in Hrun as (r0 & g0 & Hreplay & Hrun).
  assert (Hnew : next_file_mark (Repository_new rule_name rule_branches incr) = maxMark).
  { unfold Repository_new. by destruct (branches_index _ _). }
  destruct (replay_ops_marks_inv _ _ _ _ _ _ Hps Hreplay (marks_inv_new _ _ _) Hnew)
    as [Hinv0 _].
  pose proof (run_marks_inv _ _ _ _ _ _ Hops Hrun Hinv0) as (H1 & H2 & H3 & Hc & Hb).
  split; [done|]. split; [|split; [|split; [|split]]].
  - intros c b Hin Hib. rewrite Forall_forall in Hc, Hb.
    specialize (Hc c Hin). specialize (Hb b Hib). cbn in *. lia.
  - intros t t' r' H. apply commit_counters in H. by destruct_and!.
  - intros p m l t mark t' r' H. apply addFile_counters in H.
    destruct H as (-> & ? & ? & ? & _). repeat split; try done; lia.
  - unfold forgetTransaction.
    cbn [outstandingTransactions set_outstandingTransactions].
    destruct (outstandingTransactions r - 1 =? 0) eqn:E.
    + intros _. cbn. done.
    + cbn. intros E'. rewrite E' in E. done.
  - intros n b m. pose proof (replay_progress_counters n b m r) as Hcnt.
    unfold counters in Hcnt. injection Hcnt as -> ->.
    split; [done|]. split; [done|]. lia.
Qed.

Lemma mark_space_separation_witness :
  ∃ r g,
    run_marks demo_options
      (replay_ops [(1, "refs/heads/vendor", 1)] ++ copy_and_commit_run) fresh
      (mkMarkLog [] []) = Ok (r, g)
    ∧ last_commit_mark r + 1 ≤ next_file_mark r ∧ next_file_mark r ≤ maxMark.
Proof.
  destruct (run_marks demo_options
              (replay_ops [(1, "refs/heads/vendor", 1)] ++ copy_and_commit_run) fresh
              (mkMarkLog [] []))
    as [[r g]|w] eqn:E; [|vm_compute in E; discriminate E].
  exists r, g. split; [done|].
  apply (mark_space_separation demo_options "R" [] false
           [(1, "refs/heads/vendor", 1)] copy_and_commit_run r g);
    [repeat constructor | repeat constructor | exact E].
Defined.

(** In a dry run [addFile] touches the two counters only. *)
Lemma run_addFile_replicate (o : Options) (t : Transaction) (p : string) (m l : Z)
    (n : nat) (r : Repository) :
  dry_run o = true →
  isEmpty_str (prefix r +:+ p) = false →
  last_commit_mark r + 1 + Z.of_nat n ≤ next_file_mark r →
  ∃ r', run o (replicate n (OpAddFile t p m l)) r = Ok r'
    ∧ last_commit_mark r' = last_commit_mark r
    ∧ next_file_mark r' = next_file_mark r - Z.of_nat n.
Proof.
  intros Hdry. revert r. induction n as [|n IH]; intros r Hp Hn.
  - exists r. repeat split; simpl; lia.
  - cbn [replicate run step Transaction_.addFile].
    unfold Transaction_.addFile.
    cbn [last_commit_mark set_next_file_mark prefix].
    rewrite (proj2 (Z.ltb_lt _ _)) by lia. rewrite Hp, Hdry.
    cbn [negb Q_ASSERT mbind Res_bind snd].
    destruct (IH (set_next_file_mark (next_file_mark r - 1) r)) as (r' & Hrun & Hl & Hf).
    + exact Hp.
    + cbn [last_commit_mark next_file_mark set_next_file_mark]. lia.
    + exists r'. split; [exact Hrun|].
      cbn [last_commit_mark next_file_mark set_next_file_mark] in Hl, Hf. lia.
Qed.

(** Counterexample to C2 as stated (the strict inequality at every
    state): [addFile] compares the mark it hands out, not the counter it
    leaves behind, with [last_commit_mark + 1].  The
    last of 1048573 [addFile] calls on a fresh repository passes the
    assertion and leaves [next_file_mark = last_commit_mark + 1]. *)
Lemma addFile_meets_commit_counter :
  ∃ r, run dry_options
         (replicate (Z.to_nat 1048573) (OpAddFile txn_master_r1 "README" 420 5))
         fresh = Ok r
    ∧ last_commit_mark r = 0 ∧ next_file_mark r = 1
    ∧ ¬ (last_commit_mark r + 1 < next_file_mark r).
Proof.
  destruct (run_addFile_replicate dry_options txn_master_r1 "README" 420 5
              (Z.to_nat 1048573) fresh) as (r & Hrun & Hl & Hf).
  - reflexivity.
  - reflexivity.
  - rewrite Z2Nat.id by lia. change (0 + 1 + 1048573 ≤ 1048574). lia.
  - exists r. split; [exact Hrun|].
    rewrite Z2Nat.id in Hf by lia.
    change (last_commit_mark fresh) with 0 in Hl.
    change (next_file_mark fresh) with 1048574 in Hf. lia.
Qed.

(** ** Histories of branch records *)

Lemma appended_refl (rev : option Z) (bs : gmap string Branch) : appended rev bs bs.
Proof. intros k br H. exists br. auto. Qed.

Lemma appended_None_l (rev : option Z) (bs1 bs2 bs3 : gmap string Branch) :
  appended None bs1 bs2 → appended rev bs2 bs3 → appended rev bs1 bs3.
Proof.
  intros H12 H23 k br3 H3. destruct (H23 k br3 H3) as (br2 & [H2 | ->] & Hh).
  - destruct (H12 k br2 H2) as (br1 & H1 & [[Hc Hm] | (n & m & ? & _)]); [|done].
    exists br1. split; [done|]. rewrite <- Hc, <- Hm. done.
  - exists Branch_default. auto.
Qed.

Lemma appended_None_r (rev : option Z) (bs1 bs2 bs3 : gmap string Branch) :
  appended rev bs1 bs2 → appended None bs2 bs3 → appended rev bs1 bs3.
Proof.
  intros H12 H23 k br3 H3.
  destruct (H23 k br3 H3) as (br2 & [H2 | ->] & [[Hc Hm] | (n & m & ? & _)]); try done.
  - destruct (H12 k br2 H2) as (br1 & H1 & Hh). exists br1. split; [done|].
    rewrite Hc, Hm. done.
  - exists Branch_default. auto.
Qed.

Lemma appended_weaken (rev : option Z) (bs bs' : gmap string Branch) :
  appended None bs bs' → appended rev bs bs'.
Proof. intros H. eapply appended_None_l; [exact H | apply appended_refl]. Qed.

Lemma appended_eq (rev : option Z) (bs bs' : gmap string Branch) :
  bs' = bs → appended rev bs bs'.
Proof. intros ->. apply appended_refl. Qed.

(** [branches[key]] followed by an update of [created] or [note]. *)
Lemma appended_index_same (bs : gmap string Branch) (k : string) (c : Z) (nt : string) :
  let '(br, bs') := branches_index bs k in
  appended None bs (<[k := mkBranch c (commits br) (marks br) nt]> bs').
Proof.
  unfold branches_index. destruct (bs !! k) as [br|] eqn:E.
  - intros k' br' H. destruct (decide (k = k')) as [<-|Hne].
    + rewrite lookup_insert_eq in H. injection H as <-. exists br. auto.
    + rewrite lookup_insert_ne in H by done. exists br'. auto.
  - intros k' br' H. destruct (decide (k = k')) as [<-|Hne].
    + rewrite lookup_insert_eq in H. injection H as <-. exists Branch_default. auto.
    + rewrite !lookup_insert_ne in H by done. exists br'. auto.
Qed.

(** [branches[key]] followed by an append to the record. *)
Lemma appended_index_append (bs : gmap string Branch) (k : string) (c n m : Z)
    (nt : string) :
  let '(br, bs') := branches_index bs k in
  appended (Some n) bs
    (<[k := mkBranch c (commits br ++ [n]) (marks br ++ [m]) nt]> bs').
Proof.
  unfold branches_index. destruct (bs !! k) as [br|] eqn:E.
  - intros k' br' H. destruct (decide (k = k')) as [<-|Hne].
    + rewrite lookup_insert_eq in H. injection H as <-. exists br.
      split; [auto|]. right. by exists n, m.
    + rewrite lookup_insert_ne in H by done. exists br'. auto.
  - intros k' br' H. destruct (decide (k = k')) as [<-|Hne].
    + rewrite lookup_insert_eq in H. injection H as <-. exists Branch_default.
      split; [auto|]. right. by exists n, m.
    + rewrite !lookup_insert_ne in H by done. exists br'. auto.
Qed.

Lemma same_but_process_branches (r r' : Repository) :
  same_but_process r r' → branches r' = branches r.
Proof. unfold same_but_process. intros H. by destruct_and!. Qed.

Lemma markFrom_history (b : string) (n : Z) (d : string) (r : Repository) res :
  markFrom b n d r = Ok res → appended None (branches r) (branches res.2).
Proof.
  unfold markFrom. intros H. apply bind_Ok in H as (? & _ & H).
  assert (Hidx : appended None (branches r) (branches_index (branches r) b).2).
  { unfold branches_index. destruct (branches r !! b) eqn:E; [apply appended_refl|].
    intros k' br' Hk. cbn [snd] in Hk. destruct (decide (b = k')) as [<-|Hne].
    - rewrite lookup_insert_eq in Hk. injection Hk as <-. exists Branch_default. auto.
    - rewrite lookup_insert_ne in Hk by done. exists br'. auto. }
  destruct (branches_index (branches r) b) as [br bs]. cbn [snd] in Hidx.
  assert (Hr : ∀ (m : Z) (d' : string),
            appended None (branches r) (branches (m, d', set_branches bs r).2)).
  { intros. exact Hidx. }
  repeat match type of H with
         | (if ?c then _ else _) = _ => destruct c
         | (_ ≫= _) = Ok _ => apply bind_Ok in H as (? & _ & H)
         | match ?x with _ => _ end = _ => destruct x
         end; injection H as <-; apply Hr.
Qed.

Lemma resetBranch_history (b : string) (n m : Z) (t c : string) (r r' : Repository) :
  resetBranch b n m t c r = Ok r' → appended (Some n) (branches r) (branches r').
Proof.
  unfold resetBranch. intros H. apply bind_Ok in H as (? & _ & H).
  pose proof (appended_index_append (branches r) b n n m) as Hidx.
  destruct (branches_index (branches r) b) as [br bs].
  specialize (Hidx (note br)).
  repeat match type of H with
         | (if ?c then _ else _) = _ => destruct c
         end; injection H as <-; exact Hidx.
Qed.

Lemma createBranch_history (b : string) (n : Z) (bf : string) (bn : Z)
    (r r' : Repository) :
  createBranch b n bf bn r = Ok r' → appended (Some n) (branches r) (branches r').
Proof.
  unfold createBranch. intros H.
  apply bind_Ok in H as (? & _ & H). apply bind_Ok in H as (? & _ & H).
  apply bind_Ok in H as ([[mark d] r1] & Hmf & H).
  apply markFrom_history in Hmf. cbn [snd] in Hmf.
  destruct (mark =? -1); [done|].
  eapply appended_None_l; [exact Hmf|].
  assert (Hgen : ∀ r2 ref dsc nt,
            branches r2 = branches r1 →
            (let '(br, bs) := branches_index (branches r2) b in
             resetBranch b n mark ref dsc
               (set_branches (<[b := mkBranch (created br) (commits br) (marks br) nt]> bs) r2))
            = Ok r' →
            appended (Some n) (branches r1) (branches r')).
  { intros r2 ref dsc nt Heq Hrb.
    pose proof (appended_index_same (branches r2) b) as Hidx.
    destruct (branches_index (branches r2) b) as [br bs].
    specialize (Hidx (created br) nt). rewrite Heq in Hidx.
    eapply appended_None_l; [exact Hidx|].
    by apply resetBranch_history in Hrb. }
  destruct (mark =? 0); eapply Hgen; [| exact H | | exact H]; done.
Qed.

Lemma deleteBranch_history (b : string) (n : Z) (r r' : Repository) :
  deleteBranch b n r = Ok r' → appended (Some n) (branches r) (branches r').
Proof.
  unfold deleteBranch. intros H. apply bind_Ok in H as (? & _ & H).
  destruct (String.eqb b "refs/heads/master").
  - injection H as <-. apply appended_refl.
  - by apply resetBranch_history in H.
Qed.

Lemma setBranchNote_history (b nt : string) (r : Repository) :
  appended None (branches r) (branches (setBranchNote b nt r)).
Proof.
  unfold setBranchNote. destruct (branches r !! b) as [br|] eqn:E; [|apply appended_refl].
  cbn [branches set_branches]. intros k br' H.
  destruct (decide (b = k)) as [<-|Hne].
  - rewrite lookup_insert_eq in H. injection H as <-. exists br. auto.
  - rewrite lookup_insert_ne in H by done. exists br'. auto.
Qed.

Lemma commitNote_history (txt : string) (ap : bool) (c : option string)
    (t : Transaction) (r r' : Repository) :
  Transaction_.commitNote txt ap c t r = Ok r' →
  appended None (branches r) (branches r').
Proof.
  unfold Transaction_.commitNote. intros H. apply bind_Ok in H as (? & _ & H).
  match type of H with (let '(_, _) := ?x in _) = _ => destruct x as [text msg] end.
  injection H as <-. destruct (bool_decide (c = None)); [|apply appended_refl].
  match goal with |- appended _ _ (branches (setBranchNote ?b ?n (write ?s r))) =>
    apply (setBranchNote_history b n (write s r)) end.
Qed.

Lemma commit_branch_history (t : Transaction) (mark : Z) (r : Repository) :
  appended (Some (revnum t)) (branches r)
    (branches (Transaction_.commit_branch t mark r).2).
Proof.
  unfold Transaction_.commit_branch.
  pose proof (appended_index_append (branches r) (branch t)) as Hidx.
  destruct (branches_index (branches r) (branch t)) as [br bs]. cbn [snd].
  apply Hidx.
Qed.

Lemma commit_history (o : Options) (t : Transaction) (r : Repository)
    (t' : Transaction) (r' : Repository) :
  Transaction_.commit o t r = Ok (t', r') →
  appended (Some (revnum t)) (branches r) (branches r').
Proof.
  intros H. apply commit_Ok in H as (r1 & out & desc & ms & warn & Hr1 & _ & _ & H).
  cbv zeta in H. destruct H as (_ & _ & H).
  apply startFastImport_Ok in Hr1 as [Hs _].
  apply same_but_process_branches in Hs. rewrite <- Hs.
  set (mark := last_commit_mark r1 + 1) in *.
  pose proof (commit_branch_history t mark (set_last_commit_mark mark r1)) as Hcb.
  cbn [branches set_last_commit_mark] in Hcb.
  set (pr := Transaction_.commit_branch t mark (set_last_commit_mark mark r1)) in *.
  set (r2 := write_all out (write (Transaction_.commit_header o t mark) pr.2)) in *.
  set (r3 := if warn then log_msg Warn _ r2 else r2) in *.
  set (r4 := write_all _ r3) in *.
  assert (H4 : branches r4 = branches pr.2).
  { subst r4. rewrite (same_but_process_branches _ _ (write_all_same _ _)).
    transitivity (branches r2); [subst r3; by destruct warn|].
    subst r2. rewrite (same_but_process_branches _ _ (write_all_same _ _)). done. }
  rewrite <- H4 in Hcb. eapply appended_None_r; [exact Hcb|].
  destruct (add_metadata_notes o).
  - by eapply commitNote_history.
  - injection H as <-. apply appended_refl.
Qed.

Lemma replay_progress_history (n : Z) (b : string) (m : Z) (r : Repository) :
  appended (Some n) (branches r) (branches (replay_progress n b m r)).
Proof.
  unfold replay_progress.
  set (r1 := if last_commit_mark r <? m then _ else r).
  assert (Hb : branches r1 = branches r) by (subst r1; by destruct (_ <? _)).
  rewrite <- Hb.
  pose proof (appended_index_append (branches r1) b) as Hidx.
  destruct (branches_index (branches r1) b) as [br bs]. apply Hidx.
Qed.

(** Every operation appends at most one entry to a branch record, at
    the revision it carries. *)
Lemma step_history (o : Options) (op : Op) (r r' : Repository) :
  step o op r = Ok r' → appended (op_revnum op) (branches r) (branches r').
Proof.
  destruct op; cbn [step op_revnum]; intros H.
  - apply bind_Ok in H as ([t r1] & H & [= <-]). apply appended_eq.
    unfold newTransaction in H. apply bind_Ok in H as (? & _ & H).
    apply bind_Ok in H as (r2 & Hr2 & [= _ <-]). cbn [snd branches set_outstandingTransactions].
    destruct (commit_interval o =? 0); [done|]. destruct (Z.rem _ _ =? 0).
    + apply bind_Ok in Hr2 as (r3 & Hr3 & [= <-]).
      apply startFastImport_Ok in Hr3 as [Hs _].
      by apply same_but_process_branches in Hs.
    + by injection Hr2 as <-.
  - apply bind_Ok in H as ([t' r1] & H & [= <-]).
    unfold Transaction_.noteCopyFromBranch in H. apply bind_Ok in H as (? & _ & H).
    destruct (String.eqb _ _); [injection H as _ <-; apply appended_refl|].
    apply bind_Ok in H as ([[mark d] r2] & Hmf & H).
    apply markFrom_history in Hmf. cbn [snd] in *.
    apply bind_Ok in H as (? & _ & H).
    repeat match type of H with (if ?c then _ else _) = _ => destruct c end;
      injection H as _ <-; exact Hmf.
  - apply bind_Ok in H as ([[mark t'] r1] & H & [= <-]). apply appended_eq.
    unfold Transaction_.addFile in H.
    apply bind_Ok in H as (? & _ & H). apply bind_Ok in H as (? & _ & H).
    destruct (negb (dry_run o)).
    + apply bind_Ok in H as (r2 & Hr2 & [= _ _ <-]). cbn [snd].
      cbn [branches write].
      apply startFastImport_Ok in Hr2 as [Hs _].
      by apply same_but_process_branches in Hs.
    + by injection H as _ _ <-.
  - apply bind_Ok in H as ([t' r1] & H & [= <-]). by eapply commit_history.
  - injection H as <-. apply appended_eq. unfold forgetTransaction.
    by destruct (_ =? 0).
  - by eapply createBranch_history.
  - by eapply deleteBranch_history.
  - apply appended_eq. unfold Repository_commit in H.
    destruct (_ && _); [by injection H as <-|].
    apply bind_Ok in H as (r1 & Hr1 & [= <-]).
    cbn [branches set_resetBranches set_deletedBranches].
    rewrite !(same_but_process_branches _ _ (write_all_same _ _)).
    apply startFastImport_Ok in Hr1 as [Hs _].
    by apply same_but_process_branches in Hs.
  - injection H as <-. apply appended_eq. unfold closeFastImport.
    by destruct (running r).
  - injection H as <-. apply replay_progress_history.
Qed.

(** ** The registry invariant *)

Lemma Sorted_le_snoc (l : list Z) (n : Z) :
  Sorted Z.le l → Forall (fun c => c ≤ n) l → Sorted Z.le (l ++ [n]).
Proof.
  induction 1 as [|a l Hs IH Hd]; intros Hall; simpl.
  - repeat constructor.
  - apply Forall_cons in Hall as [Ha Hall]. constructor; [by apply IH|].
    destruct l as [|b l]; simpl; constructor; [done|]. by inversion Hd.
Qed.

Lemma appended_lengths (rev : option Z) (bs bs' : gmap string Branch) :
  appended rev bs bs' →
  (∀ k br, bs !! k = Some br → length (commits br) = length (marks br)) →
  ∀ k br, bs' !! k = Some br → length (commits br) = length (marks br).
Proof.
  intros Happ Hbs k br' Hk.
  destruct (Happ k br' Hk) as (br & Hbr & Hh).
  assert (Hlen : length (commits br) = length (marks br)).
  { destruct Hbr as [Hbr | ->]; [by eapply Hbs | done]. }
  destruct Hh as [[-> ->] | (n & m & _ & -> & ->)]; [done|].
  rewrite !length_app. simpl. lia.
Qed.

Lemma appended_ascending (rev : option Z) (b : Z) (bs bs' : gmap string Branch) :
  appended rev bs bs' →
  (∀ n, rev = Some n → b ≤ n) →
  (∀ k br, bs !! k = Some br → ascending_upto b br) →
  ∀ k br, bs' !! k = Some br → ascending_upto (default b rev) br.
Proof.
  intros Happ Hrev Hbs k br' Hk.
  destruct (Happ k br' Hk) as (br & Hbr & Hh).
  assert (Hasc : ascending_upto b br).
  { destruct Hbr as [Hbr | ->]; [by eapply Hbs|]. split; constructor. }
  destruct Hasc as [Hs Hall]. unfold ascending_upto.
  assert (Hb : b ≤ default b rev).
  { destruct rev as [n|]; simpl; [by apply Hrev | lia]. }
  destruct Hh as [[-> _] | (n & m & -> & -> & _)].
  - split; [done|]. eapply Forall_impl; [exact Hall|]. cbn. intros; lia.
  - simpl in *. split.
    + apply Sorted_le_snoc; [done|]. eapply Forall_impl; [exact Hall|]. cbn. intros; lia.
    + apply Forall_app. split; [|by repeat constructor].
      eapply Forall_impl; [exact Hall|]. cbn. intros; lia.
Qed.

Lemma run_lengths (o : Options) (ops : list Op) (r r' : Repository) :
  run o ops r = Ok r' →
  (∀ k br, branches r !! k = Some br → length (commits br) = length (marks br)) →
  ∀ k br, branches r' !! k = Some br → length (commits br) = length (marks br).
Proof.
  revert r. induction ops as [|op ops IH]; intros r H Hr; simpl in H.
  - by injection H as <-.
  - apply bind_Ok in H as (r1 & Hstep & H). eapply IH; [exact H|].
    eapply appended_lengths; [by eapply step_history | exact Hr].
Qed.

Lemma run_ascending (o : Options) (ops : list Op) (b : Z) (r r' : Repository) :
  run o ops r = Ok r' →
  Sorted Z.le (b :: omap op_revnum ops) →
  (∀ k br, branches r !! k = Some br → ascending_upto b br) →
  ∀ k br, branches r' !! k = Some br → Sorted Z.le (commits br).
Proof.
  revert b r. induction ops as [|op ops IH]; intros b r H Hs Hr; simpl in H.
  - injection H as <-. intros k br Hk. by destruct (Hr k br Hk).
  - apply bind_Ok in H as (r1 & Hstep & H).
    apply step_history in Hstep. simpl in Hs.
    destruct (op_revnum op) as [n|] eqn:En.
    + simpl in Hs. inversion Hs as [|? ? Hs' Hd]; subst. inversion Hd; subst.
      eapply (IH n); [exact H | exact Hs' |].
      apply (appended_ascending (Some n) b _ _ Hstep); [|done]. by intros ? [= <-].
    + simpl in Hs. eapply (IH b); [exact H | exact Hs |].
      apply (appended_ascending None b _ _ Hstep); done.
Qed.

(** The replay of [setupIncremental] is a run of [OpReplay] steps as far
    as the registry goes: the warnings it logs in between do not touch
    the branch records. *)
Lemma setupIncremental_loop_lengths (lines : list string) (pos : nat)
    (cutoff M last : Z) (r : Repository) :
  (∀ k br, branches r !! k = Some br → length (commits br) = length (marks br)) →
  ∀ k br, branches (setupIncremental_loop lines pos cutoff M last r).2 !! k = Some br →
    length (commits br) = length (marks br).
Proof.
  revert pos last r. induction lines as [|raw rest IH]; intros pos last r Hr; [done|].
  cbn [setupIncremental_loop].
  destruct (parse_progress raw) as [[[rev b] mark]|]; [|by apply IH].
  destruct (cutoff <=? rev); [done|].
  destruct (M <? mark); [by destruct (rev <? last)|].
  apply IH.
  eapply appended_lengths; [apply replay_progress_history|].
  by destruct (rev <? last).
Qed.

Lemma setupIncremental_lengths (cutoff : Z) (fs : FileSystem) (r : Repository)
    (rv c' : Z) (fs' : FileSystem) (r' : Repository) :
  setupIncremental cutoff fs r = Ok (rv, c', fs', r') →
  (∀ k br, branches r !! k = Some br → length (commits br) = length (marks br)) →
  ∀ k br, branches r' !! k = Some br → length (commits br) = length (marks br).
Proof.
  unfold setupIncremental. intros H Hr.
  destruct (fs !! logFileName (name r)); [|by injection H as <- <- <- <-].
  apply bind_Ok in H as ([M msgs] & _ & H).
  set (r0 := foldl _ r msgs) in *.
  assert (H0 : branches r0 = branches r).
  { subst r0. clear. revert r. induction msgs as [|m msgs IH]; intros r; [done|].
    simpl. by rewrite IH. }
  pose proof (setupIncremental_loop_lengths (readLines s) 0 cutoff M 0 r0) as Hl.
  rewrite H0 in Hl. specialize (Hl Hr).
  destruct (setupIncremental_loop _ _ _ _ _ _) as [[last|pos c] r1];
    injection H as <- <- <- <-; exact Hl.
Qed.

Lemma Repository_new_history (n : string) (bs : list string) (incr : bool) :
  appended None ∅ (branches (Repository_new n bs incr)).
Proof.
  unfold Repository_new.
  set (f := fun (bs : gmap string Branch) (b : string) =>
              let '(br, bs0) := branches_index bs b in
              <[b := mkBranch 0 (commits br) (marks br) (note br)]> bs0).
  assert (Hf : ∀ l m, appended None ∅ m → appended None ∅ (foldl f m l)).
  { induction l as [|b l IH]; intros m Hm; [done|]. simpl. apply IH.
    eapply appended_None_l; [exact Hm|]. unfold f.
    pose proof (appended_index_same m b) as Hidx.
    destruct (branches_index m b) as [br bs0]. apply Hidx. }
  specialize (Hf bs ∅ (appended_refl _ _)).
  pose proof (appended_index_same (foldl f ∅ bs) "refs/heads/master") as Hidx.
  destruct (branches_index (foldl f ∅ bs) "refs/heads/master") as [m declared].
  cbn [branches]. eapply appended_None_l; [exact Hf|]. apply Hidx.
Qed.

Lemma Repository_new_empty (n : string) (bs : list string) (incr : bool)
    (k : string) (br : Branch) :
  branches (Repository_new n bs incr) !! k = Some br →
  commits br = [] ∧ marks br = [].
Proof.
  intros H. destruct (Repository_new_history n bs incr k br H)
    as (br0 & [Hbr | ->] & [[-> ->] | (? & ? & ? & _)]); done.
Qed.

(** C3 (amended).  After any sequence of operations on a fresh
    repository every branch record has as many marks as commits; and
    when the operations come in ascending order of revision, the commits
    of every record are in ascending order, not strictly: operations of
    one revision append the same revision more than once. *)
Theorem branch_records_aligned (o : Options) (rule_name : string)
    (rule_branches : list string) (incr : bool) (ops : list Op) (r : Repository)
    (k : string) (br : Branch) :
  run o ops (Repository_new rule_name rule_branches incr) = Ok r →
  branches r !! k = Some br →
  length (commits br) = length (marks br)
  ∧ (Sorted Z.le (omap op_revnum ops) → Sorted Z.le (commits br)).
Proof.
  intros Hrun Hk. split.
  - eapply run_lengths; [exact Hrun | | exact Hk].
    intros k' br' H'. by destruct (Repository_new_empty _ _ _ _ _ H') as [-> ->].
  - intros Hs.
    assert (Hb : ∃ b, Sorted Z.le (b :: omap op_revnum ops)).
    { destruct (omap op_revnum ops) as [|n l]; [exists 0; repeat constructor|].
      exists n. constructor; [done|]. constructor. lia. }
    destruct Hb as [b Hb].
    eapply run_ascending; [exact Hrun | exact Hb | | exact Hk].
    intros k' br' H'. destruct (Repository_new_empty _ _ _ _ _ H') as [E1 E2].
    unfold ascending_upto. rewrite E1. split; constructor.
Qed.

Lemma branch_records_aligned_witness :
  ∃ r, run demo_options copy_and_commit_run fresh = Ok r
    ∧ branches r !! "refs/heads/topic" = Some (mkBranch 2 [2; 2] [1; 2] "")
    ∧ length [2; 2] = length [1; 2]
    ∧ Sorted Z.le [2; 2].
Proof.
  destruct (run demo_options copy_and_commit_run fresh) as [r|w] eqn:E;
    [|vm_compute in E; discriminate E].
  assert (Hk : branches r !! "refs/heads/topic" = Some (mkBranch 2 [2; 2] [1; 2] "")).
  { vm_compute in E. injection E as <-. vm_compute. reflexivity. }
  exists r. split; [done|]. split; [done|].
  destruct (branch_records_aligned demo_options "R" [] false copy_and_commit_run r
              "refs/heads/topic" _ E Hk) as [Hl Hs].
  split; [exact Hl|]. apply Hs. cbn. repeat constructor; lia.
Defined.

(** Counterexample to C3 as stated (strictly ascending commits): a copy
    and a commit in one revision leave the same revision twice in the
    record of the new branch. *)
Lemma commits_not_strictly_ascending :
  ∃ r, run demo_options copy_and_commit_run fresh = Ok r
    ∧ (commits <$> branches r !! "refs/heads/topic") = Some [2; 2]
    ∧ ¬ Sorted Z.lt [2; 2].
Proof.
  destruct (run demo_options copy_and_commit_run fresh) as [r|w] eqn:E;
    [|vm_compute in E; discriminate E].
  exists r. split; [done|]. split.
  - vm_compute in E. injection E as <-. vm_compute. reflexivity.
  - intros H. inversion H as [|? ? _ Hd]; subst. inversion Hd; subst. lia.
Qed.

(** ** The commit block *)



Lemma commitNote_written (txt : string) (ap : bool) (c : option string)
    (t : Transaction) (r r' : Repository) :
  Transaction_.commitNote txt ap c t r = Ok r' →
  ∃ chunk, written r' = written r ++ [chunk].
Proof.
  unfold Transaction_.commitNote. intros H. apply bind_Ok in H as (? & _ & H).
  match type of H with (let '(_, _) := ?x in _) = _ => destruct x end.
  injection H as <-.
  destruct (bool_decide (c = None)); [|by eexists].
  unfold setBranchNote. cbn [branches write].
  destruct (branches r !! branch t); by eexists.
Qed.

Lemma branches_index_record (bs : gmap string Branch) (k : string) :
  (branches_index bs k).1 = default Branch_default (bs !! k).
Proof. unfold branches_index. by destruct (bs !! k). Qed.






(** ** The cvs2svn workaround *)

Lemma StronglySorted_last_max (l : list Z) (top : Z) :
  StronglySorted Z.le l → last l = Some top → ∀ m, m ∈ l → m ≤ top.
Proof.
  induction 1 as [|a l Hs IH Hall]; intros Hlast m Hm; [by apply elem_of_nil in Hm|].
  destruct l as [|b l].
  - apply list_elem_of_singleton in Hm as ->. injection Hlast as ->. lia.
  - rewrite last_cons_cons in Hlast. apply elem_of_cons in Hm as [->|Hm].
    + rewrite Forall_forall in Hall. apply Hall.
      by apply last_Some_elem_of.
    + by apply IH.
Qed.

(** After [qSort] the last entry is the largest staged mark. *)
Lemma qSort_last_max (l : list Z) :
  l ≠ [] →
  ∃ top, last (qSort l) = Some top ∧ top ∈ l ∧ ∀ m, m ∈ l → m ≤ top.
Proof.
  intros Hne. unfold qSort.
  pose proof (merge_sort_Permutation Z.le l) as Hperm.
  destruct (last (merge_sort Z.le l)) as [top|] eqn:El.
  - exists top. split; [done|]. split.
    + rewrite <- Hperm. by apply last_Some_elem_of.
    + intros m Hm. eapply StronglySorted_last_max; [|exact El|by rewrite Hperm].
      apply StronglySorted_merge_sort; apply _.
  - apply last_None in El. rewrite El in Hperm.
    symmetry in Hperm. by apply Permutation_nil_r in Hperm.
Qed.

Lemma emit_merges_cvs2svn (lg : string) (ms : list Z) (parent : Z) :
  contains_str lg cvs2svn_marker = true → (1 < length ms)%nat →
  ∃ top, top ∈ ms ∧ (∀ m, m ∈ ms → m ≤ top)
    ∧ emit_merges lg ms parent
      = Ok (["merge :" +:+ number top +:+ LF], "", pop_back (qSort ms), false).
Proof.
  intros Hlog Hlen. unfold emit_merges. rewrite Hlog.
  rewrite (proj2 (Z.ltb_lt 1 (Z.of_nat (length ms)))) by lia. cbn [andb].
  destruct (qSort_last_max ms) as (top & Hlast & Hin & Hmax).
  { intros ->. simpl in Hlen. lia. }
  exists top. split; [done|]. split; [done|].
  unfold vec_last. by rewrite Hlast.
Qed.

(** C7.  When the log of a transaction contains "This commit was
    manufactured by cvs2svn" and more than one merge parent is staged,
    [Transaction::commit] sorts the staged merges and writes, between the
    head of the commit block and its file operations, exactly one merge
    line; it carries the largest staged mark, and the other staged marks
    are written nowhere in the block. *)
Theorem commit_cvs2svn_single_merge (o : Options) (t : Transaction)
    (r : Repository) (t' : Transaction) (r' : Repository) :
  contains_str (log t) cvs2svn_marker = true →
  (1 < length (merges t))%nat →
  Transaction_.commit o t r = Ok (t', r') →
  ∃ top reload notes,
    top ∈ merges t ∧ (∀ m, m ∈ merges t → m ≤ top)
    ∧ merges t' = pop_back (qSort (merges t))
    ∧ (length notes ≤ 1)%nat
    ∧ written r'
      = written r ++ reload
        ++ [Transaction_.commit_header o t (last_commit_mark r + 1)]
        ++ ["merge :" +:+ number top +:+ LF]
        ++ Transaction_.commit_files t (last_commit_mark r + 1) ""
        ++ notes.
Proof.
  intros Hlog Hlen H.
  apply commit_Ok in H as (r1 & out & desc & ms & warn & Hr1 & _ & _ & H).
  cbv zeta in H. destruct H as (Hem & -> & H).
  destruct (emit_merges_cvs2svn (log t) (merges t)
              (Transaction_.commit_branch t (last_commit_mark r1 + 1)
                 (set_last_commit_mark (last_commit_mark r1 + 1) r1)).1 Hlog Hlen)
    as (top & Hin & Hmax & Hem').
  rewrite Hem' in Hem. injection Hem as <- <- <- <-.
  apply startFastImport_Ok in Hr1 as (Hs & _ & reload & Hw).
  assert (Hl : last_commit_mark r1 = last_commit_mark r).
  { unfold same_but_process in Hs. by destruct_and!. }
  rewrite Hl in *.
  set (mark := last_commit_mark r + 1) in *.
  set (pr := Transaction_.commit_branch t mark (set_last_commit_mark mark r1)) in *.
  assert (Hpw : written pr.2 = written r1).
  { subst pr. unfold Transaction_.commit_branch.
    destruct (branches_index _ _) as [br bs]. cbn [snd].
    destruct (negb (created br =? 0) && last_nonzero (marks br)); [done|].
    by destruct (incremental _). }
  cbn [write_all foldl] in H.
  set (t' := Transaction_.set_merges (pop_back (qSort (merges t))) t) in *.
  assert (Hfiles : Transaction_.commit_files t' mark "" = Transaction_.commit_files t mark "")
    by done.
  rewrite Hfiles in H.
  set (r4 := write_all (Transaction_.commit_files t mark "") _) in *.
  assert (H4 : written r4
               = written r ++ reload ++ [Transaction_.commit_header o t mark]
                 ++ ["merge :" +:+ number top +:+ LF]
                 ++ Transaction_.commit_files t mark "").
  { subst r4. rewrite written_write_all. cbn [written write].
    rewrite Hpw, Hw. by rewrite <- !app_assoc. }
  destruct (add_metadata_notes o).
  - apply commitNote_written in H as [chunk Hc].
    exists top, reload, [chunk]. split; [done|]. split; [done|]. split; [done|].
    split; [simpl; lia|]. rewrite Hc, H4. by rewrite <- !app_assoc.
  - injection H as <-. exists top, reload, [].
    split; [done|]. split; [done|]. split; [done|]. split; [simpl; lia|].
    rewrite H4. by rewrite !app_nil_r.
Qed.

Lemma commit_cvs2svn_single_merge_witness :
  ∃ t' r',
    Transaction_.commit demo_options txn_cvs2svn fresh = Ok (t', r')
    ∧ merges txn_cvs2svn = [3; 9; 5]
    ∧ written r'
      = [Transaction_.commit_header demo_options txn_cvs2svn 1;
         "merge :9" +:+ LF;
         "";
         LF +:+ "progress SVN r1 branch refs/heads/master = :1" +:+ LF +:+ LF]
    ∧ merges t' = [3; 5].
Proof.
  destruct (Transaction_.commit demo_options txn_cvs2svn fresh) as [[t' r']|w] eqn:E;
    [|vm_compute in E; discriminate E].
  exists t', r'. split; [done|]. split; [done|].
  destruct (commit_cvs2svn_single_merge demo_options txn_cvs2svn fresh t' r'
              eq_refl ltac:(simpl; lia) E)
    as (top & reload & notes & _ & _ & Hms & _ & _).
  split; [|rewrite Hms; reflexivity].
  vm_compute in E. injection E as _ <-. reflexivity.
Defined.

(** ** The pending reset buffers *)

(** What a call of [resetBranch] leaves in the registry and in the two
    pending maps. *)
Lemma resetBranch_Ok (b : string) (n m : Z) (to c : string) (r : Repository) :
  startsWith b "refs/" = true →
  let br := default Branch_default (branches r !! b) in
  let entry := backup_command br b n c +:+ reset_command b n m to c in
  ∃ r', resetBranch b n m to c r = Ok r'
    ∧ branches r' = <[b := mkBranch n (commits br ++ [n]) (marks br ++ [m]) (note br)]>
                      (branches r)
    ∧ written r' = written r
    ∧ (if String.eqb c "delete"
       then if bool_decide (is_Some (resetBranches r !! b))
            then resetBranches r' = delete b (resetBranches r)
                 ∧ deletedBranches r' = deletedBranches r
            else resetBranches r' = resetBranches r
                 ∧ deletedBranches r'
                   = <[b := default "" (deletedBranches r !! b) +:+ entry]>
                       (deletedBranches r)
       else resetBranches r'
            = <[b := default "" (resetBranches r !! b) +:+ entry]> (resetBranches r)
            ∧ deletedBranches r' = deletedBranches r).
Proof.
  intros Href. cbv zeta. unfold resetBranch. rewrite Href.
  cbn [Q_ASSERT mbind Res_bind].
  assert (Hidx : ∀ x, <[b := x]> (branches_index (branches r) b).2 = <[b := x]> (branches r)).
  { intros x. unfold branches_index. destruct (branches r !! b); [done|].
    cbn [snd]. apply insert_insert_eq. }
  rewrite <- branches_index_record.
  destruct (branches_index (branches r) b) as [br bs]. cbn [fst snd] in *.
  cbn [resetBranches deletedBranches set_branches].
  destruct (String.eqb c "delete").
  - destruct (bool_decide (is_Some (resetBranches r !! b))); eexists;
      (split; [reflexivity|]); cbn; rewrite Hidx; done.
  - eexists; (split; [reflexivity|]); cbn; rewrite Hidx; done.
Qed.

(** A call on another ref leaves the pending entries and the record of
    a ref alone. *)
Lemma resetBranch_other (R : string) (c : ResetCall) (r r' : Repository) :
  rc_branch c ≠ R →
  resetBranch (rc_branch c) (rc_revnum c) (rc_mark c) (rc_resetTo c) (rc_comment c) r
    = Ok r' →
  resetBranches r' !! R = resetBranches r !! R
  ∧ deletedBranches r' !! R = deletedBranches r !! R
  ∧ branches r' !! R = branches r !! R.
Proof.
  intros Hne H.
  assert (Href : startsWith (rc_branch c) "refs/" = true).
  { unfold resetBranch in H. apply bind_Ok in H as (? & Ha & _). by apply Q_ASSERT_Ok in Ha. }
  destruct (resetBranch_Ok (rc_branch c) (rc_revnum c) (rc_mark c) (rc_resetTo c)
              (rc_comment c) r Href) as (r'' & Hr & Hb & _ & Hp).
  rewrite Hr in H. injection H as <-. rewrite Hb.
  rewrite lookup_insert_ne by done.
  destruct (String.eqb (rc_comment c) "delete").
  - destruct (bool_decide _); destruct Hp as [-> ->].
    + by rewrite lookup_delete_ne.
    + by rewrite lookup_insert_ne.
  - destruct Hp as [-> ->]. by rewrite lookup_insert_ne.
Qed.

Lemma resetBranch_calls_app (cs1 cs2 : list ResetCall) (r r' : Repository) :
  resetBranch_calls (cs1 ++ cs2) r = Ok r' →
  ∃ r1, resetBranch_calls cs1 r = Ok r1 ∧ resetBranch_calls cs2 r1 = Ok r'.
Proof.
  revert r. induction cs1 as [|c cs1 IH]; intros r H; simpl in *; [eauto|].
  apply bind_Ok in H as (r0 & Hc & H). rewrite Hc. cbn [mbind Res_bind]. by apply IH.
Qed.

Lemma resetBranch_calls_total (cs : list ResetCall) (r : Repository) :
  Forall (fun c => startsWith (rc_branch c) "refs/" = true) cs →
  ∃ r', resetBranch_calls cs r = Ok r'.
Proof.
  intros H. revert r. induction H as [|c cs Hc _ IH]; intros r; simpl; [eauto|].
  destruct (resetBranch_Ok (rc_branch c) (rc_revnum c) (rc_mark c) (rc_resetTo c)
              (rc_comment c) r Hc) as (r1 & -> & _). cbn [mbind Res_bind]. apply IH.
Qed.

Lemma resetBranch_calls_other (R : string) (cs : list ResetCall) (r r' : Repository) :
  Forall (fun c => rc_branch c ≠ R) cs →
  resetBranch_calls cs r = Ok r' →
  resetBranches r' !! R = resetBranches r !! R
  ∧ deletedBranches r' !! R = deletedBranches r !! R
  ∧ branches r' !! R = branches r !! R.
Proof.
  intros H. revert r. induction H as [|c cs Hc _ IH]; intros r Hr; simpl in Hr.
  - by injection Hr as <-.
  - apply bind_Ok in Hr as (r1 & H1 & Hr).
    destruct (resetBranch_other R c r r1 Hc H1) as (<- & <- & <-). by apply IH.
Qed.

(** Calls that do not delete [R] keep a pending reset of [R] pending and
    leave its tombstone entry alone. *)
Lemma resetBranch_calls_keep_reset (R : string) (cs : list ResetCall)
    (r r' : Repository) :
  Forall (fun c => rc_branch c = R → is_delete c = false) cs →
  resetBranch_calls cs r = Ok r' →
  is_Some (resetBranches r !! R) →
  is_Some (resetBranches r' !! R)
  ∧ deletedBranches r' !! R = deletedBranches r !! R.
Proof.
  intros H. revert r. induction H as [|c cs Hc _ IH]; intros r Hr Hsome; simpl in Hr.
  - by injection Hr as <-.
  - apply bind_Ok in Hr as (r1 & H1 & Hr).
    destruct (decide (rc_branch c = R)) as [Heq|Hne].
    + specialize (Hc Heq). unfold is_delete in Hc.
      assert (Href : startsWith (rc_branch c) "refs/" = true).
      { unfold resetBranch in H1. apply bind_Ok in H1 as (? & Ha & _).
        by apply Q_ASSERT_Ok in Ha. }
      destruct (resetBranch_Ok (rc_branch c) (rc_revnum c) (rc_mark c) (rc_resetTo c)
                  (rc_comment c) r Href) as (r'' & Hr'' & _ & _ & Hp).
      rewrite Hr'' in H1. injection H1 as <-. rewrite Hc in Hp. destruct Hp as [Hp1 Hp2].
      destruct (IH r'' Hr) as [IH1 IH2].
      * rewrite Hp1, Heq. rewrite lookup_insert_eq. eauto.
      * split; [done|]. by rewrite IH2, Hp2.
    + destruct (resetBranch_other R c r r1 Hne H1) as (E1 & E2 & _).
      destruct (IH r1 Hr) as [IH1 IH2]; [by rewrite E1|].
      split; [done|]. by rewrite IH2.
Qed.

Lemma map_isEmpty_true {A} (m : gmap string A) : map_isEmpty m = true → m = ∅.
Proof. unfold map_isEmpty. apply bool_decide_eq_true_1. Qed.

(** The flush of the pending buffers, [Repository::commit]. *)
Lemma Repository_commit_Ok (o : Options) (r r1 : Repository) :
  startFastImport o r = Ok r1 →
  ∃ r', Repository_commit o r = Ok r'
    ∧ resetBranches r' = ∅ ∧ deletedBranches r' = ∅
    ∧ written r'
      = if map_isEmpty (deletedBranches r) && map_isEmpty (resetBranches r)
        then written r
        else written r1 ++ values (deletedBranches r) ++ values (resetBranches r).
Proof.
  intros Hs. unfold Repository_commit.
  destruct (map_isEmpty (deletedBranches r) && map_isEmpty (resetBranches r)) eqn:E.
  - apply andb_true_iff in E as [E1 E2].
    apply map_isEmpty_true in E1, E2. exists r. done.
  - rewrite Hs. cbn [mbind Res_bind]. eexists. split; [reflexivity|].
    cbn [resetBranches deletedBranches set_resetBranches set_deletedBranches written].
    split; [done|]. split; [done|].
    apply startFastImport_Ok in Hs as [Hs _].
    unfold same_but_process in Hs. destruct_and!.
    rewrite !written_write_all.
    match goal with |- context [resetBranches (write_all ?cs ?x)] =>
      pose proof (write_all_same cs x) as Hw end.
    unfold same_but_process in Hw. destruct_and!.
    repeat match goal with H : _ = _ |- _ => rewrite H end.
    by rewrite <- app_assoc.
Qed.

Lemma backup_command_after_delete (br : Branch) (b : string) (nd n : Z) (c nt : string) :
  backup_command (mkBranch nd (commits br ++ [nd]) (marks br ++ [0]) nt) b n c = "".
Proof.
  unfold backup_command, last_nonzero. cbn [created marks].
  rewrite last_snoc. cbn. by rewrite !andb_false_r.
Qed.

(** [markFrom] only ever extends the description it is given. *)
Lemma markFrom_desc (b : string) (n : Z) (d : string) (r : Repository)
    (m : Z) (d' : string) (r' : Repository) :
  markFrom b n d r = Ok (m, d', r') → ∃ suffix, d' = d +:+ suffix.
Proof.
  unfold markFrom. intros H. apply bind_Ok in H as (? & _ & H).
  destruct (branches_index (branches r) b) as [br bs].
  assert (Hsame : ∃ suffix, d = d +:+ suffix).
  { exists "". by rewrite str_app_nil_r. }
  destruct (created br =? 0); [by injection H as _ <- _|].
  destruct (isEmpty (commits br)); [by injection H as _ <- _|].
  apply bind_Ok in H as (lastc & _ & H).
  destruct (n =? lastc).
  - apply bind_Ok in H as (? & _ & H). by injection H as _ <- _.
  - destruct (qUpperBound (commits br) n) as [|it]; [by injection H as _ <- _|].
    apply bind_Ok in H as (closest & _ & H). apply bind_Ok in H as (? & _ & H).
    injection H as _ <- _.
    destruct (isEmpty_str d); [done|].
    destruct (closest =? n); [by eexists|].
    eexists. by rewrite str_app_assoc.
Qed.

(** [createBranch] ends in a call of [resetBranch] that is not a delete:
    its comment starts with "from branch". *)
Lemma createBranch_is_reset (b : string) (n : Z) (bf : string) (bn : Z)
    (r r' : Repository) :
  createBranch b n bf bn r = Ok r' →
  ∃ r1 mark to c,
    String.eqb c "delete" = false ∧ resetBranch b n mark to c r1 = Ok r'.
Proof.
  unfold createBranch. intros H.
  apply bind_Ok in H as (? & _ & H). apply bind_Ok in H as (? & _ & H).
  apply bind_Ok in H as ([[mark d] r1] & Hmf & H).
  apply markFrom_desc in Hmf as [suffix ->].
  destruct (mark =? -1); [done|].
  destruct (mark =? 0);
    match type of H with context [branches_index ?x ?y] =>
      destruct (branches_index x y) end;
    do 4 eexists; (split; [|exact H]); reflexivity.
Qed.

(** [values] lists the buffers a pending map holds: each entry of the
    map once and nothing else. *)
Lemma values_Permutation (m : gmap string string) :
  values m ≡ₚ (map_to_list m).*2.
Proof. unfold values. by rewrite merge_sort_Permutation. Qed.

Lemma elem_of_values (m : gmap string string) (v : string) :
  v ∈ values m ↔ ∃ k, m !! k = Some v.
Proof.
  rewrite values_Permutation, list_elem_of_fmap. split.
  - intros [[k v'] [-> H]]. exists k. by apply elem_of_map_to_list in H.
  - intros [k H]. exists (k, v). split; [done|]. by apply elem_of_map_to_list.
Qed.

Lemma values_insert_empty (k v : string) : values (<[k := v]> ∅) = [v].
Proof.
  pose proof (values_Permutation (<[k := v]> ∅)) as H.
  rewrite insert_empty, map_to_list_singleton in H.
  by apply Permutation_singleton_r in H.
Qed.

Lemma values_nonempty (m : gmap string string) (k v : string) :
  m !! k = Some v → map_isEmpty m = false.
Proof.
  intros H. unfold map_isEmpty. apply bool_decide_eq_false_2.
  intros ->. by rewrite lookup_empty in H.
Qed.

(** C5.  Within one revision, for a ref [R] with nothing pending: calls
    of [resetBranch] that reset [R], once or more, and then delete it
    leave no pending entry for [R], so the flush writes nothing for it
    (nothing at all when only [R] was touched); a delete of [R] followed
    by a reset leaves the tombstone command in [deletedBranches] and the
    reset command in [resetBranches], and the flush that follows writes
    the tombstone command and, after it, the reset command (these two
    chunks and no other when nothing else was pending); the flush writes
    every deletion buffer once, then every reset buffer once, nothing
    else after the start of the child, and clears both maps;
    [deleteBranch] is such a delete for every ref but the default branch,
    and [createBranch] ends in such a reset. *)
Theorem pending_resets_collapse_and_flush (o : Options) (R : string) (r : Repository) :
  startsWith R "refs/" = true →
  resetBranches r !! R = None →
  (∀ pre rs mid dl post,
     deletedBranches r !! R = None →
     Forall (fun c => startsWith (rc_branch c) "refs/" = true) (pre ++ mid ++ post) →
     Forall (fun c => rc_branch c ≠ R) pre → Forall (fun c => rc_branch c ≠ R) post →
     rc_branch rs = R → is_delete rs = false →
     Forall (fun c => rc_branch c = R → is_delete c = false) mid →
     rc_branch dl = R → is_delete dl = true →
     ∃ r', resetBranch_calls (pre ++ [rs] ++ mid ++ [dl] ++ post) r = Ok r'
       ∧ resetBranches r' !! R = None ∧ deletedBranches r' !! R = None
       ∧ written r' = written r
       ∧ (resetBranches r = ∅ → deletedBranches r = ∅ → pre = [] → post = [] →
          Forall (fun c => rc_branch c = R) mid →
          Repository_commit o r' = Ok r'))
  ∧ (∀ nd n m to c mid,
       String.eqb c "delete" = false →
       Forall (fun c => startsWith (rc_branch c) "refs/" = true) mid →
       Forall (fun c => rc_branch c ≠ R) mid →
       let br := default Branch_default (branches r !! R) in
       ∃ r', resetBranch_calls ([delete_call R nd] ++ mid ++ [mkResetCall R n m to c]) r
             = Ok r'
         ∧ deletedBranches r' !! R
           = Some (default "" (deletedBranches r !! R)
                   +:+ backup_command br R nd "delete"
                   +:+ reset_command R nd 0 null_sha "delete")
         ∧ resetBranches r' !! R = Some (reset_command R n m to c)
         ∧ (∀ r1, startFastImport o r' = Ok r1 →
              ∃ r'' d1 d2 s1 s2,
                Repository_commit o r' = Ok r''
                ∧ written r''
                  = written r1
                    ++ (d1 ++ [default "" (deletedBranches r !! R)
                               +:+ backup_command br R nd "delete"
                               +:+ reset_command R nd 0 null_sha "delete"] ++ d2)
                    ++ (s1 ++ [reset_command R n m to c] ++ s2)
                ∧ (deletedBranches r = ∅ → resetBranches r = ∅ → mid = [] →
                   d1 = [] ∧ d2 = [] ∧ s1 = [] ∧ s2 = [])))
  ∧ (∀ r1, startFastImport o r = Ok r1 →
       ∃ r', Repository_commit o r = Ok r'
         ∧ resetBranches r' = ∅ ∧ deletedBranches r' = ∅
         ∧ written r'
           = (if map_isEmpty (deletedBranches r) && map_isEmpty (resetBranches r)
              then written r
              else written r1 ++ values (deletedBranches r) ++ values (resetBranches r))
         ∧ values (deletedBranches r) ≡ₚ (map_to_list (deletedBranches r)).*2
         ∧ values (resetBranches r) ≡ₚ (map_to_list (resetBranches r)).*2)
  ∧ (∀ n, deleteBranch R n r
          = if String.eqb R "refs/heads/master" then Ok r
            else resetBranch R n 0 null_sha "delete" r)
  ∧ (∀ n bf bn r', createBranch R n bf bn r = Ok r' →
       ∃ r1 mark to c,
         String.eqb c "delete" = false ∧ resetBranch R n mark to c r1 = Ok r').
Proof.
  intros Href Hreset. split; [|split; [|split; [|split]]].
  - intros pre rs mid dl post Hdel Hrefs Hpre Hpost Hrs Hrsd Hmid Hdl Hdld.
    apply Forall_app in Hrefs as [Hrpre Hrefs]. apply Forall_app in Hrefs as [Hrmid Hrpost].
    destruct (resetBranch_calls_total (pre ++ [rs] ++ mid ++ [dl] ++ post) r) as [r' Hr'].
    { rewrite !Forall_app. repeat split; try done.
      - constructor; [by rewrite Hrs | constructor].
      - constructor; [by rewrite Hdl | constructor]. }
    exists r'. split; [exact Hr'|].
    assert (Hw : ∀ cs x x', resetBranch_calls cs x = Ok x' → written x' = written x).
    { induction cs as [|c cs IH]; intros x x' Hx; simpl in Hx; [by injection Hx as <-|].
      apply bind_Ok in Hx as (x1 & H1 & Hx). rewrite (IH _ _ Hx).
      assert (Hc : startsWith (rc_branch c) "refs/" = true).
      { unfold resetBranch in H1. apply bind_Ok in H1 as (? & Ha & _).
        by apply Q_ASSERT_Ok in Ha. }
      destruct (resetBranch_Ok _ (rc_revnum c) (rc_mark c) (rc_resetTo c) (rc_comment c)
                  x Hc) as (x2 & E & _ & Hwx & _).
      rewrite E in H1. by injection H1 as <-. }
    pose proof (Hw _ _ _ Hr') as Hwr.
    apply resetBranch_calls_app in Hr' as (r1 & H1 & Hr').
    apply resetBranch_calls_app in Hr' as (r2 & H2 & Hr').
    apply resetBranch_calls_app in Hr' as (r3 & H3 & Hr').
    apply resetBranch_calls_app in Hr' as (r4 & H4 & Hr').
    destruct (resetBranch_calls_other R pre r r1 Hpre H1) as (E1r & E1d & _).
    (* the reset *)
    simpl in H2. apply bind_Ok in H2 as (r2' & H2 & [= <-]).
    destruct (resetBranch_Ok (rc_branch rs) (rc_revnum rs) (rc_mark rs) (rc_resetTo rs)
                (rc_comment rs) r1 ltac:(by rewrite Hrs)) as (x & Ex & _ & _ & Hp).
    rewrite Ex in H2. injection H2 as <-. unfold is_delete in Hrsd. rewrite Hrsd in Hp.
    destruct Hp as [Hp2r Hp2d].
    (* the calls in between *)
    destruct (resetBranch_calls_keep_reset R mid x r3 Hmid H3) as [E3r E3d].
    { rewrite Hp2r, Hrs, lookup_insert_eq. eauto. }
    (* the delete *)
    simpl in H4. apply bind_Ok in H4 as (r4' & H4 & [= <-]).
    destruct (resetBranch_Ok (rc_branch dl) (rc_revnum dl) (rc_mark dl) (rc_resetTo dl)
                (rc_comment dl) r3 ltac:(by rewrite Hdl)) as (y & Ey & _ & _ & Hq).
    rewrite Ey in H4. injection H4 as <-. unfold is_delete in Hdld. rewrite Hdld in Hq.
    rewrite Hdl in Hq. rewrite (bool_decide_eq_true_2 _ E3r) in Hq. destruct Hq as [Hq4r Hq4d].
    destruct (resetBranch_calls_other R post y r' Hpost Hr') as (E5r & E5d & _).
    assert (Hfr : resetBranches r' !! R = None).
    { rewrite E5r, Hq4r. apply lookup_delete_eq. }
    assert (Hfd : deletedBranches r' !! R = None).
    { rewrite E5d, Hq4d, E3d, Hp2d, E1d. exact Hdel. }
    split; [done|]. split; [done|]. split; [done|].
    intros Er Ed -> -> Hall.
    assert (Hothers : ∀ k, k ≠ R →
              resetBranches r' !! k = None ∧ deletedBranches r' !! k = None).
    { intros k Hk. simpl in H1, Hr'. injection H1 as <-. injection Hr' as <-.
      assert (Hne : Forall (fun c => rc_branch c ≠ k) ([rs] ++ mid ++ [dl])).
      { rewrite !Forall_app. repeat split.
        - constructor; [congruence | constructor].
        - eapply Forall_impl; [exact Hall|]. cbn. congruence.
        - constructor; [congruence | constructor]. }
      assert (Hrun : resetBranch_calls ([rs] ++ mid ++ [dl]) r = Ok y).
      { simpl. rewrite Ex. cbn [mbind Res_bind].
        clear -H3 Ey. revert x H3. induction mid as [|c cs IH]; intros x H3; simpl in *.
        - injection H3 as ->. by rewrite Ey.
        - apply bind_Ok in H3 as (x1 & -> & H3). cbn [mbind Res_bind]. by apply IH. }
      destruct (resetBranch_calls_other k _ r y Hne Hrun) as (-> & -> & _).
      by rewrite Er, Ed, !lookup_empty. }
    assert (Er' : resetBranches r' = ∅).
    { apply map_eq. intros k. rewrite lookup_empty.
      destruct (decide (k = R)) as [->|Hk]; [done | by apply Hothers]. }
    assert (Ed' : deletedBranches r' = ∅).
    { apply map_eq. intros k. rewrite lookup_empty.
      destruct (decide (k = R)) as [->|Hk]; [done | by apply Hothers]. }
    unfold Repository_commit, map_isEmpty. rewrite Er', Ed'.
    by rewrite !bool_decide_eq_true_2.
  - intros nd n m to c mid Hc Hrefs Hmid br.
    destruct (resetBranch_calls_total
                ([delete_call R nd] ++ mid ++ [mkResetCall R n m to c]) r) as [r' Hr'].
    { rewrite !Forall_app. repeat split; try done; by repeat constructor. }
    exists r'. split; [exact Hr'|].
    apply resetBranch_calls_app in Hr' as (r1 & H1 & Hr').
    apply resetBranch_calls_app in Hr' as (r2 & H2 & Hr').
    simpl in H1. apply bind_Ok in H1 as (r1' & H1 & [= <-]).
    destruct (resetBranch_Ok R nd 0 null_sha "delete" r Href)
      as (x & Ex & Hbx & _ & Hp).
    rewrite Ex in H1. injection H1 as <-. cbn [String.eqb Ascii.eqb Bool.eqb] in Hp.
    rewrite Hreset in Hp. rewrite bool_decide_eq_false_2 in Hp by (by intros [? ?]).
    destruct Hp as [Hp1r Hp1d].
    destruct (resetBranch_calls_other R mid x r2 Hmid H2) as (E2r & E2d & E2b).
    simpl in Hr'. apply bind_Ok in Hr' as (r3 & H3 & [= <-]).
    destruct (resetBranch_Ok R n m to c r2 Href) as (y & Ey & _ & _ & Hq).
    rewrite Ey in H3. injection H3 as <-. rewrite Hc in Hq. destruct Hq as [Hq3r Hq3d].
    assert (Hd : deletedBranches y !! R
                 = Some (default "" (deletedBranches r !! R)
                         +:+ backup_command br R nd "delete"
                         +:+ reset_command R nd 0 null_sha "delete")).
    { rewrite Hq3d, E2d, Hp1d, lookup_insert_eq. done. }
    assert (Hr : resetBranches y !! R = Some (reset_command R n m to c)).
    { rewrite Hq3r, lookup_insert_eq, E2r, Hp1r, Hreset, E2b, Hbx, lookup_insert_eq.
      cbn [from_option]. unfold id. by rewrite backup_command_after_delete. }
    split; [exact Hd|]. split; [exact Hr|].
    intros r1 Hs.
    destruct (Repository_commit_Ok o y r1 Hs) as (r'' & Hc'' & _ & _ & Hw).
    rewrite (values_nonempty _ _ _ Hd) in Hw. cbn [andb] in Hw.
    destruct (list_elem_of_split _ _
                (proj2 (elem_of_values _ _) (ex_intro _ R Hd))) as (d1 & d2 & Ed).
    destruct (list_elem_of_split _ _
                (proj2 (elem_of_values _ _) (ex_intro _ R Hr))) as (s1 & s2 & Es).
    exists r'', d1, d2, s1, s2. split; [exact Hc''|]. split.
    + rewrite Hw, Ed, Es. done.
    + intros Ed0 Er0 ->. simpl in H2. injection H2 as <-.
      assert (Hvd : length (values (deletedBranches y)) = 1%nat).
      { rewrite Hq3d, Hp1d, Ed0. by rewrite values_insert_empty. }
      assert (Hvr : length (values (resetBranches y)) = 1%nat).
      { rewrite Hq3r, Hp1r, Er0. by rewrite values_insert_empty. }
      rewrite Ed in Hvd. rewrite Es in Hvr.
      rewrite length_app in Hvd, Hvr. cbn [length] in Hvd, Hvr.
      destruct d1, d2, s1, s2; cbn [length] in Hvd, Hvr; try lia. done.
  - intros r1 Hs.
    destruct (Repository_commit_Ok o r r1 Hs) as (r' & Hc & Hr & Hd & Hw).
    exists r'. split_and!; try done; apply values_Permutation.
  - intros n. unfold deleteBranch. by rewrite Href.
  - intros n bf bn r'. apply createBranch_is_reset.
Qed.

Lemma pending_resets_collapse_and_flush_witness :
  (∃ r',
     resetBranch_calls
       [mkResetCall "refs/heads/topic" 5 1 ":1" "from branch refs/heads/master";
        delete_call "refs/heads/topic" 5] fresh = Ok r'
     ∧ resetBranches r' !! "refs/heads/topic" = None
     ∧ deletedBranches r' !! "refs/heads/topic" = None
     ∧ Repository_commit demo_options r' = Ok r')
  ∧ (∃ r' r'',
       resetBranch_calls
         [delete_call "refs/heads/topic" 5;
          mkResetCall "refs/heads/topic" 5 1 ":1" "from branch refs/heads/master"] fresh
       = Ok r'
       ∧ Repository_commit demo_options r' = Ok r''
       ∧ written r''
         = ["reset refs/heads/topic" +:+ LF +:+ "from :1" +:+ LF +:+ LF
            +:+ "progress Branch refs/heads/topic reloaded" +:+ LF;
            reset_command "refs/heads/topic" 5 0 null_sha "delete";
            reset_command "refs/heads/topic" 5 1 ":1" "from branch refs/heads/master"]).
Proof.
  destruct (pending_resets_collapse_and_flush demo_options "refs/heads/topic" fresh
              eq_refl eq_refl) as (Ha & Hb & _).
  split.
  - destruct (Ha [] (mkResetCall "refs/heads/topic" 5 1 ":1" "from branch refs/heads/master")
                [] (delete_call "refs/heads/topic" 5) []
                eq_refl ltac:(constructor) ltac:(constructor) ltac:(constructor)
                eq_refl eq_refl ltac:(constructor) eq_refl eq_refl)
      as (r' & E & Hr & Hd & _ & Hflush).
    exists r'. split; [exact E|]. split; [exact Hr|]. split; [exact Hd|].
    apply Hflush; try reflexivity. constructor.
  - destruct (Hb 5 5 1 ":1" "from branch refs/heads/master" []
                eq_refl ltac:(constructor) ltac:(constructor))
      as (r' & E & _ & _ & Hflush).
    destruct (startFastImport demo_options r') as [r1|w] eqn:Es;
      [|vm_compute in E; injection E as <-; vm_compute in Es; discriminate Es].
    destruct (Hflush r1 eq_refl) as (r'' & d1 & d2 & s1 & s2 & Hc & Hw & Hnil).
    destruct (Hnil eq_refl eq_refl eq_refl) as (-> & -> & -> & ->).
    exists r', r''. split; [exact E|]. split; [exact Hc|].
    rewrite Hw. vm_compute in E. injection E as <-.
    vm_compute in Es. injection Es as <-. reflexivity.
Defined.

(** ** The scan of the marks file *)

Lemma regular_le (p : Z) (lines : list string) (k : Z) :
  regular p lines k → p ≤ k.
Proof.
  revert p. induction lines as [|raw rest IH]; intros p H; simpl in H; [lia|].
  destruct (isEmpty_str (to_QString raw)); [by apply IH|].
  destruct H as [_ H]. apply IH in H. lia.
Qed.

Lemma lastValidMark_loop_regular (fn : string) (pre rest : list string)
    (n p k : Z) :
  0 ≤ p → regular p pre k →
  lastValidMark_loop fn (pre ++ rest) n p
  = lastValidMark_loop fn rest (n + Z.of_nat (length pre)) k.
Proof.
  revert n p. induction pre as [|raw pre IH]; intros n p Hp H; simpl in H.
  - subst k. simpl. f_equal. lia.
  - cbn [app lastValidMark_loop length].
    destruct (isEmpty_str (to_QString raw)).
    + rewrite (IH _ _ Hp H). f_equal. lia.
    + destruct H as [Hm H]. rewrite Hm.
      rewrite (proj2 (Z.eqb_neq (p + 1) 0)) by lia.
      rewrite (proj2 (Z.eqb_neq (p + 1) p)) by lia.
      rewrite (proj2 (Z.ltb_ge (p + 1) p)) by lia.
      rewrite Z.ltb_irrefl.
      rewrite (IH (n + 1) (p + 1)) by (done || lia). f_equal. lia.
Qed.

(** [setupIncremental] has no fatal path. *)
Lemma setupIncremental_is_Ok (cutoff : Z) (fs : FileSystem) (r : Repository) :
  ∃ res, setupIncremental cutoff fs r = Ok res.
Proof.
  unfold setupIncremental, lastValidMark.
  destruct (fs !! logFileName (name r)); [|eauto].
  destruct (fs !! (name r +:+ "/" +:+ marksFileName (name r))); cbn [mbind Res_bind].
  - destruct (lastValidMark_loop _ _ _ _) as [lvm msgs].
    destruct (setupIncremental_loop _ _ _ _ _ _) as [[last|pos c] r']; eauto.
  - cbn [foldl]. destruct (setupIncremental_loop _ _ _ _ _ _) as [[last|pos c] r']; eauto.
Qed.

(** C8 (amended).  The scan of the marks file has no fatal path.  After
    a stretch of lines whose marks count up from 1 to [k], a line that
    is malformed (mark 0), repeats the mark [k] or carries a smaller one
    makes [lastValidMark] log a critical message and return 0; a line
    with a gap of more than one ends the scan, and so does the end of the
    file, and [lastValidMark] returns [k]; and [setupIncremental] goes on
    with the value either way. *)
Theorem lastValidMark_scan (name : string) (fs : FileSystem) (content : string)
    (pre : list string) (k : Z) :
  fs !! (name +:+ "/" +:+ marksFileName name) = Some content →
  regular 0 pre k →
  (readLines content = pre → lastValidMark name fs = Ok (k, []))
  ∧ (∀ l post, readLines content = pre ++ l :: post →
       isEmpty_str (to_QString l) = false →
       let m := line_mark (to_QString l) in
       ((m = 0 ∨ m = k ∨ m < k) →
        ∃ msg, lastValidMark name fs = Ok (0, [(Critical, msg)]))
       ∧ (k + 1 < m → lastValidMark name fs = Ok (k, [])))
  ∧ (∀ cutoff r, ∃ res, setupIncremental cutoff fs r = Ok res).
Proof.
  intros Hfile Hreg. pose proof (regular_le _ _ _ Hreg) as Hk.
  unfold lastValidMark. rewrite Hfile.
  split; [|split].
  - intros ->. rewrite <- (app_nil_r pre).
    by rewrite (lastValidMark_loop_regular _ pre [] 0 0 k).
  - intros l post -> Hl. cbv zeta. set (m := line_mark (to_QString l)).
    rewrite (lastValidMark_loop_regular _ pre (l :: post) 0 0 k) by done.
    cbn [lastValidMark_loop]. rewrite Hl. fold m.
    split.
    + intros Hm. destruct (Z.eqb_spec m 0); [eauto|].
      destruct (Z.eqb_spec m k); [eauto|].
      destruct (Z.ltb_spec m k); [eauto|]. lia.
    + intros Hm.
      rewrite (proj2 (Z.eqb_neq m 0)) by lia.
      rewrite (proj2 (Z.eqb_neq m k)) by lia.
      rewrite (proj2 (Z.ltb_ge m k)) by lia.
      by rewrite (proj2 (Z.ltb_lt (k + 1) m)).
  - intros. apply setupIncremental_is_Ok.
Qed.

Lemma lastValidMark_scan_witness :
  lastValidMark "R" fs_duplicate
    = Ok (0, [(Critical, "R/marks-R line 2 marks file has duplicates")])
  ∧ lastValidMark "R" fs_S4 = Ok (7, []).
Proof.
  split.
  - destruct (lastValidMark_scan "R" fs_duplicate (":1 a" +:+ LF +:+ ":1 b" +:+ LF)
                [":1 a" +:+ LF] 1 eq_refl ltac:(by split)) as (_ & H & _).
    destruct (H (":1 b" +:+ LF) [] eq_refl eq_refl) as [Hdup _].
    destruct (Hdup ltac:(right; left; reflexivity)) as [msg Hmsg].
    rewrite Hmsg. vm_compute in Hmsg. by injection Hmsg as <-.
  - destruct (lastValidMark_scan "R" fs_S4 marks_1_to_7 (readLines marks_1_to_7) 7
                eq_refl ltac:(vm_compute; repeat split)) as (H & _).
    by apply H.
Defined.

(** Counterexample to C8 as stated: a duplicate in the marks file is not
    fatal.  [lastValidMark] logs a critical message and returns 0, and
    [setupIncremental] returns as after an interrupted run: every mark of
    the log is now unknown, so it rewinds to the first progress line. *)
Lemma duplicate_mark_is_not_fatal :
  lastValidMark "R" fs_duplicate
    = Ok (0, [(Critical, "R/marks-R line 2 marks file has duplicates")])
  ∧ match setupIncremental 100 fs_duplicate fresh with
    | Ok (rv, c, fs', r') =>
      rv = 3 ∧ c = 3 ∧ fs' !! "log-R" = Some ""
      ∧ fs' !! "log-R.old" = Some log_line_r3
    | Fatal _ => False
    end.
Proof. split; [reflexivity|]. vm_compute. repeat split. Qed.

(** ** The scan of the progress log *)

Lemma readLines_join (s : string) : join (readLines s) = s.
Proof.
  induction s as [|c s IH]; [done|]. cbn [readLines].
  destruct (Ascii.eqb c "010"); [exact (f_equal (String c) IH)|].
  destruct (readLines s) as [|l ls]; [by rewrite <- IH|].
  exact (f_equal (String c) IH).
Qed.

Lemma take_str_app (a b : string) : take_str (String.length a) (a +:+ b) = a.
Proof.
  induction a as [|c a IH]; [by destruct b|].
  exact (f_equal (String c) IH).
Qed.

Lemma length_str_app (a b : string) :
  String.length (a +:+ b) = (String.length a + String.length b)%nat.
Proof.
  induction a as [|c a IH]; [reflexivity | exact (f_equal S IH)].
Qed.

Lemma join_app (l1 l2 : list string) : join (l1 ++ l2) = join l1 +:+ join l2.
Proof.
  induction l1 as [|a l1 IH]; [done|].
  change (join ((a :: l1) ++ l2)) with (a +:+ join (l1 ++ l2)).
  change (join (a :: l1)) with (a +:+ join l1).
  by rewrite IH, str_app_assoc.
Qed.

Lemma backup_name_ne (s : string) : s ≠ s +:+ ".old".
Proof.
  intros H. apply (f_equal String.length) in H. rewrite length_str_app in H.
  simpl in H. lia.
Qed.

Lemma replay_progress_name (n : Z) (b : string) (m : Z) (r : Repository) :
  name (replay_progress n b m r) = name r.
Proof.
  unfold replay_progress. destruct (last_commit_mark r <? m);
    destruct (branches_index _ _); done.
Qed.

Lemma setupIncremental_loop_name (lines : list string) (pos : nat)
    (cutoff M last : Z) (r : Repository) :
  name (setupIncremental_loop lines pos cutoff M last r).2 = name r.
Proof.
  revert pos last r. induction lines as [|raw rest IH]; intros pos last r; [done|].
  cbn [setupIncremental_loop].
  destruct (parse_progress raw) as [[[rev br] mark]|]; [|apply IH].
  destruct (cutoff <=? rev); [done|].
  destruct (M <? mark); [by destruct (rev <? last)|].
  rewrite IH, replay_progress_name. by destruct (rev <? last).
Qed.

(** The scan runs through a replayable stretch and goes on behind it. *)
Lemma setupIncremental_loop_replayable (pre rest : list string) (pos : nat)
    (cutoff M last : Z) (r : Repository) :
  replayable cutoff M pre →
  ∃ r1, setupIncremental_loop pre pos cutoff M last r
        = (AtEnd (last_progress_rev last pre), r1)
    ∧ setupIncremental_loop (pre ++ rest) pos cutoff M last r
      = setupIncremental_loop rest (pos + String.length (join pre)) cutoff M
          (last_progress_rev last pre) r1.
Proof.
  intros H. revert pos last r. induction H as [|raw pre Hraw _ IH]; intros pos last r.
  - exists r. simpl. split; [done|]. f_equal. lia.
  - cbn [app setupIncremental_loop last_progress_rev foldl join foldr].
    fold (join pre). rewrite length_str_app.
    destruct (parse_progress raw) as [[[rev br] mark]|].
    + destruct Hraw as [Hrev Hmark].
      rewrite (proj2 (Z.leb_gt cutoff rev)) by lia.
      rewrite (proj2 (Z.ltb_ge M mark)) by lia.
      destruct (IH (pos + String.length raw)%nat rev
                  (replay_progress rev br mark
                     (if rev <? last
                      then log_msg Warn (not_monotonic_warning r last rev) r
                      else r))) as (r1 & E1 & E2).
      exists r1. split; [exact E1|]. rewrite E2. f_equal. lia.
    + destruct (IH (pos + String.length raw)%nat last r) as (r1 & E1 & E2).
      exists r1. split; [exact E1|]. rewrite E2. f_equal. lia.
Qed.

Lemma foldl_log_msg_name (msgs : list (LogLevel * string)) (r : Repository) :
  name (foldl (fun r m => log_msg m.1 m.2 r) r msgs) = name r.
Proof. revert r. induction msgs as [|m msgs IH]; intros r; simpl; [done|]. by rewrite IH. Qed.

(** C4.  When the scan of the log reaches a progress line before the
    cutoff whose mark is greater than the last valid mark of the marks
    file, [setupIncremental] sets the cutoff to the revision of that
    line, copies the log to the backup, truncates the log at the start
    of that line and returns the cutoff; when it reaches the end of the
    file it returns the revision of the last progress line plus one (1
    when there is none) and leaves the log as it is. *)
Theorem setupIncremental_rewind (cutoff : Z) (fs : FileSystem) (r : Repository)
    (content : string) (M : Z) (msgs : list (LogLevel * string)) :
  fs !! logFileName (name r) = Some content →
  lastValidMark (name r) fs = Ok (M, msgs) →
  (∀ pre l post rev br mark,
     readLines content = pre ++ l :: post →
     replayable cutoff M pre →
     parse_progress l = Some (rev, br, mark) →
     rev < cutoff → M < mark →
     ∃ fs' r', setupIncremental cutoff fs r = Ok (rev, rev, fs', r')
       ∧ fs' !! (logFileName (name r) +:+ ".old") = Some content
       ∧ fs' !! logFileName (name r) = Some (join pre)
       ∧ content = join pre +:+ l +:+ join post)
  ∧ (replayable cutoff M (readLines content) →
     ∃ fs' r',
       setupIncremental cutoff fs r
       = Ok (last_progress_rev 0 (readLines content) + 1, cutoff, fs', r')
       ∧ fs' !! logFileName (name r) = Some content).
Proof.
  intros Hlog Hmarks. unfold setupIncremental. rewrite Hlog, Hmarks.
  cbn [mbind Res_bind]. set (r0 := foldl _ r msgs).
  split.
  - intros pre l post rev br mark Hlines Hpre Hl Hrev Hmark.
    assert (Hcontent : content = join pre +:+ l +:+ join post).
    { rewrite <- (readLines_join content), Hlines, join_app. done. }
    rewrite Hlines.
    destruct (setupIncremental_loop_replayable pre (l :: post) 0 cutoff M 0 r0 Hpre)
      as (r1 & _ & ->).
    cbn [setupIncremental_loop]. rewrite Hl.
    rewrite (proj2 (Z.leb_gt cutoff rev)) by lia.
    rewrite (proj2 (Z.ltb_lt M mark)) by lia.
    do 2 eexists. split; [reflexivity|].
    rewrite lookup_insert_ne by apply backup_name_ne.
    rewrite !lookup_insert_eq. split; [done|]. split; [|done].
    f_equal. rewrite Hcontent. apply take_str_app.
  - intros Hall.
    destruct (setupIncremental_loop_replayable (readLines content) [] 0 cutoff M 0 r0 Hall)
      as (r1 & -> & _).
    do 2 eexists. split; [reflexivity|].
    destruct (_ =? cutoff); [|done].
    rewrite lookup_delete_ne; [done|]. intros H. symmetry in H. by apply backup_name_ne in H.
Qed.

Lemma setupIncremental_rewind_witness :
  ∃ fs' r', setupIncremental 100 fs_S4 fresh = Ok (4, 4, fs', r')
    ∧ fs' !! "log-R.old" = Some (log_line_r3 +:+ log_line_r4)
    ∧ fs' !! "log-R" = Some log_line_r3.
Proof.
  destruct (setupIncremental_rewind 100 fs_S4 fresh (log_line_r3 +:+ log_line_r4) 7 []
              eq_refl eq_refl) as [H _].
  destruct (H [log_line_r3] log_line_r4 [] 4 "refs/heads/master" 9 eq_refl
              ltac:(repeat constructor; vm_compute; done) eq_refl ltac:(lia) ltac:(lia))
    as (fs' & r' & E & Hb & Hl & _).
  exists fs', r'. split; [exact E|]. split; [exact Hb | exact Hl].
Defined.

(** ** The log round trip *)

(** C9 (amended).  [setupIncremental] followed by [restoreLog], with no
    write in between, leaves the log file as it was before, provided
    that no backup of a former run was lying around, or that the log
    exists and [setupIncremental] returned the cutoff (the one case in
    which the caller restores the log). *)
Theorem restoreLog_round_trip (cutoff : Z) (fs : FileSystem) (r : Repository)
    (rv c' : Z) (fs' : FileSystem) (r' : Repository) :
  setupIncremental cutoff fs r = Ok (rv, c', fs', r') →
  fs !! (logFileName (name r) +:+ ".old") = None
  ∨ (is_Some (fs !! logFileName (name r)) ∧ rv = c') →
  restoreLog fs' r' !! logFileName (name r) = fs !! logFileName (name r).
Proof.
  unfold setupIncremental. intros H Hcase.
  destruct (fs !! logFileName (name r)) as [content|] eqn:Hlog.
  - apply bind_Ok in H as ([M msgs] & _ & H).
    set (r0 := foldl _ r msgs) in *.
    pose proof (setupIncremental_loop_name (readLines content) 0 cutoff M 0 r0) as Hname.
    assert (Hname0 : name r0 = name r) by apply foldl_log_msg_name.
    destruct (setupIncremental_loop _ _ _ _ _ _) as [[last|pos c] r1].
    + injection H as <- <- <- <-. cbn [snd] in Hname.
      unfold restoreLog. rewrite Hname, Hname0.
      assert (Hne : logFileName (name r) +:+ ".old" ≠ logFileName (name r)).
      { intros E. symmetry in E. by apply backup_name_ne in E. }
      destruct Hcase as [Hnone | [_ Heq]].
      * destruct (last + 1 =? cutoff).
        -- rewrite lookup_delete_eq. by rewrite lookup_delete_ne.
        -- by rewrite Hnone.
      * rewrite Heq, Z.eqb_refl. rewrite lookup_delete_eq. by rewrite lookup_delete_ne.
    + injection H as <- <- <- <-. cbn [snd] in Hname.
      unfold restoreLog. rewrite Hname, Hname0.
      rewrite lookup_insert_ne by apply backup_name_ne.
      rewrite lookup_insert_eq. by rewrite lookup_insert_eq.
  - injection H as <- <- <- <-. unfold restoreLog.
    destruct Hcase as [-> | [[? ?] _]]; done.
Qed.

Lemma restoreLog_round_trip_witness :
  match setupIncremental 100 fs_S4 fresh with
  | Ok (rv, c, fs', r') =>
    rv = 4 ∧ c = 4 ∧ fs' !! "log-R" = Some log_line_r3
    ∧ restoreLog fs' r' !! "log-R" = Some (log_line_r3 +:+ log_line_r4)
  | Fatal _ => False
  end.
Proof.
  assert (Hv : match setupIncremental 100 fs_S4 fresh with
               | Ok (rv, c, fs', r') =>
                 rv = 4 ∧ c = 4 ∧ fs' !! "log-R" = Some log_line_r3
               | Fatal _ => False
               end) by (vm_compute; repeat split).
  destruct (setupIncremental 100 fs_S4 fresh) as [[[[rv c] fs'] r']|w] eqn:E; [|done].
  destruct Hv as (-> & -> & Hlog). split; [done|]. split; [done|]. split; [done|].
  exact (restoreLog_round_trip 100 fs_S4 fresh 4 4 fs' r' E (or_introl eq_refl)).
Defined.

(** Counterexample to C9 as stated (for every starting state of the
    files): when the log ends before the cutoff,
    [setupIncremental] leaves the backup of a former run where it is,
    and [restoreLog] renames it over the log. *)
Lemma stale_backup_replaces_log :
  fs_stale_backup !! "log-R" = Some log_line_r3
  ∧ match setupIncremental 100 fs_stale_backup fresh with
    | Ok (rv, c, fs', r') =>
      rv = 4 ∧ c = 100 ∧ restoreLog fs' r' !! "log-R" = Some "stale"
    | Fatal _ => False
    end.
Proof. split; [reflexivity|]. vm_compute. repeat split. Qed.

(** * Further properties of the code *)

(** ** The parent cap of a commit *)

Lemma merge_loop_spec (ms : list Z) (parent i : Z) (desc : string) (out : list string) :
  0 ≤ i ≤ 16 →
  let others := filter (fun m => m ≠ parent) ms in
  let cap := Z.to_nat (16 - i) in
  ∃ desc',
    merge_loop ms parent i desc out
    = (out ++ ((fun m => "merge" +:+ (" :" +:+ number m) +:+ LF) <$> take cap others),
       desc', bool_decide (cap < length others)%nat).
Proof.
  revert i desc out. induction ms as [|m ms IH]; intros i desc out Hi; cbn [merge_loop].
  - exists desc. cbn. rewrite take_nil, app_nil_r. done.
  - destruct (Z.eqb_spec m parent) as [->|Hne].
    + rewrite filter_cons_False by (intros ?; done). by apply IH.
    + rewrite filter_cons_True by done.
      destruct (Z.ltb_spec 16 (i + 1)) as [Hfull|Hroom].
      * exists desc. assert (Z.to_nat (16 - i) = 0%nat) as -> by lia.
        cbn. by rewrite app_nil_r.
      * destruct (IH (i + 1) (desc +:+ " :" +:+ number m)
                    (out ++ ["merge" +:+ (" :" +:+ number m) +:+ LF]) ltac:(lia))
          as [desc' ->].
        exists desc'. assert (Z.to_nat (16 - i) = S (Z.to_nat (16 - (i + 1)))) as -> by lia.
        cbn [take fmap list_fmap length]. rewrite <- app_assoc. cbn [app].
        f_equal. apply bool_decide_ext. lia.
Qed.

(** X1.  Outside the cvs2svn workaround a commit writes one merge line
    for each staged merge that differs from the natural parent, in the
    order staged, until the commit has 16 parents with the natural one
    counted: at most 16 merge lines without a natural parent, at most 15
    with one; the warning is raised exactly when a staged merge is left
    out for that reason, and the staged merges stay as they are. *)
Theorem merge_parents_capped (lg : string) (ms : list Z) (parent : Z)
    (out : list string) (desc : string) (ms' : list Z) (warn : bool) :
  contains_str lg cvs2svn_marker && (1 <? Z.of_nat (length ms)) = false →
  emit_merges lg ms parent = Ok (out, desc, ms', warn) →
  let others := filter (fun m => m ≠ parent) ms in
  let cap := if parent =? 0 then 16%nat else 15%nat in
  out = (fun m => "merge" +:+ (" :" +:+ number m) +:+ LF) <$> take cap others
  ∧ (length out ≤ cap)%nat
  ∧ (warn = true ↔ (cap < length others)%nat)
  ∧ ms' = ms.
Proof.
  intros Hpath H. unfold emit_merges in H. rewrite Hpath in H.
  assert (Hi : 0 ≤ (if parent =? 0 then 0 else 1) ≤ 16) by (destruct (parent =? 0); lia).
  destruct (merge_loop_spec ms parent _ "" [] Hi) as [desc' Hloop].
  cbv zeta in Hloop. rewrite Hloop in H. injection H as <- <- <- <-.
  assert (Hcap : Z.to_nat (16 - (if parent =? 0 then 0 else 1))
                 = if parent =? 0 then 16%nat else 15%nat)
    by (destruct (parent =? 0); reflexivity).
  cbv zeta. rewrite Hcap. cbn [app]. split; [done|]. split; [|split; [|done]].
  - rewrite length_fmap, length_take. lia.
  - rewrite bool_decide_eq_true. done.
Qed.

Lemma merge_parents_capped_witness :
  ∃ out desc warn,
    emit_merges "plain log" (seqZ 1 20) 3 = Ok (out, desc, seqZ 1 20, warn)
    ∧ length out = 15%nat ∧ warn = true.
Proof.
  destruct (emit_merges "plain log" (seqZ 1 20) 3) as [[[[out desc] ms'] warn]|w] eqn:E;
    [|vm_compute in E; discriminate E].
  destruct (merge_parents_capped "plain log" (seqZ 1 20) 3 out desc ms' warn eq_refl E)
    as (Hout & _ & Hwarn & ->).
  exists out, desc, warn. split; [done|]. split.
  - rewrite Hout. reflexivity.
  - apply Hwarn. vm_compute. lia.
Defined.

(** ** Staged merge parents *)

(** X2.  [noteCopyFromBranch] keeps the staged merges free of duplicates:
    it stages at most one mark, at the end, and only a mark that
    [markFrom] resolved (neither -1 nor 0) and that was not staged
    before; a copy from the transaction's own branch changes nothing
    but the log of warnings, and the query is not even made. *)
Theorem noteCopyFromBranch_stages_once (b : string) (n : Z) (t : Transaction)
    (r : Repository) (t' : Transaction) (r' : Repository) :
  Transaction_.noteCopyFromBranch b n t r = Ok (t', r') →
  NoDup (merges t) →
  NoDup (merges t')
  ∧ (merges t' = merges t
     ∨ ∃ m d r1, markFrom b n "" r = Ok (m, d, r1) ∧ m ≠ -1 ∧ m ≠ 0
         ∧ (m ∉ merges t) ∧ merges t' = merges t ++ [m])
  ∧ (branch t = b → t' = t ∧ branches r' = branches r)
  ∧ t' = Transaction_.set_merges (merges t') t.
Proof.
  unfold Transaction_.noteCopyFromBranch. intros H Hnd.
  apply bind_Ok in H as (? & _ & H).
  destruct (String.eqb_spec (branch t) b) as [Heq|Hne].
  - injection H as <- <-. split; [done|]. split; [by left|]. split; [done|].
    by destruct t.
  - apply bind_Ok in H as ([[mark d] r1] & Hmf & H).
    apply bind_Ok in H as (? & _ & H).
    destruct (Z.eqb_spec mark (-1)).
    { injection H as <- <-. split; [done|]. split; [by left|]. split; [done|]. by destruct t. }
    destruct (Z.eqb_spec mark 0).
    { injection H as <- <-. split; [done|]. split; [by left|]. split; [done|]. by destruct t. }
    destruct (bool_decide (mark ∈ merges t)) eqn:Ein.
    { injection H as <- <-. split; [done|]. split; [by left|]. split; [done|]. by destruct t. }
    apply bool_decide_eq_false in Ein. injection H as <- <-.
    cbn [merges Transaction_.set_merges]. split.
    + apply NoDup_app. split; [done|]. split; [|apply NoDup_singleton].
      intros y Hy Hy'. apply list_elem_of_singleton in Hy' as ->. done.
    + split; [right; by exists mark, d, r1|]. split; [done|]. done.
Qed.

Lemma noteCopyFromBranch_stages_once_witness :
  ∃ t' r', Transaction_.noteCopyFromBranch "refs/heads/master" 5 txn_topic_r2 demo_registry
           = Ok (t', r')
    ∧ merges t' = [4] ∧ NoDup (merges t').
Proof.
  destruct (Transaction_.noteCopyFromBranch "refs/heads/master" 5 txn_topic_r2 demo_registry)
    as [[t' r']|w] eqn:E; [|vm_compute in E; discriminate E].
  destruct (noteCopyFromBranch_stages_once _ _ _ _ _ _ E ltac:(constructor)) as (Hnd & _).
  exists t', r'. split; [done|]. split; [|done].
  vm_compute in E. by injection E as <- _.
Defined.

(** ** The process cache *)

Section ProcessCacheFacts.
Context {P : Type} `{EqDecision P}.

Lemma removeOne_sublist (repo : P) (l : list P) : removeOne repo l `sublist_of` l.
Proof.
  induction l as [|x l IH]; simpl; [done|].
  destruct (decide (x = repo)); [by apply sublist_cons | by apply sublist_skip].
Qed.

Lemma removeOne_NoDup (repo : P) (l : list P) :
  NoDup l → NoDup (removeOne repo l) ∧ repo ∉ removeOne repo l.
Proof.
  induction 1 as [|x l Hx Hnd IH]; simpl.
  - split; [constructor | apply not_elem_of_nil].
  - destruct (decide (x = repo)) as [->|Hne]; [done|].
    destruct IH as [IH1 IH2]. split.
    + constructor; [|done]. intros Hin. apply Hx.
      eapply elem_of_sublist; [exact Hin | apply removeOne_sublist].
    + rewrite not_elem_of_cons. split; [congruence | done].
Qed.

Lemma removeOne_length (repo : P) (l : list P) :
  (length (removeOne repo l) ≤ length l)%nat.
Proof. apply sublist_length, removeOne_sublist. Qed.

Lemma evict_spec (l : list P) :
  (evict l).1 ++ (evict l).2 = l
  ∧ (length (evict l).2 < maxSimultaneousProcesses)%nat
  ∧ ((length l < maxSimultaneousProcesses)%nat → (evict l).1 = []).
Proof.
  induction l as [|x l IH]; cbn [evict].
  - split; [done|]. split; [unfold maxSimultaneousProcesses; simpl; lia | done].
  - destruct (Nat.leb_spec maxSimultaneousProcesses (length (x :: l))) as [Hfull|Hroom].
    + destruct (evict l) as [closed rest]. cbn [fst snd] in *.
      destruct IH as (IH1 & IH2 & _). split; [simpl; by f_equal|].
      split; [done|]. intros. lia.
    + cbn [fst snd]. split; [done|]. split; [done|]. done.
Qed.

(** X3.  [ProcessCache::touch] keeps the cache a duplicate-free list of
    at most [maxSimultaneousProcesses] = 100 repositories with the
    touched one last (most recently used); the repositories it closes
    are the oldest ones, in order, never the touched one, and none at
    all while the cache holds fewer than 100. *)
Theorem touch_keeps_lru (repo : P) (cache closed cache' : list P) :
  NoDup cache →
  touch repo cache = (closed, cache') →
  NoDup cache'
  ∧ last cache' = Some repo
  ∧ (length cache' ≤ maxSimultaneousProcesses)%nat
  ∧ (repo ∉ closed)
  ∧ closed ++ cache' = removeOne repo cache ++ [repo]
  ∧ ((length cache < maxSimultaneousProcesses)%nat → closed = []).
Proof.
  intros Hnd. unfold touch.
  destruct (evict_spec (removeOne repo cache)) as (Happ & Hlen & Hnone).
  destruct (evict (removeOne repo cache)) as [cl rest]. cbn [fst snd] in *.
  intros [= <- <-].
  destruct (removeOne_NoDup repo cache Hnd) as [Hnd' Hnotin].
  rewrite <- Happ in Hnd', Hnotin.
  apply NoDup_app in Hnd' as (Hcl & Hdisj & Hrest).
  rewrite not_elem_of_app in Hnotin. destruct Hnotin as [Hn1 Hn2].
  split; [|split; [|split; [|split; [|split]]]].
  - apply NoDup_app. split; [done|]. split; [|apply NoDup_singleton].
    intros x Hx Hx'. apply list_elem_of_singleton in Hx' as ->. done.
  - apply last_snoc.
  - rewrite length_app. simpl. lia.
  - done.
  - by rewrite app_assoc, Happ.
  - intros Hlt. apply Hnone. pose proof (removeOne_length repo cache). lia.
Qed.

End ProcessCacheFacts.

Lemma touch_keeps_lru_witness :
  touch 101%nat (seq 1 100) = ([1%nat], seq 2 100)
  ∧ NoDup (seq 2 100) ∧ last (seq 2 100) = Some 101%nat.
Proof.
  assert (E : touch 101%nat (seq 1 100) = ([1%nat], seq 2 100)) by (vm_compute; reflexivity).
  destruct (touch_keeps_lru 101%nat (seq 1 100) [1%nat] (seq 2 100)
              (NoDup_seq 1 100) E) as (Hnd & Hlast & _).
  done.
Defined.

(** ** Strings: reversal, trimming and decimal numbers *)

Lemma rev_app_app (s a b : string) :
  String.rev_app s a +:+ b = String.rev_app s (a +:+ b).
Proof. revert a. induction s as [|c s IH]; intros a; [done|]. exact (IH (String c a)). Qed.

Lemma rev_app_rev_app (s a b : string) :
  String.rev_app (String.rev_app s a) b = String.rev_app a (s +:+ b).
Proof. revert a b. induction s as [|c s IH]; intros a b; [done|]. exact (IH (String c a) b). Qed.

Lemma rev_rev (s : string) : String.rev (String.rev s) = s.
Proof.
  unfold String.rev. rewrite rev_app_rev_app. exact (str_app_nil_r s).
Qed.

Lemma rev_app_append (s1 s2 a : string) :
  String.rev_app (s1 +:+ s2) a = String.rev_app s2 (String.rev_app s1 a).
Proof. revert a. induction s1 as [|c s1 IH]; intros a; [done|]. exact (IH (String c a)). Qed.

Lemma rev_append (s1 s2 : string) :
  String.rev (s1 +:+ s2) = String.rev s2 +:+ String.rev s1.
Proof.
  unfold String.rev. rewrite rev_app_append.
  by rewrite (rev_app_app s2 "" (String.rev_app s1 "")).
Qed.

Lemma is_digit_not_space (c : ascii) : is_digit c = true → Ascii.is_space c = false.
Proof.
  destruct c as [[] [] [] [] [] [] [] []]; vm_compute; congruence.
Qed.

Lemma is_digit_ne (c d : ascii) : is_digit c = true → is_digit d = false → Ascii.eqb c d = false.
Proof.
  intros Hc Hd. apply Ascii.eqb_neq. intros ->. congruence.
Qed.

Lemma str_snoc (s : string) :
  s ≠ "" → ∃ body c, s = body +:+ String c "".
Proof.
  induction s as [|a s IH]; [done|]. intros _.
  destruct s as [|b s].
  - by exists "", a.
  - destruct IH as (body & c & E); [done|].
    exists (String a body), c. exact (f_equal (String a) E).
Qed.

Lemma all_digits_app (s1 s2 : string) :
  all_digits (s1 +:+ s2) = all_digits s1 && all_digits s2.
Proof.
  induction s1 as [|c s1 IH]; [done|].
  change (is_digit c && all_digits (s1 +:+ s2)
          = is_digit c && all_digits s1 && all_digits s2).
  rewrite IH. by destruct (is_digit c).
Qed.

Lemma indexOf_app_None (c : ascii) (s1 s2 : string) :
  indexOf c s1 = None → indexOf c s2 = None → indexOf c (s1 +:+ s2) = None.
Proof.
  intros H1 H2. induction s1 as [|a s1 IH]; [done|].
  change (indexOf c (String a (s1 +:+ s2)) = None).
  cbn [indexOf] in *. destruct (Ascii.eqb a c); [done|].
  destruct (indexOf c s1); [done|]. by rewrite IH.
Qed.

Lemma all_digits_indexOf (c : ascii) (s : string) :
  is_digit c = false → all_digits s = true → indexOf c s = None.
Proof.
  intros Hc. induction s as [|a s IH]; [done|]. cbn [all_digits indexOf].
  intros [Ha Hs]%andb_prop. rewrite (is_digit_ne a c Ha Hc).
  by rewrite (IH Hs).
Qed.

Lemma before_char_None (c : ascii) (s : string) :
  indexOf c s = None → before_char c s = s.
Proof.
  induction s as [|a s IH]; [done|]. cbn [indexOf before_char].
  destruct (Ascii.eqb a c); [done|]. intros H.
  destruct (indexOf c s); [done|]. by rewrite IH.
Qed.

Lemma before_char_app (c : ascii) (s1 s2 : string) :
  indexOf c s1 = None → before_char c (s1 +:+ s2) = s1 +:+ before_char c s2.
Proof.
  induction s1 as [|a s1 IH]; [done|]. cbn [indexOf].
  change ((if Ascii.eqb a c then Some O else S <$> indexOf c s1) = None →
          (if Ascii.eqb a c then "" else String a (before_char c (s1 +:+ s2)))
          = String a (s1 +:+ before_char c s2)).
  destruct (Ascii.eqb a c); [done|]. intros H.
  destruct (indexOf c s1); [done|]. exact (f_equal (String a) (IH eq_refl)).
Qed.

Lemma strip_prefix_app (p s : string) : strip_prefix p (p +:+ s) = Some s.
Proof.
  induction p as [|a p IH]; [by destruct s|].
  change (strip_prefix (String a p) (String a (p +:+ s)) = Some s).
  cbn [strip_prefix]. by rewrite Ascii.eqb_refl.
Qed.

Lemma span_digits_app (d rest : string) :
  all_digits d = true →
  match rest with String c _ => is_digit c = false | EmptyString => True end →
  span_digits (d +:+ rest) = (d, rest).
Proof.
  intros Hd Hr. induction d as [|a d IH].
  - destruct rest as [|c rest]; [done|]. change (span_digits (String c rest) = ("", String c rest)).
    cbn [span_digits]. by rewrite Hr.
  - cbn [all_digits] in Hd. apply andb_prop in Hd as [Ha Hd].
    change (span_digits (String a (d +:+ rest)) = (String a d, rest)).
    cbn [span_digits]. rewrite Ha, (IH Hd). done.
Qed.

(** A text that starts and ends with a byte that is no white space, with
    one byte of white space behind it, is trimmed to itself. *)
Lemma trimmed_padded (a z w : ascii) (body : string) (pad : string) :
  Ascii.is_space a = false → Ascii.is_space z = false →
  pad = "" ∨ (pad = String w "" ∧ Ascii.is_space w = true) →
  trimmed (String a (body +:+ String z "") +:+ pad) = String a (body +:+ String z "").
Proof.
  intros Ha Hz Hpad. unfold trimmed.
  change (String a (body +:+ String z "") +:+ pad)
    with (String a ((body +:+ String z "") +:+ pad)).
  cbn [drop_space]. rewrite Ha.
  change (String a ((body +:+ String z "") +:+ pad))
    with (String a (body +:+ String z "") +:+ pad).
  rewrite rev_append.
  assert (Hr : String.rev (String a (body +:+ String z ""))
               = String z (String.rev (String a body))).
  { change (String a (body +:+ String z "")) with (String a body +:+ String z "").
    by rewrite rev_append. }
  rewrite Hr.
  assert (drop_space (String.rev pad +:+ String z (String.rev (String a body)))
          = String z (String.rev (String a body))) as ->.
  { destruct Hpad as [->|[-> Hw]].
    - change (drop_space (String z (String.rev (String a body))) = String z (String.rev (String a body))).
      cbn [drop_space]. by rewrite Hz.
    - change (drop_space (String w (String z (String.rev (String a body))))
              = String z (String.rev (String a body))).
      cbn [drop_space]. by rewrite Hw, Hz. }
  rewrite <- Hr. apply rev_rev.
Qed.

(** *** [number] *)

Lemma string_of_uint_digits (d : Decimal.uint) :
  all_digits (NilEmpty.string_of_uint d) = true.
Proof. induction d; cbn [NilEmpty.string_of_uint all_digits]; [done|..]; by rewrite IHd. Qed.

Lemma digits_value_acc (d : Decimal.uint) (p : positive) :
  digits_value (NilEmpty.string_of_uint d) (Z.pos p) = Z.pos (Pos.of_uint_acc d p).
Proof.
  revert p. induction d; intros p; cbn [NilEmpty.string_of_uint digits_value Pos.of_uint_acc];
    [done|..];
    match goal with
    | |- digits_value _ ?x = Z.pos (Pos.of_uint_acc _ ?q) =>
      replace x with (Z.pos q); [apply IHd|]
    end; vm_compute (Z.of_nat _); lia.
Qed.

Lemma digits_value_of_uint (d : Decimal.uint) :
  digits_value (NilEmpty.string_of_uint d) 0 = Z.of_N (Pos.of_uint d).
Proof.
  induction d; cbn [NilEmpty.string_of_uint digits_value Pos.of_uint];
    [done|exact IHd|..];
    match goal with
    | |- digits_value _ ?x = Z.of_N (N.pos (Pos.of_uint_acc _ ?q)) =>
      change x with (Z.pos q); apply digits_value_acc
    end.
Qed.

(** The decimal text of a number that is not negative: digits only, at
    least one, and [digits_value] reads the number back. *)
Lemma number_digits (n : Z) :
  0 ≤ n →
  number n ≠ "" ∧ all_digits (number n) = true ∧ digits_value (number n) 0 = n.
Proof.
  intros Hn. destruct n as [|p|p]; [done| |lia].
  unfold number. cbn [Z.to_int NilZero.string_of_int].
  pose proof (Unsigned.to_uint_nonnil p) as Hnil.
  assert (NilZero.string_of_uint (Pos.to_uint p) = NilEmpty.string_of_uint (Pos.to_uint p)) as ->.
  { unfold NilZero.string_of_uint. by destruct (Pos.to_uint p). }
  split_and!.
  - destruct (Pos.to_uint p); done.
  - apply string_of_uint_digits.
  - rewrite digits_value_of_uint, Unsigned.of_to. done.
Qed.

Lemma digits_trimmed (s : string) :
  s ≠ "" → all_digits s = true → trimmed s = s.
Proof.
  intros Hne Hd. destruct s as [|a s]; [done|].
  cbn [all_digits] in Hd. apply andb_prop in Hd as [Ha Hs].
  destruct s as [|b s].
  - unfold trimmed. cbn [drop_space]. rewrite (is_digit_not_space a Ha).
    change (String.rev (String a "")) with (String a ""). cbn [drop_space].
    by rewrite (is_digit_not_space a Ha).
  - destruct (str_snoc (String b s)) as (body & z & E); [done|].
    rewrite E in *. rewrite all_digits_app in Hs. apply andb_prop in Hs as [_ Hz].
    cbn [all_digits] in Hz. apply andb_prop in Hz as [Hz _].
    rewrite <- (str_app_nil_r (String a (body +:+ String z ""))) at 1.
    eapply (trimmed_padded a z z); [by apply is_digit_not_space..|by left].
Qed.

(** [toInt] reads back what [number] prints, within the range of an [int]. *)
Lemma toInt_number (n : Z) : 0 ≤ n ≤ 2147483647 → toInt (number n) = n.
Proof.
  intros [H0 H1]. destruct (number_digits n H0) as (Hne & Hd & Hv).
  unfold toInt. rewrite (digits_trimmed _ Hne Hd).
  destruct (number n) as [|a s] eqn:E; [done|].
  assert (Ha : is_digit a = true) by (cbn [all_digits] in Hd; by apply andb_prop in Hd as [? _]).
  assert ((let '(neg, ds) :=
             match String a s with
             | String "-"%char s' => (true, s')
             | String "+"%char s' => (false, s')
             | _ => (false, String a s)
             end in
           (neg, ds)) = (false, String a s)) as Hsign.
  { destruct a as [[] [] [] [] [] [] [] []]; try done; vm_compute in Ha; done. }
  revert Hsign.
  destruct (match String a s with
            | String "-"%char s' => (true, s')
            | String "+"%char s' => (false, s')
            | _ => (false, String a s)
            end) as [neg ds]. intros [= -> ->].
  rewrite Hd. cbn [isEmpty_str negb orb]. rewrite Hv.
  assert ((-2147483648 <=? n) && (n <=? 2147483647) = true) as ->; [|done].
  apply andb_true_intro. split; apply Z.leb_le; lia.
Qed.

Lemma all_digits_rev_app (s a : string) :
  all_digits (String.rev_app s a) = all_digits s && all_digits a.
Proof.
  revert a. induction s as [|c s IH]; intros a; [done|].
  cbn [String.rev_app all_digits]. rewrite IH. cbn [all_digits].
  by destruct (is_digit c), (all_digits s).
Qed.

Lemma all_digits_rev (s : string) : all_digits (String.rev s) = all_digits s.
Proof. unfold String.rev. rewrite all_digits_rev_app. cbn. by rewrite andb_true_r. Qed.

Lemma rev_nonempty (s : string) : s ≠ "" → String.rev s ≠ "".
Proof. intros Hs H. apply Hs. by rewrite <- (rev_rev s), H. Qed.

Lemma isEmpty_str_false (s : string) : s ≠ "" → isEmpty_str s = false.
Proof. by destruct s. Qed.

(** ** Progress lines *)

(** The text of a progress line matches the pattern of the log scan,
    with the captures it was printed from. *)
Lemma progress_exactMatch_line (n m : Z) (b : string) :
  0 ≤ n → 0 ≤ m →
  progress_exactMatch (progress_line n b m "") = Some (number n, b, number m).
Proof.
  intros Hn Hm.
  destruct (number_digits n Hn) as (Hn1 & Hn2 & _).
  destruct (number_digits m Hm) as (Hm1 & Hm2 & _).
  unfold progress_exactMatch, progress_line. rewrite str_app_nil_r.
  rewrite strip_prefix_app. cbn [mbind option_bind].
  rewrite (span_digits_app (number n) (" branch " +:+ b +:+ " = :" +:+ number m) Hn2 eq_refl).
  rewrite (isEmpty_str_false _ Hn1), strip_prefix_app. cbn [mbind option_bind].
  rewrite rev_append, rev_append, str_app_assoc.
  change (String.rev " = :") with ": = ".
  rewrite (span_digits_app (String.rev (number m)) (": = " +:+ String.rev b));
    [|by rewrite all_digits_rev|done].
  rewrite (isEmpty_str_false _ (rev_nonempty _ Hm1)), strip_prefix_app.
  cbn [mbind option_bind]. by rewrite !rev_rev.
Qed.

Lemma progress_line_split (n m : Z) (b suffix : string) :
  progress_line n b m suffix = progress_line n b m "" +:+ suffix.
Proof.
  unfold progress_line. by rewrite str_app_nil_r, !str_app_assoc.
Qed.

Lemma progress_line_shape (n m : Z) (b : string) :
  0 ≤ m →
  ∃ body z, progress_line n b m "" = String "p" (body +:+ String z "")
            ∧ is_digit z = true.
Proof.
  intros Hm. destruct (number_digits m Hm) as (Hm1 & Hm2 & _).
  destruct (str_snoc _ Hm1) as (body & z & E).
  exists ("rogress SVN r" +:+ number n +:+ " branch " +:+ b +:+ " = :" +:+ body), z.
  split.
  - unfold progress_line. rewrite str_app_nil_r, E. by rewrite !str_app_assoc.
  - rewrite E, all_digits_app in Hm2. apply andb_prop in Hm2 as [_ Hz].
    cbn [all_digits] in Hz. by apply andb_prop in Hz as [Hz _].
Qed.

Lemma progress_line_indexOf (c : ascii) (n m : Z) (b : string) :
  0 ≤ n → 0 ≤ m → is_digit c = false →
  indexOf c "progress SVN r" = None → indexOf c " branch " = None →
  indexOf c " = :" = None →
  indexOf c b = None →
  indexOf c (progress_line n b m "") = None.
Proof.
  intros Hn Hm Hc H1 H2 H3 Hb.
  destruct (number_digits n Hn) as (_ & Hn2 & _).
  destruct (number_digits m Hm) as (_ & Hm2 & _).
  unfold progress_line. rewrite str_app_nil_r.
  apply indexOf_app_None; [exact H1|].
  apply indexOf_app_None; [by apply all_digits_indexOf|].
  apply indexOf_app_None; [exact H2|].
  apply indexOf_app_None; [exact Hb|].
  apply indexOf_app_None; [exact H3|by apply all_digits_indexOf].
Qed.

(** The scan reads a progress line back as it was printed. *)
Lemma parse_progress_of_line (rev mark : Z) (b suffix : string) :
  0 ≤ rev ≤ 2147483647 → 0 ≤ mark ≤ 2147483647 →
  indexOf "#"%char b = None → indexOf "000"%char b = None →
  (suffix = "" ∨ ∃ c, suffix = " #" +:+ c) →
  parse_progress (progress_line rev b mark suffix +:+ LF) = Some (rev, b, mark).
Proof.
  intros Hn Hm Hhash Hnul Hsuf.
  destruct (progress_line_shape rev mark b) as (body & z & Eshape & Hz); [lia|].
  assert (Hcut : ∃ pad w, before_char "#" (progress_line rev b mark suffix +:+ LF)
                        = progress_line rev b mark "" +:+ pad
                        ∧ (pad = String w "" ∧ Ascii.is_space w = true)).
  { rewrite progress_line_split, str_app_assoc.
    rewrite before_char_app
      by (apply progress_line_indexOf; [lia|lia|done..]).
    destruct Hsuf as [->|[c ->]].
    - by exists LF, "010"%char.
    - by exists " ", " "%char. }
  destruct Hcut as (pad & w & Hcut & Hpad).
  unfold parse_progress. rewrite Hcut, Eshape.
  rewrite (trimmed_padded "p" z w body pad eq_refl (is_digit_not_space z Hz) (or_intror Hpad)).
  rewrite <- Eshape.
  rewrite (isEmpty_str_false (progress_line rev b mark ""))
    by (rewrite Eshape; done).
  unfold to_QString. rewrite before_char_None
    by (apply progress_line_indexOf; [lia|lia|done..]).
  rewrite progress_exactMatch_line by lia. cbn [mbind option_bind].
  by rewrite !toInt_number.
Qed.

(** X4.  The progress line of a commit or of a reset, as the child
    echoes it into the log, is read back by the scan of
    [setupIncremental] as the revision, the branch and the mark it was
    printed from: revision and mark within the range of an [int] and
    not negative, the ref without a hash sign and without a NUL byte,
    and nothing or a comment after the mark.  The last chunk of a commit
    block and the command of a reset carry that line. *)
Theorem progress_line_round_trip (rev mark : Z) (b suffix : string) :
  0 ≤ rev ≤ 2147483647 → 0 ≤ mark ≤ 2147483647 →
  indexOf "#"%char b = None → indexOf "000"%char b = None →
  (suffix = "" ∨ ∃ c, suffix = " #" +:+ c) →
  parse_progress (progress_line rev b mark suffix +:+ LF) = Some (rev, b, mark)
  ∧ (∀ t desc, revnum t = rev → branch t = b →
       last (Transaction_.commit_files t mark desc)
       = Some (LF +:+ progress_line rev b mark
                 (if isEmpty_str desc then "" else " # merge from" +:+ desc)
               +:+ LF +:+ LF))
  ∧ (∀ resetTo comment,
       reset_command b rev mark resetTo comment
       = "reset " +:+ b +:+ LF +:+ "from " +:+ resetTo +:+ LF +:+ LF
         +:+ progress_line rev b mark (" # " +:+ comment) +:+ LF +:+ LF).
Proof.
  intros Hn Hm Hhash Hnul Hsuf. split_and!.
  - by apply parse_progress_of_line.
  - intros t desc <- <-. unfold Transaction_.commit_files.
    rewrite last_app. cbn [last].
    f_equal. unfold progress_line. destruct (isEmpty_str desc) eqn:Ed.
    + destruct desc; [|done]. by rewrite !str_app_assoc.
    + by rewrite !str_app_assoc.
  - intros resetTo comment. unfold reset_command, progress_line.
    by rewrite !str_app_assoc.
Qed.

Lemma progress_line_round_trip_witness :
  parse_progress (progress_line 4 "refs/heads/topic" 9 " # merge from :2" +:+ LF)
  = Some (4, "refs/heads/topic", 9).
Proof.
  apply (progress_line_round_trip 4 9 "refs/heads/topic" " # merge from :2");
    [lia|lia|reflexivity|reflexivity|].
  right. by exists " merge from :2".
Defined.

(** ** Live operations and their replay *)

Lemma last_nonzero_nil_false (v : list Z) : isEmpty v = true → last_nonzero v = false.
Proof. by destruct v. Qed.

Lemma setBranchNote_logged_part (b nt : string) (r : Repository) (k : string) :
  logged_part <$> branches (setBranchNote b nt r) !! k = logged_part <$> branches r !! k.
Proof.
  unfold setBranchNote. destruct (branches r !! b) as [br|] eqn:E; [|done].
  cbn [branches set_branches]. destruct (decide (b = k)) as [<-|Hne].
  - by rewrite lookup_insert_eq, E.
  - by rewrite lookup_insert_ne.
Qed.

Lemma commitNote_logged_part (txt : string) (ap : bool) (c : option string)
    (t : Transaction) (r r' : Repository) (k : string) :
  Transaction_.commitNote txt ap c t r = Ok r' →
  logged_part <$> branches r' !! k = logged_part <$> branches r !! k.
Proof.
  unfold Transaction_.commitNote. intros H. apply bind_Ok in H as (? & _ & H).
  match type of H with (let '(_, _) := ?x in _) = _ => destruct x as [text msg] end.
  injection H as <-. destruct (bool_decide (c = None)); [|done].
  match goal with |- context [setBranchNote ?b ?n (write ?s r)] =>
    apply (setBranchNote_logged_part b n (write s r)) end.
Qed.

(** The record a commit leaves under its branch. *)
Lemma commit_branch_branches (t : Transaction) (mark : Z) (r : Repository) :
  let br := record r (branch t) in
  branches (Transaction_.commit_branch t mark r).2
  = <[branch t := mkBranch (if negb (created br =? 0) && last_nonzero (marks br)
                            then created br else revnum t)
                    (commits br ++ [revnum t]) (marks br ++ [mark]) (note br)]>
      (branches r)
  ∧ last_commit_mark (Transaction_.commit_branch t mark r).2 = last_commit_mark r.
Proof.
  cbv zeta. unfold Transaction_.commit_branch, record.
  rewrite <- (branches_index_record (branches r) (branch t)).
  assert (Hidx : ∀ y, <[branch t := y]> (branches_index (branches r) (branch t)).2
                      = <[branch t := y]> (branches r)).
  { intros y. unfold branches_index. destruct (branches r !! branch t); [done|].
    cbn [snd]. apply insert_insert_eq. }
  destruct (branches_index (branches r) (branch t)) as [br bs]. cbn [fst snd] in *.
  rewrite <- Hidx.
  destruct (negb (created br =? 0) && last_nonzero (marks br)); [done|].
  by destruct (incremental r).
Qed.

(** The registry a commit leaves: the commit counter is one up, and the
    record of the branch has the revision and the new mark appended. *)
Lemma commit_registry (o : Options) (t : Transaction) (r : Repository)
    (t' : Transaction) (r' : Repository) :
  Transaction_.commit o t r = Ok (t', r') →
  let br := record r (branch t) in
  last_commit_mark r' = last_commit_mark r + 1
  ∧ ∀ k, logged_part <$> branches r' !! k
         = logged_part <$>
             (<[branch t := mkBranch (if negb (created br =? 0) && last_nonzero (marks br)
                                      then created br else revnum t)
                              (commits br ++ [revnum t])
                              (marks br ++ [last_commit_mark r + 1]) (note br)]>
                (branches r)) !! k.
Proof.
  intros H. cbv zeta.
  pose proof (commit_counters o t r t' r' H) as [Hc _]. split; [done|].
  apply commit_Ok in H as (r1 & out & desc & ms & warn & Hr1 & _ & _ & H).
  cbv zeta in H. destruct H as (_ & _ & H).
  apply startFastImport_Ok in Hr1 as [Hs _].
  pose proof (same_but_process_branches _ _ Hs) as Hb.
  pose proof (same_but_process_counters _ _ Hs) as Hcs.
  injection Hcs as Hl1 _.
  set (mark := last_commit_mark r1 + 1) in *.
  destruct (commit_branch_branches t mark (set_last_commit_mark mark r1)) as [Hpr _].
  unfold record in Hpr. cbn [branches set_last_commit_mark] in Hpr.
  rewrite Hb in Hpr. fold (record r (branch t)) in Hpr.
  set (pr := Transaction_.commit_branch t mark (set_last_commit_mark mark r1)) in *.
  set (r2 := write_all out (write (Transaction_.commit_header o t mark) pr.2)) in *.
  set (r3 := if warn then log_msg Warn _ r2 else r2) in *.
  set (r4 := write_all _ r3) in *.
  assert (H4 : branches r4 = branches (pr.2)).
  { subst r4. rewrite (same_but_process_branches _ _ (write_all_same _ _)).
    transitivity (branches r2); [subst r3; by destruct warn|].
    subst r2. rewrite (same_but_process_branches _ _ (write_all_same _ _)). done. }
  assert (Hk : ∀ k, logged_part <$> branches r' !! k = logged_part <$> branches r4 !! k).
  { destruct (add_metadata_notes o).
    - intros k. by eapply commitNote_logged_part.
    - by injection H as <-. }
  intros k. rewrite Hk, H4, Hpr. subst mark. by rewrite Hl1.
Qed.

(** The registry the replay of a progress line leaves. *)
Lemma replay_progress_branches (n : Z) (b : string) (m : Z) (r : Repository) :
  let br := record r b in
  branches (replay_progress n b m r)
  = <[b := mkBranch (if negb (created br =? 0) && last_nonzero (marks br) && negb (m =? 0)
                     then created br else n)
             (commits br ++ [n]) (marks br ++ [m]) (note br)]> (branches r)
  ∧ last_commit_mark (replay_progress n b m r) = Z.max (last_commit_mark r) m.
Proof.
  cbv zeta. unfold replay_progress, record.
  assert (Hidx : ∀ y, <[b := y]> (branches_index (branches r) b).2 = <[b := y]> (branches r)).
  { intros y. unfold branches_index. destruct (branches r !! b); [done|].
    cbn [snd]. apply insert_insert_eq. }
  rewrite <- branches_index_record.
  set (r0 := if last_commit_mark r <? m then set_last_commit_mark m r else r).
  assert (Hb : branches r0 = branches r) by (subst r0; by destruct (_ <? _)).
  assert (Hl : last_commit_mark r0 = Z.max (last_commit_mark r) m).
  { subst r0. destruct (Z.ltb_spec (last_commit_mark r) m); cbn; lia. }
  rewrite Hb.
  destruct (branches_index (branches r) b) as [br bs]. cbn [fst snd] in *.
  cbn [branches set_branches last_commit_mark]. rewrite Hidx. split.
  - do 2 f_equal.
    destruct (created br =? 0); [done|]. cbn [negb andb orb].
    destruct (m =? 0); [by rewrite andb_false_r|]. cbn [orb negb].
    destruct (isEmpty (marks br)) eqn:Ee; [by rewrite last_nonzero_nil_false|].
    by destruct (last_nonzero (marks br)).
  - rewrite <- Hl. by destruct r0.
Qed.

(** X5.  A commit and the replay of its progress line agree: on a
    repository whose commit counter is not negative, [Transaction::commit]
    leaves under every ref a record with the creation revision, the
    commits and the marks that the replay of the line (revision, branch,
    new mark) by [setupIncremental] gives, and the same commit counter. *)
Theorem commit_agrees_with_replay (o : Options) (t : Transaction) (r : Repository)
    (t' : Transaction) (r' : Repository) :
  0 ≤ last_commit_mark r →
  Transaction_.commit o t r = Ok (t', r') →
  let r0 := replay_progress (revnum t) (branch t) (last_commit_mark r + 1) r in
  last_commit_mark r' = last_commit_mark r + 1
  ∧ last_commit_mark r0 = last_commit_mark r'
  ∧ ∀ k, logged_part <$> branches r' !! k = logged_part <$> branches r0 !! k.
Proof.
  intros Hpos H. cbv zeta.
  destruct (commit_registry o t r t' r' H) as [Hl Hk].
  destruct (replay_progress_branches (revnum t) (branch t) (last_commit_mark r + 1) r)
    as [Hb Hm].
  split; [done|]. split; [rewrite Hm, Hl; lia|].
  intros k. rewrite Hk, Hb.
  assert ((last_commit_mark r + 1 =? 0) = false) as -> by (apply Z.eqb_neq; lia).
  cbn [negb]. by rewrite andb_true_r.
Qed.

Lemma commit_agrees_with_replay_witness :
  ∃ t' r',
    Transaction_.commit demo_options txn_master_r1 fresh = Ok (t', r')
    ∧ last_commit_mark r' = 1
    ∧ ∀ k, logged_part <$> branches r' !! k
           = logged_part <$> branches (replay_progress 1 "refs/heads/master" 1 fresh) !! k.
Proof.
  destruct (Transaction_.commit demo_options txn_master_r1 fresh) as [[t' r']|why] eqn:E;
    [|vm_compute in E; discriminate E].
  exists t', r'. split; [done|].
  destruct (commit_agrees_with_replay demo_options txn_master_r1 fresh t' r') as (H1 & _ & H3);
    [vm_compute; discriminate|exact E|].
  split; [exact H1|exact H3].
Defined.

(** X6.  A reset and the replay of its progress line: [resetBranch]
    appends to the record of its ref the revision and the mark that the
    replay of the line appends, and leaves the other records alone, as
    the replay does; the creation revision is the revision of the reset,
    where the replay keeps the old one when the record was created, ended
    in a non-zero mark and the mark of the line is not 0. *)
Theorem resetBranch_agrees_with_replay (b : string) (n m : Z) (to c : string)
    (r r' : Repository) :
  resetBranch b n m to c r = Ok r' →
  let r0 := replay_progress n b m r in
  let br := record r b in
  (∀ k, commits <$> branches r' !! k = commits <$> branches r0 !! k)
  ∧ (∀ k, marks <$> branches r' !! k = marks <$> branches r0 !! k)
  ∧ (∀ k, k ≠ b → branches r' !! k = branches r !! k)
  ∧ created (record r' b) = n
  ∧ created (record r0 b)
    = (if negb (created br =? 0) && last_nonzero (marks br) && negb (m =? 0)
       then created br else n)
  ∧ commits (record r' b) = commits br ++ [n]
  ∧ marks (record r' b) = marks br ++ [m].
Proof.
  intros H.
  assert (Href : startsWith b "refs/" = true).
  { unfold resetBranch in H. apply bind_Ok in H as (? & Ha & _).
    by apply Q_ASSERT_Ok in Ha. }
  destruct (resetBranch_Ok b n m to c r Href) as (r'' & E & Hbr & _).
  rewrite E in H. injection H as ->. cbv zeta.
  destruct (replay_progress_branches n b m r) as [Hr0 _].
  fold (record r b) in Hbr.
  assert (Hrec' : record r' b
                  = mkBranch n (commits (record r b) ++ [n]) (marks (record r b) ++ [m])
                      (note (record r b))).
  { unfold record at 1. by rewrite Hbr, lookup_insert_eq. }
  assert (Hrec0 : record (replay_progress n b m r) b
                  = mkBranch
                      (if negb (created (record r b) =? 0)
                          && last_nonzero (marks (record r b)) && negb (m =? 0)
                       then created (record r b) else n)
                      (commits (record r b) ++ [n]) (marks (record r b) ++ [m])
                      (note (record r b))).
  { unfold record at 1. by rewrite Hr0, lookup_insert_eq. }
  split_and!.
  - intros k. rewrite Hbr, Hr0. destruct (decide (b = k)) as [<-|Hne].
    + by rewrite !lookup_insert_eq.
    + by rewrite !lookup_insert_ne.
  - intros k. rewrite Hbr, Hr0. destruct (decide (b = k)) as [<-|Hne].
    + by rewrite !lookup_insert_eq.
    + by rewrite !lookup_insert_ne.
  - intros k Hk. by rewrite Hbr, lookup_insert_ne.
  - by rewrite Hrec'.
  - by rewrite Hrec0.
  - by rewrite Hrec'.
  - by rewrite Hrec'.
Qed.

Lemma resetBranch_agrees_with_replay_witness :
  ∃ r', resetBranch "refs/heads/master" 12 7 ":7" "from branch x" demo_registry = Ok r'
    ∧ created (record r' "refs/heads/master") = 12
    ∧ created (record (replay_progress 12 "refs/heads/master" 7 demo_registry)
                 "refs/heads/master") = 1
    ∧ commits (record r' "refs/heads/master") = [2; 5; 9; 12].
Proof.
  destruct (resetBranch "refs/heads/master" 12 7 ":7" "from branch x" demo_registry)
    as [r'|why] eqn:E; [|vm_compute in E; discriminate E].
  exists r'. split; [done|].
  destruct (resetBranch_agrees_with_replay _ _ _ _ _ _ _ E) as (_ & _ & _ & H1 & H2 & H3 & _).
  split; [exact H1|]. split; [exact H2|exact H3].
Defined.

(** ** The registry after a scan of the log *)

Lemma replay_progress_record (n : Z) (b : string) (m : Z) (r : Repository) (k : string) :
  let r1 := replay_progress n b m r in
  commits (record r1 k) = commits (record r k) ++ (if String.eqb b k then [n] else [])
  ∧ marks (record r1 k) = marks (record r k) ++ (if String.eqb b k then [m] else [])
  ∧ note (record r1 k) = note (record r k)
  ∧ (is_Some (branches r1 !! k) ↔ is_Some (branches r !! k) ∨ b = k)
  ∧ last_commit_mark r1 = Z.max (last_commit_mark r) m.
Proof.
  cbv zeta. unfold replay_progress, record.
  set (r0 := if last_commit_mark r <? m then set_last_commit_mark m r else r).
  assert (Hb : branches r0 = branches r) by (subst r0; by destruct (_ <? _)).
  assert (Hl : last_commit_mark r0 = Z.max (last_commit_mark r) m).
  { subst r0. destruct (Z.ltb_spec (last_commit_mark r) m); cbn; lia. }
  rewrite Hb.
  assert (Hidx : ∀ x, <[b := x]> (branches_index (branches r) b).2 = <[b := x]> (branches r)).
  { intros x. unfold branches_index. destruct (branches r !! b); [done|].
    cbn [snd]. apply insert_insert_eq. }
  pose proof (branches_index_record (branches r) b) as Hrec.
  destruct (branches_index (branches r) b) as [br bs]. cbn [fst snd] in *.
  cbn [branches set_branches last_commit_mark]. rewrite Hidx.
  destruct (String.eqb_spec b k) as [<-|Hne].
  - rewrite lookup_insert_eq. cbn. rewrite Hrec.
    split_and!; try done; try (by destruct r0).
    split; [by right|by eexists].
  - rewrite lookup_insert_ne by done. rewrite !app_nil_r.
    split_and!; try done; try (by destruct r0).
    split; [by left|]. by intros [?|?].
Qed.

Lemma foldl_log_msg_frame (msgs : list (LogLevel * string)) (r : Repository) :
  branches (foldl (fun r m => log_msg m.1 m.2 r) r msgs) = branches r
  ∧ last_commit_mark (foldl (fun r m => log_msg m.1 m.2 r) r msgs) = last_commit_mark r.
Proof.
  revert r. induction msgs as [|m msgs IH]; intros r; [done|].
  exact (IH (log_msg m.1 m.2 r)).
Qed.

Lemma replayed_for_cons (b raw : string) (rest : list string) :
  replayed_for b (raw :: rest)
  = match parse_progress raw with
    | Some (rev, b', mark) =>
      if String.eqb b' b then (rev, mark) :: replayed_for b rest
      else replayed_for b rest
    | None => replayed_for b rest
    end.
Proof.
  unfold replayed_for. cbn [omap list_omap].
  destruct (parse_progress raw) as [[[rev b'] mark]|]; [|done].
  by destruct (String.eqb b' b).
Qed.

Lemma setupIncremental_loop_rebuild (lines : list string) (pos : nat)
    (cutoff M last : Z) (r : Repository) :
  replayable cutoff M lines →
  let r' := (setupIncremental_loop lines pos cutoff M last r).2 in
  (∀ b, commits (record r' b) = commits (record r b) ++ (replayed_for b lines).*1
        ∧ marks (record r' b) = marks (record r b) ++ (replayed_for b lines).*2
        ∧ note (record r' b) = note (record r b)
        ∧ (is_Some (branches r' !! b)
           ↔ is_Some (branches r !! b) ∨ replayed_for b lines ≠ []))
  ∧ last_commit_mark r ≤ last_commit_mark r' ≤ Z.max (last_commit_mark r) M.
Proof.
  intros H. revert pos last r. induction H as [|raw rest Hraw _ IH]; intros pos last r.
  - cbn. split; [|lia]. intros b. rewrite !app_nil_r. split_and!; try done.
    split; [by left|]. by intros [?|?].
  - cbn [setupIncremental_loop].
    destruct (parse_progress raw) as [[[rev br] mark]|] eqn:Ep.
    2:{ cbv zeta. setoid_rewrite replayed_for_cons. rewrite Ep. apply IH. }
    destruct Hraw as [Hrev Hmark].
    rewrite (proj2 (Z.leb_gt cutoff rev)) by lia.
    rewrite (proj2 (Z.ltb_ge M mark)) by lia.
    set (r0 := if rev <? last then log_msg Warn _ r else r).
    assert (Hr0 : replay_progress rev br mark r0
                  = replay_progress rev br mark r
                  ∨ (branches r0 = branches r ∧ last_commit_mark r0 = last_commit_mark r)).
    { right. subst r0. by destruct (rev <? last). }
    assert (Hrec0 : ∀ k, record r0 k = record r k)
      by (intros k; unfold record; subst r0; by destruct (rev <? last)).
    assert (Hb0 : branches r0 = branches r) by (subst r0; by destruct (rev <? last)).
    assert (Hl0 : last_commit_mark r0 = last_commit_mark r)
      by (subst r0; by destruct (rev <? last)).
    clear Hr0.
    specialize (IH (pos + String.length raw)%nat rev (replay_progress rev br mark r0)).
    cbv zeta in IH. destruct IH as [IHb IHl]. cbv zeta.
    split.
    + intros b. destruct (IHb b) as (Hc & Hm & Hn & Hs).
      destruct (replay_progress_record rev br mark r0 b) as (Sc & Sm & Sn & Ss & _).
      rewrite Hc, Hm, Hn, Sc, Sm, Sn, !Hrec0.
      rewrite replayed_for_cons, Ep.
      destruct (String.eqb_spec br b) as [->|Hne].
      * cbn [fmap list_fmap fst snd]. rewrite <- !app_assoc. split_and!; try done.
        rewrite Hs, Ss. split; [by right|]. intros _. left. by right.
      * rewrite !app_nil_r. split_and!; try done.
        rewrite Hs, Ss, Hb0. split; [intros [[?|?]|?]; by auto|]. intros [?|?]; auto.
    + destruct (replay_progress_record rev br mark r0 "") as (_ & _ & _ & _ & Sl).
      rewrite Sl, Hl0 in IHl. lia.
Qed.

(** X7.  What a clean scan of the log rebuilds: when every progress
    line of the log is before the cutoff and carries a mark the marks
    file knows, [setupIncremental] returns the revision after the last
    progress line and leaves, under every ref, the record the repository
    had, with the revisions and the marks of the progress lines of that
    ref appended in the order of the log; the note of a record is not
    restored; a ref is known afterwards exactly when it was known before
    or has a progress line; the commit counter does not go back and does
    not pass the last valid mark unless it did before. *)
Theorem setupIncremental_rebuilds_registry (cutoff : Z) (fs : FileSystem)
    (r : Repository) (content : string) (M : Z) (msgs : list (LogLevel * string)) :
  fs !! logFileName (name r) = Some content →
  lastValidMark (name r) fs = Ok (M, msgs) →
  replayable cutoff M (readLines content) →
  ∃ fs' r',
    setupIncremental cutoff fs r
    = Ok (last_progress_rev 0 (readLines content) + 1, cutoff, fs', r')
    ∧ (∀ b, commits (record r' b)
            = commits (record r b) ++ (replayed_for b (readLines content)).*1
          ∧ marks (record r' b)
            = marks (record r b) ++ (replayed_for b (readLines content)).*2
          ∧ note (record r' b) = note (record r b)
          ∧ (is_Some (branches r' !! b)
             ↔ is_Some (branches r !! b) ∨ replayed_for b (readLines content) ≠ []))
    ∧ last_commit_mark r ≤ last_commit_mark r' ≤ Z.max (last_commit_mark r) M.
Proof.
  intros Hlog Hmarks Hall. unfold setupIncremental. rewrite Hlog, Hmarks.
  cbn [mbind Res_bind]. set (r0 := foldl _ r msgs).
  destruct (foldl_log_msg_frame msgs r) as [Hb0 Hl0]. fold r0 in Hb0, Hl0.
  pose proof (setupIncremental_loop_rebuild (readLines content) 0 cutoff M 0 r0 Hall) as Hre.
  destruct (setupIncremental_loop_replayable (readLines content) [] 0 cutoff M 0 r0 Hall)
    as (r1 & E & _).
  rewrite E in Hre |- *. cbv zeta in Hre. cbn [snd] in Hre.
  do 2 eexists. split; [reflexivity|].
  unfold record in *. rewrite Hb0, Hl0 in Hre. exact Hre.
Qed.

Lemma setupIncremental_rebuilds_registry_witness :
  ∃ fs' r',
    setupIncremental 100 fs_stale_backup fresh = Ok (4, 100, fs', r')
    ∧ commits (record r' "refs/heads/master") = [3]
    ∧ marks (record r' "refs/heads/master") = [5].
Proof.
  destruct (setupIncremental_rebuilds_registry 100 fs_stale_backup fresh log_line_r3 7 []
              eq_refl eq_refl ltac:(repeat constructor; vm_compute; done))
    as (fs' & r' & E & Hb & _).
  exists fs', r'. split; [exact E|].
  destruct (Hb "refs/heads/master") as (Hc & Hm & _).
  split; [exact Hc | exact Hm].
Defined.

(** ** Annotated tags *)

Lemma same_registry_refl (r : Repository) : same_registry r r.
Proof. by repeat split. Qed.

Lemma same_registry_trans (r1 r2 r3 : Repository) :
  same_registry r1 r2 → same_registry r2 r3 → same_registry r1 r3.
Proof.
  unfold same_registry. intros (A1 & A2 & A3 & A4) (B1 & B2 & B3 & B4).
  split; [congruence|]. split; [congruence|]. split; [congruence|].
  intros k. by rewrite B4.
Qed.

Lemma same_but_process_registry (r r' : Repository) :
  same_but_process r r' → same_registry r r'.
Proof.
  unfold same_but_process, same_registry. intros H. destruct_and!.
  split_and!; try done. intros k. congruence.
Qed.

Lemma commitNote_registry (txt : string) (ap : bool) (c : option string)
    (t : Transaction) (r r' : Repository) :
  Transaction_.commitNote txt ap c t r = Ok r' →
  same_registry r r' ∧ commitCount r' = commitCount r
  ∧ running r' = running r.
Proof.
  intros H. pose proof (commitNote_counters _ _ _ _ _ _ H) as Hc. injection Hc as Hl _.
  assert (Hk := λ k, commitNote_logged_part txt ap c t r r' k H).
  unfold Transaction_.commitNote in H. apply bind_Ok in H as (? & _ & H).
  match type of H with (let '(_, _) := ?x in _) = _ => destruct x as [text msg] end.
  injection H as <-. unfold same_registry.
  destruct (bool_decide (c = None)); [|by split_and!].
  unfold setBranchNote in *. cbn [branches write] in *.
  destruct (branches r !! branch t); by split_and!.
Qed.

Lemma newTransaction_registry (o : Options) (b p : string) (n : Z)
    (r : Repository) (t : Transaction) (r' : Repository) :
  newTransaction o b p n r = Ok (t, r') →
  same_registry r r'
  ∧ outstandingTransactions r' = outstandingTransactions r + 1
  ∧ commitCount r' = commitCount r + 1
  ∧ next_file_mark r' = next_file_mark r
  ∧ (running r = true → running r' = true)
  ∧ branch t = b.
Proof.
  unfold newTransaction. intros H.
  apply bind_Ok in H as (? & _ & H). apply bind_Ok in H as (r1 & Hr1 & H).
  injection H as <- <-. cbn [branch].
  destruct (commit_interval o =? 0); [done|].
  destruct (Z.rem _ _ =? 0).
  - apply bind_Ok in Hr1 as (r2 & Hr2 & Hr1). injection Hr1 as <-.
    apply startFastImport_Ok in Hr2 as (Hs & Hrun & _).
    pose proof (same_but_process_registry _ _ Hs) as Hreg.
    unfold same_but_process in Hs. destruct_and!.
    cbn in *. split_and!; try done; cbn; try congruence.
  - injection Hr1 as <-. split_and!; try done.
Qed.

Lemma forgetTransaction_registry (r : Repository) :
  same_registry r (forgetTransaction r)
  ∧ outstandingTransactions (forgetTransaction r) = outstandingTransactions r - 1
  ∧ commitCount (forgetTransaction r) = commitCount r
  ∧ next_file_mark (forgetTransaction r)
    = (if outstandingTransactions r - 1 =? 0 then maxMark else next_file_mark r)
  ∧ running (forgetTransaction r) = running r.
Proof.
  unfold forgetTransaction. cbn [outstandingTransactions set_outstandingTransactions].
  destruct (outstandingTransactions r - 1 =? 0); by split_and!.
Qed.

Lemma finalize_tag_frame (o : Options) (tagName : string) (tag : AnnotatedTag)
    (r r' : Repository) :
  finalize_tag o tagName tag r = Ok r' →
  same_registry r r'
  ∧ outstandingTransactions r' = outstandingTransactions r
  ∧ commitCount r' = commitCount r + (if add_metadata_notes o then 1 else 0)
  ∧ next_file_mark r'
    = (if add_metadata_notes o && (outstandingTransactions r =? 0)
       then maxMark else next_file_mark r)
  ∧ (running r = true → running r' = true).
Proof.
  unfold finalize_tag. intros H. apply bind_Ok in H as (? & _ & H).
  set (r1 := write LF _) in H.
  assert (H1 : same_registry r r1 ∧ outstandingTransactions r1 = outstandingTransactions r
               ∧ commitCount r1 = commitCount r ∧ next_file_mark r1 = next_file_mark r
               ∧ running r1 = running r) by (by split_and!).
  destruct H1 as (A1 & A2 & A3 & A4 & A5).
  destruct (add_metadata_notes o); cbn [andb].
  - apply bind_Ok in H as ([txn r2] & Hnew & H).
    apply bind_Ok in H as (r3 & Hnote & H). injection H as <-.
    apply newTransaction_registry in Hnew as (B1 & B2 & B3 & B4 & B5 & _).
    pose proof (commitNote_outstanding _ _ _ _ _ _ Hnote) as C2.
    pose proof (commitNote_counters _ _ _ _ _ _ Hnote) as C4. injection C4 as _ C4.
    apply commitNote_registry in Hnote as (C1 & C3 & C5).
    destruct (forgetTransaction_registry r3) as (D1 & D2 & D3 & D4 & D5).
    split_and!.
    + eauto using same_registry_trans.
    + lia.
    + lia.
    + rewrite D4. replace (outstandingTransactions r3 - 1) with (outstandingTransactions r) by lia.
      destruct (outstandingTransactions r =? 0); [done|]. congruence.
    + intros Hr. rewrite D5, C5. apply B5. congruence.
  - injection H as <-. split_and!; try done; try lia; try congruence.
Qed.

Lemma finalize_tags_loop_frame (o : Options) (tags : list (string * AnnotatedTag))
    (r r' : Repository) :
  finalize_tags_loop o tags r = Ok r' →
  same_registry r r'
  ∧ outstandingTransactions r' = outstandingTransactions r
  ∧ commitCount r'
    = commitCount r + (if add_metadata_notes o then Z.of_nat (length tags) else 0)
  ∧ next_file_mark r'
    = (if add_metadata_notes o && (outstandingTransactions r =? 0) && negb (isEmpty tags)
       then maxMark else next_file_mark r)
  ∧ (running r = true → running r' = true)
  ∧ Forall (fun kt => startsWith (supportingRef kt.2) "refs/" = true) tags.
Proof.
  revert r. induction tags as [|[n tag] tags IH]; intros r H.
  - injection H as <-. rewrite andb_false_r.
    split_and!; try done; destruct (add_metadata_notes o); cbn; lia.
  - cbn [finalize_tags_loop] in H. apply bind_Ok in H as (r1 & H1 & H).
    assert (Href : startsWith (supportingRef tag) "refs/" = true).
    { unfold finalize_tag in H1. apply bind_Ok in H1 as (? & Ha & _).
      by apply Q_ASSERT_Ok in Ha. }
    apply finalize_tag_frame in H1 as (A1 & A2 & A3 & A4 & A5).
    apply IH in H as (B1 & B2 & B3 & B4 & B5 & B6).
    split_and!.
    + eauto using same_registry_trans.
    + lia.
    + rewrite B3, A3. cbn [length]. destruct (add_metadata_notes o); lia.
    + rewrite B4, A2, A4. cbn [isEmpty negb]. rewrite andb_true_r.
      destruct (add_metadata_notes o && (outstandingTransactions r =? 0)); [|done].
      by destruct (negb (isEmpty tags)).
    + auto.
    + by constructor.
Qed.

(** X8.  What the tags cost: [finalizeTags] allocates no commit mark,
    appends nothing to a branch record (creation revision, commits and
    marks stay under every ref), leaves the pending resets and the count
    of outstanding transactions as they were, and counts one transaction
    per tag when notes are written; the blob counter is reset exactly
    when notes are written for at least one tag with no transaction
    outstanding; with no tag the repository is left as it is and the
    child is not started; it runs through only if every tag hangs on a
    ref that starts with [refs/]. *)
Theorem finalizeTags_frame (o : Options) (tags : gmap string AnnotatedTag)
    (r r' : Repository) :
  finalizeTags o tags r = Ok r' →
  same_registry r r'
  ∧ outstandingTransactions r' = outstandingTransactions r
  ∧ commitCount r'
    = commitCount r + (if add_metadata_notes o then Z.of_nat (size tags) else 0)
  ∧ next_file_mark r'
    = (if add_metadata_notes o && (outstandingTransactions r =? 0)
          && negb (bool_decide (tags = ∅))
       then maxMark else next_file_mark r)
  ∧ (tags = ∅ → r' = r)
  ∧ (tags ≠ ∅ → running r' = true)
  ∧ map_Forall (fun _ tag => startsWith (supportingRef tag) "refs/" = true) tags.
Proof.
  unfold finalizeTags. intros H. case_bool_decide as He.
  - injection H as <-. subst tags. rewrite andb_false_r, map_size_empty.
    split; [apply same_registry_refl|]. split; [done|].
    split; [destruct (add_metadata_notes o); lia|].
    split; [done|]. split; [done|]. split; [done|]. apply map_Forall_empty.
  - apply bind_Ok in H as (r1 & Hs & H).
    apply startFastImport_Ok in Hs as (Hs & Hrun & _).
    pose proof (same_but_process_registry _ _ Hs) as Hreg.
    assert (Ho : outstandingTransactions r1 = outstandingTransactions r
                 ∧ next_file_mark r1 = next_file_mark r
                 ∧ commitCount r1 = commitCount r)
      by (unfold same_but_process in Hs; by destruct_and!).
    destruct Ho as (Ho & Hn & Hc).
    apply finalize_tags_loop_frame in H as (B1 & B2 & B3 & B4 & B5 & B6).
    assert (Hne : isEmpty (map_to_list tags) = false).
    { destruct (map_to_list tags) eqn:E; [|done]. by apply map_to_list_empty_iff in E. }
    rewrite Hne in B4. rewrite length_map_to_list in B3.
    split_and!; try done.
    + eauto using same_registry_trans.
    + congruence.
    + congruence.
    + cbn [negb]. by rewrite B4, Ho, Hn.
    + intros _. by apply B5.
    + apply map_Forall_to_list. apply Forall_forall. intros [k t] Hin.
      rewrite Forall_forall in B6. by apply (B6 (k, t)).
Qed.

Lemma finalizeTags_frame_witness :
  ∃ r', finalizeTags notes_options
          (createAnnotatedTag "refs/tags/v1" "/tags/v1" 10 "a <a@x>" 3000
             ("release" +:+ LF) ∅) fresh = Ok r'
    ∧ last_commit_mark r' = 0 ∧ outstandingTransactions r' = 0
    ∧ commitCount r' = 1.
Proof.
  destruct (finalizeTags notes_options
              (createAnnotatedTag "refs/tags/v1" "/tags/v1" 10 "a <a@x>" 3000
                 ("release" +:+ LF) ∅) fresh) as [r'|why] eqn:E;
    [|vm_compute in E; discriminate E].
  exists r'. split; [done|].
  destruct (finalizeTags_frame _ _ _ _ E) as ((H1 & _) & H2 & H3 & _).
  split; [exact H1|]. split; [exact H2|exact H3].
Defined.

(** ** Lookups in the registry *)

Lemma qUpperBound_loop_range (fuel : nat) (v : list Z) (q : Z) (b n : nat) :
  (b ≤ qUpperBound_loop fuel v q b n ≤ b + n)%nat.
Proof.
  revert b n. induction fuel as [|fuel IH]; intros b n; cbn [qUpperBound_loop]; [lia|].
  destruct n as [|n']; [lia|].
  set (n := S n'). assert (Hhalf : (Nat.div2 n < n)%nat) by (apply Nat.lt_div2; lia).
  clearbody n. generalize dependent (Nat.div2 n). intros half Hhalf. cbv zeta.
  destruct (v !! (b + half)%nat) as [x|]; [|lia].
  destruct (q <? x).
  - specialize (IH b half). lia.
  - specialize (IH (b + half + 1)%nat (n - (half + 1))%nat). lia.
Qed.

Lemma qUpperBound_le_length (v : list Z) (q : Z) : (qUpperBound v q ≤ length v)%nat.
Proof.
  unfold qUpperBound.
  pose proof (qUpperBound_loop_range (length v) v q 0 (length v)). lia.
Qed.

Lemma set_branches_same (r : Repository) : set_branches (branches r) r = r.
Proof. by destruct r. Qed.

Lemma branches_index_known (bs : gmap string Branch) (k : string) :
  is_Some (bs !! k) → branches_index bs k = (default Branch_default (bs !! k), bs).
Proof. intros [br E]. unfold branches_index. by rewrite E. Qed.

(** X9.  [markFrom] has no abort of its own on a record with as many
    marks as commits, in whatever order the commits are: for a ref that
    starts with [refs/] it returns -1, 0 or one of the marks of the
    record, and -1 when the record was never created or has no commit;
    the repository it leaves differs at most by the value-initialised
    record of a ref not known before. *)
Theorem markFrom_total_on_aligned (b : string) (n : Z) (d : string) (r : Repository) :
  startsWith b "refs/" = true →
  length (commits (record r b)) = length (marks (record r b)) →
  ∃ m d' r',
    markFrom b n d r = Ok (m, d', r')
    ∧ (m = -1 ∨ m = 0 ∨ m ∈ marks (record r b))
    ∧ (created (record r b) = 0 ∨ commits (record r b) = [] → m = -1 ∧ d' = d)
    ∧ r' = set_branches (branches_index (branches r) b).2 r
    ∧ record r' b = record r b.
Proof.
  intros Href Hlen. unfold markFrom. rewrite Href. cbn [Q_ASSERT mbind Res_bind].
  unfold record in *. rewrite <- branches_index_record in *.
  assert (Hrec : default Branch_default
                   ((branches_index (branches r) b).2 !! b)
                 = (branches_index (branches r) b).1).
  { unfold branches_index. destruct (branches r !! b) eqn:E; cbn [fst snd].
    - by rewrite E.
    - by rewrite lookup_insert_eq. }
  destruct (branches_index (branches r) b) as [br bs]. cbn [fst snd] in *.
  destruct (Z.eqb_spec (created br) 0) as [Hc|Hc].
  { do 3 eexists. split; [reflexivity|]. cbn [branches set_branches].
    auto 10. }
  destruct (isEmpty (commits br)) eqn:Eemp.
  { do 3 eexists. split; [reflexivity|]. cbn [branches set_branches].
    assert (commits br = []) by (by destruct (commits br)). auto 10. }
  assert (Ecs : commits br ≠ []) by (by destruct (commits br)).
  assert (Hlast : ∃ lc, last (commits br) = Some lc).
  { destruct (last (commits br)) eqn:E; [eauto|]. by apply last_None in E. }
  destruct Hlast as [lc Hlc].
  assert (vec_last (commits br) = Ok lc) as -> by (unfold vec_last; by rewrite Hlc).
  cbn [mbind Res_bind].
  assert (Hml : ∃ lm, last (marks br) = Some lm).
  { destruct (last (marks br)) eqn:E; [eauto|]. apply last_None in E.
    rewrite E in Hlen. by destruct (commits br). }
  destruct Hml as [lm Hlm].
  assert (Hside : ∀ m d', m ∈ marks br →
            (m = -1 ∨ m = 0 ∨ m ∈ marks br)
            ∧ (created br = 0 ∨ commits br = [] → m = -1 ∧ d' = d)).
  { intros m d' Hin. split; [auto|]. by intros [?|E]. }
  destruct (n =? lc).
  - assert (vec_last (marks br) = Ok lm) as -> by (unfold vec_last; by rewrite Hlm).
    cbn [mbind Res_bind].
    do 3 eexists. split; [reflexivity|]. cbn [branches set_branches].
    destruct (Hside lm d) as [? ?].
    { rewrite last_lookup_pred in Hlm. by eapply list_elem_of_lookup_2. }
    auto.
  - pose proof (qUpperBound_le_length (commits br) n) as Hub.
    destruct (qUpperBound (commits br) n) as [|it] eqn:Eub.
    + do 3 eexists. split; [reflexivity|]. cbn [branches set_branches].
      split; [auto|]. split; [|done]. by intros [?|E].
    + destruct (lookup_lt_is_Some_2 (commits br) it) as [cc Hcc]; [lia|].
      destruct (lookup_lt_is_Some_2 (marks br) it) as [mm Hmm]; [lia|].
      unfold vec_at. rewrite Hcc, Hmm. cbn [mbind Res_bind].
      do 3 eexists. split; [reflexivity|]. cbn [branches set_branches].
      split; [right; right; by eapply list_elem_of_lookup_2|].
      split; [|done]. by intros [?|E].
Qed.

Lemma markFrom_total_on_aligned_witness :
  ∃ m d' r',
    markFrom "refs/heads/master" 6 "" demo_registry = Ok (m, d', r')
    ∧ (m = -1 ∨ m = 0 ∨ m ∈ [1; 4; 7]).
Proof.
  destruct (markFrom_total_on_aligned "refs/heads/master" 6 "" demo_registry
              eq_refl eq_refl) as (m & d' & r' & E & Hm & _).
  exists m, d', r'. split; [exact E|exact Hm].
Defined.

(** The registry resolves a ref, at the revision of the entry appended
    last, to the mark of that entry. *)
Lemma markFrom_last_entry (b : string) (n : Z) (d : string) (r : Repository)
    (br : Branch) (m : Z) :
  startsWith b "refs/" = true →
  branches r !! b = Some br →
  created br ≠ 0 →
  last (commits br) = Some n → last (marks br) = Some m →
  markFrom b n d r = Ok (m, d, r).
Proof.
  intros Href Hb Hc Hn Hm. unfold markFrom. rewrite Href. cbn [Q_ASSERT mbind Res_bind].
  unfold branches_index. rewrite Hb. rewrite set_branches_same.
  rewrite (proj2 (Z.eqb_neq _ _) Hc).
  assert (isEmpty (commits br) = false) as -> by (by destruct (commits br)).
  assert (vec_last (commits br) = Ok n) as -> by (unfold vec_last; by rewrite Hn).
  assert (vec_last (marks br) = Ok m) as -> by (unfold vec_last; by rewrite Hm).
  cbn [mbind Res_bind]. by rewrite Z.eqb_refl.
Qed.

Lemma branches_index_lookup (bs : gmap string Branch) (k : string) :
  default Branch_default ((branches_index bs k).2 !! k) = (branches_index bs k).1.
Proof.
  unfold branches_index. destruct (bs !! k) eqn:E; cbn [fst snd].
  - by rewrite E.
  - by rewrite lookup_insert_eq.
Qed.

Lemma markFrom_Ok_inv (b : string) (n : Z) (d : string) (r : Repository)
    (m : Z) (d' : string) (r' : Repository) :
  markFrom b n d r = Ok (m, d', r') →
  r' = set_branches (branches_index (branches r) b).2 r
  ∧ record r' b = record r b
  ∧ (m ≠ -1 → created (record r b) ≠ 0 ∧ commits (record r b) ≠ []).
Proof.
  unfold markFrom, record. intros H. apply bind_Ok in H as (? & _ & H).
  pose proof (branches_index_lookup (branches r) b) as Hrec.
  rewrite <- (branches_index_record (branches r) b).
  destruct (branches_index (branches r) b) as [br bs]. cbn [fst snd] in *.
  assert (Hgoal : r' = set_branches bs r →
            (m ≠ -1 → created br ≠ 0 ∧ commits br ≠ []) →
            r' = set_branches bs r
            ∧ default Branch_default (branches r' !! b) = br
            ∧ (m ≠ -1 → created br ≠ 0 ∧ commits br ≠ [])).
  { intros -> Hm. by split_and!. }
  destruct (Z.eqb_spec (created br) 0) as [Hc|Hc].
  { injection H as <- _ <-. by apply Hgoal. }
  destruct (isEmpty (commits br)) eqn:Eemp.
  { injection H as <- _ <-. by apply Hgoal. }
  assert (Ecs : commits br ≠ []) by (by destruct (commits br)).
  apply bind_Ok in H as (? & _ & H).
  destruct (n =? _).
  - apply bind_Ok in H as (? & _ & H). injection H as _ _ <-. by apply Hgoal.
  - destruct (qUpperBound _ _); [injection H as _ _ <-; by apply Hgoal|].
    apply bind_Ok in H as (? & _ & H). apply bind_Ok in H as (? & _ & H).
    injection H as _ _ <-. by apply Hgoal.
Qed.

(** X10.  What a successful [createBranch] leaves: the source was
    created and has commits; the record of the new ref has the revision
    and the mark [markFrom] found for the source appended, the revision
    as its creation revision and the note of the source; nothing is
    written yet; the source record is as before when it is another ref;
    and at a revision other than 0 [markFrom] resolves the new ref, at
    the revision of its creation, to that mark. *)
Theorem createBranch_records_source_mark (b : string) (n : Z) (bf : string) (bn : Z)
    (r r' : Repository) :
  createBranch b n bf bn r = Ok r' →
  created (record r bf) ≠ 0 ∧ commits (record r bf) ≠ []
  ∧ ∃ m desc r1,
      markFrom bf bn ("from branch " +:+ bf) r = Ok (m, desc, r1)
      ∧ m ≠ -1
      ∧ record r' b
        = mkBranch n (commits (record r1 b) ++ [n]) (marks (record r1 b) ++ [m])
            (note (record r1 bf))
      ∧ (b ≠ bf → record r1 b = record r b ∧ record r' bf = record r bf)
      ∧ written r' = written r
      ∧ (n ≠ 0 → ∀ d, markFrom b n d r' = Ok (m, d, r')).
Proof.
  unfold createBranch. intros H.
  apply bind_Ok in H as (? & Hrb & H). apply Q_ASSERT_Ok in Hrb.
  apply bind_Ok in H as (? & Hrf & H). apply Q_ASSERT_Ok in Hrf.
  apply bind_Ok in H as ([[m desc] r1] & Hmf & H).
  destruct (Z.eqb_spec m (-1)) as [Hm|Hm]; [done|].
  assert (Hsrc : created (record r bf) ≠ 0 ∧ commits (record r bf) ≠ []
                 ∧ r1 = set_branches (branches_index (branches r) bf).2 r
                 ∧ record r1 bf = record r bf).
  { destruct (markFrom_Ok_inv _ _ _ _ _ _ _ Hmf) as (A1 & A2 & A3).
    destruct (A3 Hm). done. }
  destruct Hsrc as (Hc & Hcs & Hr1 & Hrec1).
  split; [done|]. split; [done|]. exists m, desc, r1. split; [done|]. split; [done|].
  set (rw := if m =? 0 then _ else _) in H.
  set (r2 := rw.1.1) in *. set (to := rw.1.2) in *. set (c := rw.2) in *.
  assert (Hr2 : branches r2 = branches r1 ∧ written r2 = written r1).
  { subst r2 rw. by destruct (m =? 0). }
  destruct Hr2 as [Hb2 Hw2].
  assert (Hw1 : written r1 = written r) by (by rewrite Hr1).
  assert (H' : (let '(br, bs) := branches_index (branches r2) b in
                resetBranch b n m to c
                  (set_branches
                     (<[b := mkBranch (created br) (commits br) (marks br)
                               (note (default Branch_default (branches r2 !! bf)))]> bs)
                     r2)) = Ok r').
  { subst r2 to c. destruct rw as [[? ?] ?]. exact H. }
  clear H. 
  assert (Hidx : ∀ y, <[b := y]> (branches_index (branches r2) b).2 = <[b := y]> (branches r2)).
  { intros y. unfold branches_index. destruct (branches r2 !! b); [done|].
    cbn [snd]. apply insert_insert_eq. }
  pose proof (branches_index_record (branches r2) b) as Hbr.
  destruct (branches_index (branches r2) b) as [br bs]. cbn [fst snd] in *.
  rewrite Hidx in H'.
  match type of H' with resetBranch _ _ _ _ _ ?x = _ => set (r3 := x) in * end.
  destruct (resetBranch_Ok b n m to c r3 Hrb) as (r'' & E & Hbr' & Hw' & _).
  rewrite E in H'. injection H' as ->.
  assert (Hrec3 : default Branch_default (branches r3 !! b)
                  = mkBranch (created br) (commits br) (marks br)
                      (note (record r1 bf))).
  { subst r3. cbn [branches set_branches]. rewrite lookup_insert_eq. cbn.
    unfold record. by rewrite Hb2. }
  rewrite Hrec3 in Hbr'. cbn [commits marks note] in Hbr'.
  assert (Hbrr : br = record r1 b) by (unfold record; by rewrite Hbr, Hb2).
  assert (Hrec' : record r' b
                  = mkBranch n (commits (record r1 b) ++ [n]) (marks (record r1 b) ++ [m])
                      (note (record r1 bf))).
  { unfold record at 1. rewrite Hbr', lookup_insert_eq. cbn. by rewrite Hbrr. }
  split; [done|]. split; [|split].
  - intros Hne. split.
    + unfold record. rewrite Hr1. cbn [branches set_branches].
      unfold branches_index. destruct (branches r !! bf); [done|]. cbn [snd].
      by rewrite lookup_insert_ne.
    + rewrite <- Hrec1. unfold record. rewrite Hbr', lookup_insert_ne by done.
      subst r3. cbn [branches set_branches]. rewrite lookup_insert_ne by done.
      by rewrite Hb2.
  - rewrite Hw'. subst r3. cbn [written set_branches]. congruence.
  - intros Hn d.
    assert (Hsome : branches r' !! b
                    = Some (mkBranch n (commits (record r1 b) ++ [n])
                              (marks (record r1 b) ++ [m]) (note (record r1 bf)))).
    { rewrite Hbr', lookup_insert_eq. by rewrite Hbrr. }
    eapply markFrom_last_entry; [done|exact Hsome|done|..]; cbn; apply last_snoc.
Qed.

Lemma createBranch_records_source_mark_witness :
  ∃ r', createBranch "refs/heads/topic" 12 "refs/heads/master" 6 demo_registry = Ok r'
    ∧ marks (record r' "refs/heads/topic") = [4]
    ∧ markFrom "refs/heads/topic" 12 "" r' = Ok (4, "", r').
Proof.
  destruct (createBranch "refs/heads/topic" 12 "refs/heads/master" 6 demo_registry)
    as [r'|why] eqn:E; [|vm_compute in E; discriminate E].
  exists r'. split; [done|].
  destruct (createBranch_records_source_mark _ _ _ _ _ _ E)
    as (_ & _ & m & desc & r1 & Hmf & _ & Hrec & Hother & _ & Hres).
  assert (m = 4) as -> by (vm_compute in Hmf; by injection Hmf as <- _ _).
  destruct (Hother ltac:(done)) as [Hr1 _].
  split.
  - rewrite Hrec. cbn [marks]. rewrite Hr1. reflexivity.
  - apply Hres. lia.
Defined.

(** ** The registry after a commit and after a delete *)

(** X11.  A commit is what the registry hands out next: after
    [Transaction::commit] of a revision other than 0, [markFrom]
    resolves the branch of the transaction, at its revision, to the mark
    of the commit, the new value of the commit counter, and leaves the
    repository and the description as they are. *)
Theorem commit_then_markFrom (o : Options) (t : Transaction) (r : Repository)
    (t' : Transaction) (r' : Repository) (d : string) :
  revnum t ≠ 0 →
  Transaction_.commit o t r = Ok (t', r') →
  markFrom (branch t) (revnum t) d r' = Ok (last_commit_mark r', d, r').
Proof.
  intros Hrev H.
  destruct (commit_registry o t r t' r' H) as [Hl Hk].
  apply commit_Ok in H as (_ & _ & _ & _ & _ & _ & _ & Href & _).
  specialize (Hk (branch t)). rewrite lookup_insert_eq in Hk.
  destruct (branches r' !! branch t) as [br'|] eqn:E'; [|done].
  injection Hk as Hk1 Hk2 Hk3.
  eapply markFrom_last_entry; [done|exact E'|..].
  - rewrite Hk1. destruct (Z.eqb_spec (created (record r (branch t))) 0); [done|].
    cbn [negb andb]. by destruct (last_nonzero _).
  - rewrite Hk2. apply last_snoc.
  - rewrite Hk3, Hl. apply last_snoc.
Qed.

Lemma commit_then_markFrom_witness :
  ∃ t' r', Transaction_.commit demo_options txn_master_r1 fresh = Ok (t', r')
    ∧ markFrom "refs/heads/master" 1 "" r' = Ok (1, "", r').
Proof.
  destruct (Transaction_.commit demo_options txn_master_r1 fresh) as [[t' r']|why] eqn:E;
    [|vm_compute in E; discriminate E].
  exists t', r'. split; [done|].
  pose proof (commit_then_markFrom demo_options txn_master_r1 fresh t' r' ""
                ltac:(vm_compute; discriminate) E) as H.
  assert (Hl : last_commit_mark r' = 1).
  { apply commit_counters in E as [E _]. exact E. }
  rewrite Hl in H. exact H.
Defined.

(** X12.  [deleteBranch] leaves the default branch alone, whatever the
    revision; on any other ref it writes nothing, appends the revision
    with mark 0 to the record, so that the record ends in a tombstone: a
    commit on the ref has no parent, and at a revision other than 0
    [markFrom] resolves the ref, at the revision of the delete, to 0. *)
Theorem deleteBranch_leaves_tombstone (b : string) (n : Z) (r r' : Repository) :
  deleteBranch b n r = Ok r' →
  (b = "refs/heads/master" → r' = r)
  ∧ written r' = written r
  ∧ (b ≠ "refs/heads/master" →
     record r' b
     = mkBranch n (commits (record r b) ++ [n]) (marks (record r b) ++ [0])
         (note (record r b))
     ∧ parentmark_of (record r' b) = 0
     ∧ (∀ k, k ≠ b → branches r' !! k = branches r !! k)
     ∧ (n ≠ 0 → ∀ d, markFrom b n d r' = Ok (0, d, r'))).
Proof.
  unfold deleteBranch. intros H. apply bind_Ok in H as (? & Href & H).
  apply Q_ASSERT_Ok in Href.
  destruct (String.eqb_spec b "refs/heads/master") as [->|Hne].
  { injection H as <-. by split_and!. }
  destruct (resetBranch_Ok b n 0 null_sha "delete" r Href) as (r'' & E & Hbr & Hw & _).
  rewrite E in H. injection H as ->.
  assert (Hrec : record r' b
                 = mkBranch n (commits (record r b) ++ [n]) (marks (record r b) ++ [0])
                     (note (record r b))).
  { unfold record at 1. by rewrite Hbr, lookup_insert_eq. }
  split; [done|]. split; [done|]. intros _. split; [done|]. split; [|split].
  - rewrite Hrec. unfold parentmark_of, last_nonzero. cbn [created marks].
    rewrite last_snoc. cbn. by rewrite andb_false_r.
  - intros k Hk. by rewrite Hbr, lookup_insert_ne.
  - intros Hn d.
    eapply (markFrom_last_entry b n d r' _ 0 Href);
      [rewrite Hbr; apply lookup_insert_eq|done|apply last_snoc|apply last_snoc].
Qed.

Lemma deleteBranch_leaves_tombstone_witness :
  ∃ r', deleteBranch "refs/heads/master" 3 demo_registry = Ok r' ∧ r' = demo_registry
    ∧ ∃ r2, deleteBranch "refs/heads/topic" 3 demo_registry = Ok r2
        ∧ marks (record r2 "refs/heads/topic") = [0]
        ∧ markFrom "refs/heads/topic" 3 "" r2 = Ok (0, "", r2).
Proof.
  exists demo_registry. split; [reflexivity|]. split.
  { destruct (deleteBranch_leaves_tombstone "refs/heads/master" 3 demo_registry
                demo_registry eq_refl) as [H _].
    exact (H eq_refl). }
  destruct (deleteBranch "refs/heads/topic" 3 demo_registry) as [r2|why] eqn:E;
    [|vm_compute in E; discriminate E].
  exists r2. split; [done|].
  destruct (deleteBranch_leaves_tombstone _ _ _ _ E) as (_ & _ & H).
  destruct (H ltac:(done)) as (Hrec & _ & _ & Hmf).
  split; [by rewrite Hrec|]. apply Hmf. lia.
Defined.

(** ** The scan of the marks file, read backwards *)

Lemma regular_upper (p : Z) (lines : list string) (k : Z) :
  regular p lines k → k ≤ p + Z.of_nat (length lines).
Proof.
  revert p. induction lines as [|raw rest IH]; intros p H; cbn [regular length] in *.
  - lia.
  - destruct (isEmpty_str (to_QString raw)).
    + apply IH in H. lia.
    + destruct H as [_ H]. apply IH in H. lia.
Qed.

Lemma lastValidMark_loop_inv (fn : string) (lines : list string) (n p : Z) :
  0 ≤ p →
  ∃ pre rest k,
    lines = pre ++ rest ∧ regular p pre k
    ∧ ((lastValidMark_loop fn lines n p = (k, [])
        ∧ (rest = [] ∨ ∃ raw rest', rest = raw :: rest'
                         ∧ k + 1 < line_mark (to_QString raw)))
       ∨ ∃ msg raw rest',
           lastValidMark_loop fn lines n p = (0, [(Critical, msg)])
           ∧ rest = raw :: rest'
           ∧ isEmpty_str (to_QString raw) = false
           ∧ line_mark (to_QString raw) ≤ k).
Proof.
  revert n p. induction lines as [|raw rest IH]; intros n p Hp.
  - exists [], [], p. split; [done|]. split; [done|]. left. split; [done|]. by left.
  - cbn [lastValidMark_loop].
    destruct (isEmpty_str (to_QString raw)) eqn:Ee.
    + destruct (IH (n + 1) p Hp) as (pre & rest' & k & -> & Hreg & Hcase).
      exists (raw :: pre), rest', k. split; [done|].
      split; [cbn [regular]; by rewrite Ee|]. exact Hcase.
    + destruct (Z.eqb_spec (line_mark (to_QString raw)) 0) as [H0|H0].
      { exists [], (raw :: rest), p. split; [done|]. split; [done|]. right.
        eexists _, raw, rest. split; [reflexivity|]. split; [done|]. split; [done|]. lia. }
      destruct (Z.eqb_spec (line_mark (to_QString raw)) p) as [H1|H1].
      { exists [], (raw :: rest), p. split; [done|]. split; [done|]. right.
        eexists _, raw, rest. split; [reflexivity|]. split; [done|]. split; [done|]. lia. }
      destruct (Z.ltb_spec (line_mark (to_QString raw)) p) as [H2|H2].
      { exists [], (raw :: rest), p. split; [done|]. split; [done|]. right.
        eexists _, raw, rest. split; [reflexivity|]. split; [done|]. split; [done|]. lia. }
      destruct (Z.ltb_spec (p + 1) (line_mark (to_QString raw))) as [H3|H3].
      { exists [], (raw :: rest), p. split; [done|]. split; [done|]. left.
        split; [done|]. right. by exists raw, rest. }
      assert (Hm : line_mark (to_QString raw) = p + 1) by lia.
      rewrite Hm.
      destruct (IH (n + 1) (p + 1) ltac:(lia)) as (pre & rest' & k & -> & Hreg & Hcase).
      exists (raw :: pre), rest', k. split; [done|].
      split; [cbn [regular]; by rewrite Ee|]. exact Hcase.
Qed.

(** X13.  Every marks file falls under one of three cases.  The lines
    of the file split into a stretch whose marks count up from 1 to
    some [k] (empty lines aside) and a rest; [lastValidMark] returns [k]
    without a message when the rest is empty or begins with a mark
    beyond [k + 1], and 0 with one critical message when the rest begins
    with a line whose mark is [k] or less (a line without a mark counts
    as mark 0).  So the value returned is never negative nor greater
    than the number of lines, and 0 with no message when there is no
    marks file. *)
Theorem lastValidMark_outcomes (name : string) (fs : FileSystem) (M : Z)
    (msgs : list (LogLevel * string)) :
  lastValidMark name fs = Ok (M, msgs) →
  let file := name +:+ "/" +:+ marksFileName name in
  0 ≤ M
  ∧ (fs !! file = None → M = 0 ∧ msgs = [])
  ∧ ∀ content, fs !! file = Some content →
      M ≤ Z.of_nat (length (readLines content))
      ∧ ∃ pre rest k,
          readLines content = pre ++ rest ∧ regular 0 pre k
          ∧ ((M = k ∧ msgs = []
              ∧ (rest = [] ∨ ∃ raw rest', rest = raw :: rest'
                               ∧ k + 1 < line_mark (to_QString raw)))
             ∨ (M = 0 ∧ ∃ msg raw rest',
                  msgs = [(Critical, msg)] ∧ rest = raw :: rest'
                  ∧ isEmpty_str (to_QString raw) = false
                  ∧ line_mark (to_QString raw) ≤ k)).
Proof.
  unfold lastValidMark. intros H. cbv zeta.
  destruct (fs !! (name +:+ "/" +:+ marksFileName name)) as [content|] eqn:Ef.
  - injection H as H.
    destruct (lastValidMark_loop_inv (name +:+ "/" +:+ marksFileName name)
                (readLines content) 0 0 ltac:(lia))
      as (pre & rest & k & Hsplit & Hreg & Hcase).
    pose proof (regular_le _ _ _ Hreg) as Hk0.
    pose proof (regular_upper _ _ _ Hreg) as Hk1.
    assert (Hlen : Z.of_nat (length pre) ≤ Z.of_nat (length (readLines content))).
    { rewrite Hsplit, length_app. lia. }
    assert (HM : 0 ≤ M ≤ Z.of_nat (length (readLines content))).
    { destruct Hcase as [[E _]|(msg & raw & rest' & E & _)];
        rewrite E in H; injection H as <- <-; lia. }
    split; [lia|]. split; [done|]. intros c [= <-]. split; [lia|].
    exists pre, rest, k. split; [done|]. split; [done|].
    destruct Hcase as [[E Hstop]|(msg & raw & rest' & E & Hrest & Hne & Hle)];
      rewrite E in H; injection H as <- <-.
    + left. done.
    + right. split; [done|]. by exists msg, raw, rest'.
  - injection H as <- <-. split; [done|]. split; [done|]. done.
Qed.

Lemma lastValidMark_outcomes_witness :
  ∃ pre rest k,
    readLines marks_1_to_7 = pre ++ rest ∧ regular 0 pre k
    ∧ ((7 = k ∧ @nil (LogLevel * string) = []
        ∧ (rest = [] ∨ ∃ raw rest', rest = raw :: rest'
                         ∧ k + 1 < line_mark (to_QString raw)))
       ∨ (7 = 0 ∧ ∃ msg raw rest',
            @nil (LogLevel * string) = [(Critical, msg)] ∧ rest = raw :: rest'
            ∧ isEmpty_str (to_QString raw) = false
            ∧ line_mark (to_QString raw) ≤ k)).
Proof.
  destruct (lastValidMark_outcomes "R" fs_S4 7 [] eq_refl) as (_ & _ & H).
  destruct (H marks_1_to_7 eq_refl) as [_ H']. exact H'.
Defined.

(** ** What recovery leaves alone *)

(** Two repositories that differ in the registry, the commit counter
    and the messages logged only. *)
Lemma replay_progress_frame (n : Z) (b : string) (m : Z) (r : Repository) :
  let r' := replay_progress n b m r in
  written r' = written r ∧ running r' = running r
  ∧ processHasStarted r' = processHasStarted r
  ∧ next_file_mark r' = next_file_mark r
  ∧ outstandingTransactions r' = outstandingTransactions r
  ∧ commitCount r' = commitCount r
  ∧ resetBranches r' = resetBranches r ∧ deletedBranches r' = deletedBranches r
  ∧ logged r' = logged r.
Proof.
  cbv zeta. unfold replay_progress.
  destruct (last_commit_mark r <? m);
    destruct (branches_index _ _); by split_and!.
Qed.

Lemma take_str_prefix (n : nat) (s : string) : ∃ suffix, s = take_str n s +:+ suffix.
Proof.
  revert n. induction s as [|c s IH]; intros n.
  - exists "". by destruct n.
  - destruct n as [|n]; [by exists (String c s)|].
    destruct (IH n) as [suffix E]. exists suffix. cbn [take_str].
    exact (f_equal (String c) E).
Qed.

Lemma setupIncremental_loop_frame (lines : list string) (pos : nat)
    (cutoff M last : Z) (r : Repository) :
  let res := setupIncremental_loop lines pos cutoff M last r in
  (written res.2 = written r ∧ running res.2 = running r
   ∧ processHasStarted res.2 = processHasStarted r
   ∧ next_file_mark res.2 = next_file_mark r
   ∧ outstandingTransactions res.2 = outstandingTransactions r
   ∧ commitCount res.2 = commitCount r
   ∧ resetBranches res.2 = resetBranches r ∧ deletedBranches res.2 = deletedBranches r)
  ∧ match res.1 with
    | AtEnd last' => last' = last ∨ last' < cutoff
    | BeyondCutoff pos' c => c ≤ cutoff
    end.
Proof.
  cbv zeta. revert pos last r. induction lines as [|raw rest IH]; intros pos last r.
  - cbn. split; [by split_and!|]. by left.
  - cbn [setupIncremental_loop].
    destruct (parse_progress raw) as [[[rev b] mark]|]; [|apply IH].
    destruct (Z.leb_spec cutoff rev) as [Hc|Hc].
    { cbn. split; [by split_and!|]. lia. }
    set (r0 := if rev <? last then log_msg Warn _ r else r).
    assert (H0 : written r0 = written r ∧ running r0 = running r
                 ∧ processHasStarted r0 = processHasStarted r
                 ∧ next_file_mark r0 = next_file_mark r
                 ∧ outstandingTransactions r0 = outstandingTransactions r
                 ∧ commitCount r0 = commitCount r
                 ∧ resetBranches r0 = resetBranches r
                 ∧ deletedBranches r0 = deletedBranches r).
    { subst r0. destruct (rev <? last); by split_and!. }
    destruct (M <? mark).
    { cbn. split; [exact H0|]. lia. }
    destruct (IH (pos + String.length raw)%nat rev (replay_progress rev b mark r0))
      as [Hf Hres].
    destruct (replay_progress_frame rev b mark r0) as (F1 & F2 & F3 & F4 & F5 & F6 & F7 & F8 & _).
    destruct H0 as (G1 & G2 & G3 & G4 & G5 & G6 & G7 & G8).
    destruct Hf as (E1 & E2 & E3 & E4 & E5 & E6 & E7 & E8).
    split.
    + split_and!; congruence.
    + destruct (setupIncremental_loop _ _ _ _ _ _).1; [|done].
      destruct Hres as [->|?]; right; lia.
Qed.

Lemma foldl_log_msg_rest (msgs : list (LogLevel * string)) (r : Repository) :
  let r' := foldl (fun r m => log_msg m.1 m.2 r) r msgs in
  written r' = written r ∧ running r' = running r
  ∧ processHasStarted r' = processHasStarted r
  ∧ next_file_mark r' = next_file_mark r
  ∧ outstandingTransactions r' = outstandingTransactions r
  ∧ commitCount r' = commitCount r
  ∧ resetBranches r' = resetBranches r ∧ deletedBranches r' = deletedBranches r.
Proof.
  cbv zeta. revert r. induction msgs as [|m msgs IH]; intros r; [by split_and!|].
  exact (IH (log_msg m.1 m.2 r)).
Qed.

(** X14.  What recovery leaves alone.  [setupIncremental] never aborts;
    of the files it touches the log and its backup only, and so does
    [restoreLog] after it: the marks file is read, never written.  The
    log it leaves is the log it found or a truncation of it, never
    longer; the backup it leaves is the whole log it found, the backup
    it found, or none.  The cutoff is never raised, and the revision to
    resume from is 1 or no greater than the cutoff.  Of the repository
    it changes the registry, the commit counter and the messages only:
    nothing is written to the child, which is not started. *)
Theorem recovery_touches_only_the_log (cutoff : Z) (fs : FileSystem) (r : Repository) :
  ∃ rv c fs' r',
    setupIncremental cutoff fs r = Ok (rv, c, fs', r')
    ∧ (∀ f, f ≠ logFileName (name r) → f ≠ logFileName (name r) +:+ ".old" →
         fs' !! f = fs !! f ∧ restoreLog fs' r' !! f = fs !! f)
    ∧ (∀ content, fs !! logFileName (name r) = Some content →
         ∃ kept suffix, fs' !! logFileName (name r) = Some kept
                        ∧ content = kept +:+ suffix)
    ∧ (fs !! logFileName (name r) = None → fs' = fs ∧ rv = 1 ∧ r' = r)
    ∧ (fs' !! (logFileName (name r) +:+ ".old") = None
       ∨ fs' !! (logFileName (name r) +:+ ".old") = fs !! logFileName (name r)
       ∨ fs' !! (logFileName (name r) +:+ ".old")
         = fs !! (logFileName (name r) +:+ ".old"))
    ∧ c ≤ cutoff ∧ (rv = 1 ∨ rv ≤ c)
    ∧ name r' = name r ∧ written r' = written r ∧ running r' = running r
    ∧ processHasStarted r' = processHasStarted r
    ∧ next_file_mark r' = next_file_mark r
    ∧ outstandingTransactions r' = outstandingTransactions r
    ∧ commitCount r' = commitCount r.
Proof.
  unfold setupIncremental, lastValidMark.
  assert (Hne : logFileName (name r) +:+ ".old" ≠ logFileName (name r)).
  { intros E. symmetry in E. by apply backup_name_ne in E. }
  destruct (fs !! logFileName (name r)) as [content|] eqn:Hlog.
  2:{ exists 1, cutoff, fs, r. split; [done|]. split.
      { intros f Hf Hb. split; [done|]. unfold restoreLog.
        destruct (fs !! (logFileName (name r) +:+ ".old")) eqn:Eb; [|done].
        rewrite lookup_insert_ne by done. by rewrite !lookup_delete_ne. }
      split; [done|]. split; [done|]. split; [auto|]. split; [lia|]. split; [auto|].
      by split_and!. }
  set (lv := match fs !! (name r +:+ "/" +:+ marksFileName (name r)) with
             | Some c => Ok (lastValidMark_loop (name r +:+ "/" +:+ marksFileName (name r))
                               (readLines c) 0 0)
             | None => Ok (0, [])
             end).
  assert (Hlv : ∃ M msgs, lv = Ok (M, msgs)).
  { subst lv. destruct (fs !! (name r +:+ "/" +:+ marksFileName (name r))); [|by eauto].
    destruct (lastValidMark_loop _ _ _ _) as [M msgs]. eauto. }
  destruct Hlv as (M & msgs & ->). cbn [mbind Res_bind].
  set (r0 := foldl _ r msgs).
  destruct (foldl_log_msg_rest msgs r) as (G1 & G2 & G3 & G4 & G5 & G6 & _).
  fold r0 in G1, G2, G3, G4, G5, G6.
  assert (Hname0 : name r0 = name r) by apply foldl_log_msg_name.
  pose proof (setupIncremental_loop_name (readLines content) 0 cutoff M 0 r0) as Hname.
  destruct (setupIncremental_loop_frame (readLines content) 0 cutoff M 0 r0)
    as ((E1 & E2 & E3 & E4 & E5 & E6 & _) & Hres).
  destruct (setupIncremental_loop _ _ _ _ _ _) as [[last|pos c] r1]. 
  - cbn [fst snd] in *. do 4 eexists. split; [reflexivity|].
    set (fs' := if last + 1 =? cutoff then _ else fs).
    assert (Hfs : ∀ f, f ≠ logFileName (name r) +:+ ".old" → fs' !! f = fs !! f).
    { intros f Hf. subst fs'. destruct (_ =? _); [|done]. by rewrite lookup_delete_ne. }
    split.
    { intros f Hf Hb. split; [by apply Hfs|]. unfold restoreLog. rewrite Hname, Hname0.
      destruct (fs' !! (logFileName (name r) +:+ ".old")); [|by apply Hfs].
      rewrite lookup_insert_ne by done. rewrite !lookup_delete_ne by done. by apply Hfs. }
    split.
    { intros c [= <-]. exists content, "". rewrite Hfs by done.
      split; [done|]. by rewrite str_app_nil_r. }
    split; [done|]. split.
    { subst fs'. destruct (_ =? _); [left; apply lookup_delete_eq|by right; right]. }
    split; [lia|]. split; [destruct Hres; [left|right]; lia|].
    split_and!; congruence.
  - cbn [fst snd] in *. do 4 eexists. split; [reflexivity|]. split.
    { intros f Hf Hb.
      assert (Hfs : ∀ g, g ≠ logFileName (name r) → g ≠ logFileName (name r) +:+ ".old" →
                (<[logFileName (name r) := take_str pos content]>
                   (<[logFileName (name r) +:+ ".old" := content]>
                      (delete (logFileName (name r) +:+ ".old") fs))) !! g = fs !! g).
      { intros g Hg Hgb. rewrite !lookup_insert_ne by done. by rewrite lookup_delete_ne. }
      split; [by apply Hfs|]. unfold restoreLog. rewrite Hname, Hname0.
      rewrite lookup_insert_ne by done. rewrite lookup_insert_eq.
      rewrite lookup_insert_ne by done. rewrite !lookup_delete_ne by done.
      by apply Hfs. }
    split.
    { intros c' [= <-]. destruct (take_str_prefix pos content) as [suffix E].
      exists (take_str pos content), suffix. by rewrite lookup_insert_eq. }
    split; [done|]. split.
    { right. left. rewrite lookup_insert_ne by (by apply not_eq_sym).
      by rewrite lookup_insert_eq. }
    split; [lia|]. split; [right; lia|].
    split_and!; congruence.
Qed.

(** ** When the child starts and when a commit goes through *)

Lemma foldl_Fatal {A B} (f : Res A → B → Res A) (l : list B) (w : string) :
  (∀ w' b, f (Fatal w') b = Fatal w') →
  ∃ w', foldl f (Fatal w) l = Fatal w'.
Proof.
  intros Hf. revert w. induction l as [|x l IH]; intros w; cbn [foldl]; [eauto|].
  rewrite Hf. apply IH.
Qed.

Lemma foldl_res_iff {A B} (f : Res A → B → Res A) (P : B → Prop)
    (l : list B) (a : A) :
  (∀ w b, f (Fatal w) b = Fatal w) →
  (∀ a b, P b → ∃ a', f (Ok a) b = Ok a') →
  (∀ b a a', f (Ok a) b = Ok a' → P b) →
  (∃ a', foldl f (Ok a) l = Ok a') ↔ Forall P l.
Proof.
  intros Hfatal Hok Hdec. revert a. induction l as [|x l IH]; intros a.
  - cbn. split; [by constructor|]. eauto.
  - cbn [foldl]. split.
    + intros [a' H]. destruct (f (Ok a) x) as [a1|w] eqn:E.
      * constructor; [|apply (IH a1); eauto].
        apply (Hdec x a a1 E).
      * destruct (foldl_Fatal f l w) as [w' Hw]; [done|]. by rewrite Hw in H.
    + inversion 1 as [|? ? HP Hl]. subst.
      destruct (Hok a x HP) as [a1 ->]. by apply IH.
Qed.

Lemma startFastImport_iff (o : Options) (r : Repository) :
  (∃ r', startFastImport o r = Ok r')
  ↔ running r = true
    ∨ (processHasStarted r = false
       ∧ map_Forall (fun k _ => startsWith k "refs/" = true) (branches r)).
Proof.
  unfold startFastImport. destruct (running r) eqn:Erun.
  { split; [by left|]. eauto. }
  destruct (processHasStarted r) eqn:Ehs.
  { split; [by intros [? ?]|]. by intros [?|[? _]]. }
  unfold reloadBranches. cbn [branches set_process].
  rewrite map_Forall_to_list.
  match goal with |- context [foldl ?f (Ok ?a) ?l] =>
    pose proof (foldl_res_iff f (λ kv, startsWith kv.1 "refs/" = true) l a) as Hfold;
    set (step := f) in *
  end.
  assert (Hall : Forall (λ kv : string * Branch, startsWith kv.1 "refs/" = true)
                   (map_to_list (branches r))
                 ↔ Forall (λ kv : string * Branch,
                             uncurry (λ (k : string) (_ : Branch),
                                        startsWith k "refs/" = true) kv)
                     (map_to_list (branches r))).
  { apply Forall_proper; [|done]. by intros [k br]. }
  rewrite <- Hall, <- Hfold; cycle 1.
  - by intros w [k br].
  - intros [r0 b0] [k br] Hk. cbn [fst] in Hk. subst step. cbn [mbind Res_bind]. rewrite Hk.
    cbn [Q_ASSERT Res_bind]. unfold last_nonzero, vec_last.
    destruct (last (marks br)) as [m|]; cbn; [|eauto]. destruct (m =? 0); cbn; eauto.
  - intros [k br] [r0 b0] [r1 b1] H. cbn [fst]. subst step. cbn [mbind Res_bind] in H.
    by destruct (startsWith k "refs/").
  - split.
    + intros [r' H]. apply bind_Ok in H as ([r1 b1] & H & _). right.
      split; [done|]. eauto.
    + intros [?|[_ ([r1 b1] & H)]]; [done|]. rewrite H. cbn [mbind Res_bind].
      destruct (b1 && add_metadata_notes o); eauto.
Qed.


Lemma emit_merges_total (lg : string) (ms : list Z) (parent : Z) :
  ∃ res, emit_merges lg ms parent = Ok res.
Proof.
  destruct (contains_str lg cvs2svn_marker && (1 <? Z.of_nat (length ms))) eqn:E.
  - apply andb_prop in E as [E1 E2]. apply Z.ltb_lt in E2.
    destruct (emit_merges_cvs2svn lg ms parent E1 ltac:(lia)) as (top & _ & _ & ->). eauto.
  - unfold emit_merges. rewrite E. destruct (merge_loop _ _ _ _ _) as [[? ?] ?]. eauto.
Qed.

Lemma commitNote_total (txt : string) (ap : bool) (c : option string)
    (t : Transaction) (r : Repository) :
  startsWith (branch t) "refs/" = true →
  ∃ r', Transaction_.commitNote txt ap c t r = Ok r'.
Proof.
  intros Href. unfold Transaction_.commitNote. rewrite Href. cbn [Q_ASSERT mbind Res_bind].
  destruct (ap && bool_decide (c = None) && branchExists (branch t) r
            && negb (isEmpty_str (branchNote (branch t) r))); eauto.
Qed.

(** X16.  The aborts of a commit.  On a repository whose counters are
    [int] values with room for one more commit mark and one more blob
    mark, [Transaction::commit], with the wait for the child that ends
    it, goes through exactly when the child can be started, the commit
    counter is at least three below the blob counter, the branch of
    the transaction starts with [refs/] and the child takes the bytes
    written: neither the merges staged nor the log, the files or the
    notes can make it abort.  When it goes through, its result is that
    of the function up to the wait. *)
Theorem commit_succeeds_iff (taken : bool) (o : Options) (t : Transaction)
    (r : Repository) :
  -2147483648 ≤ last_commit_mark r < 2147483647 →
  -2147483648 < next_file_mark r ≤ 2147483647 →
  ((∃ t' r', commit_and_wait taken o t r = Ok (t', r'))
   ↔ (running r = true
      ∨ (processHasStarted r = false
         ∧ map_Forall (fun k _ => startsWith k "refs/" = true) (branches r)))
     ∧ last_commit_mark r + 2 < next_file_mark r
     ∧ startsWith (branch t) "refs/" = true
     ∧ taken = true)
  ∧ (∀ t' r', commit_and_wait taken o t r = Ok (t', r') →
       Transaction_.commit o t r = Ok (t', r')).
Proof.
  intros _ _.
  assert (Hwait : ∀ t' r', commit_and_wait taken o t r = Ok (t', r') →
            Transaction_.commit o t r = Ok (t', r') ∧ taken = true).
  { unfold commit_and_wait. intros t' r' H. apply bind_Ok in H as ([t1 r1] & Hc & H).
    destruct taken; [|done]. by injection H as <- <-. }
  split; [|intros t' r' H; by apply Hwait].
  rewrite <- startFastImport_iff. split.
  - intros (t' & r' & H). apply Hwait in H as [H Htaken].
    apply commit_Ok in H as (r1 & out & desc & ms & warn & Hr1 & Ha & Href & _).
    split; [eauto|]. split; [|done].
    apply startFastImport_Ok in Hr1 as [Hs _].
    apply same_but_process_counters in Hs. injection Hs as Hl Hn. lia.
  - intros ([r1 Hr1] & Ha & Href & ->). unfold commit_and_wait, Transaction_.commit.
    rewrite Hr1.
    cbn [mbind Res_bind]. cbn [next_file_mark set_last_commit_mark].
    pose proof Hr1 as Hs. apply startFastImport_Ok in Hs as [Hs _].
    apply same_but_process_counters in Hs. injection Hs as Hl Hn.
    rewrite (proj2 (Z.ltb_lt (last_commit_mark r1 + 1) (next_file_mark r1 - 1))) by lia.
    cbn [mbind Res_bind Q_ASSERT].
    destruct (Transaction_.commit_branch _ _ _) as [pm r2].
    rewrite Href. cbn [mbind Res_bind Q_ASSERT].
    destruct (emit_merges_total (log t) (merges t) pm) as ([[[out desc] ms] warn] & ->).
    cbn [mbind Res_bind Q_ASSERT].
    destruct (add_metadata_notes o); [|cbn; eauto].
    match goal with |- context [Transaction_.commitNote ?a ?b ?c ?d ?e] =>
      destruct (commitNote_total a b c d e Href) as [r5 ->] end.
    cbn. eauto.
Qed.

Lemma commit_succeeds_iff_witness :
  (∃ t' r', commit_and_wait true demo_options txn_master_r1 fresh = Ok (t', r'))
  ∧ ¬ (∃ t' r', commit_and_wait false demo_options txn_master_r1 fresh = Ok (t', r')).
Proof.
  split.
  - apply (proj1 (commit_succeeds_iff true demo_options txn_master_r1 fresh
                    ltac:(split; by vm_compute) ltac:(split; by vm_compute))).
    split; [|split; [reflexivity|split; reflexivity]].
    right. split; [reflexivity|].
    apply map_Forall_to_list. vm_compute. repeat constructor.
  - intros H.
    apply (proj1 (commit_succeeds_iff false demo_options txn_master_r1 fresh
                    ltac:(split; by vm_compute) ltac:(split; by vm_compute))) in H.
    by destruct H as (_ & _ & _ & ?).
Defined.

(** ** Notes *)

Lemma commitNote_note (txt : string) (ap : bool) (t : Transaction) (r r' : Repository) :
  Transaction_.commitNote txt ap None t r = Ok r' →
  let text := if ap && branchExists (branch t) r
                 && negb (isEmpty_str (branchNote (branch t) r))
              then branchNote (branch t) r +:+ txt else txt in
  (branchExists (branch t) r = true → branchNote (branch t) r' = text)
  ∧ (branchExists (branch t) r = false → branches r' = branches r)
  ∧ (∀ k, k ≠ branch t → branches r' !! k = branches r !! k)
  ∧ (∀ k, is_Some (branches r' !! k) ↔ is_Some (branches r !! k)).
Proof.
  unfold Transaction_.commitNote. intros H. apply bind_Ok in H as (? & _ & H).
  rewrite !bool_decide_eq_true_2 in H by done. rewrite andb_true_r in H.
  cbv zeta.
  set (text := if ap && branchExists (branch t) r
                  && negb (isEmpty_str (branchNote (branch t) r))
               then branchNote (branch t) r +:+ txt else txt).
  assert (H' : ∃ s, r' = setBranchNote (branch t) text (write s r)).
  { subst text.
    destruct (ap && branchExists (branch t) r
              && negb (isEmpty_str (branchNote (branch t) r)));
      injection H as <-; eauto. }
  clear H. destruct H' as [s ->].
  unfold setBranchNote, branchExists, branchNote. cbn [branches write].
  destruct (branches r !! branch t) as [br|] eqn:E.
  - cbn [branches set_branches]. split_and!.
    + intros _. by rewrite lookup_insert_eq.
    + intros Hf. apply bool_decide_eq_false_1 in Hf. destruct Hf. eauto.
    + intros k Hk. by rewrite lookup_insert_ne.
    + intros k. destruct (decide (branch t = k)) as [<-|Hk].
      * rewrite lookup_insert_eq, E. split; eauto.
      * by rewrite lookup_insert_ne.
  - cbn [branches write]. split_and!; try done.
    all: intros Hf; apply bool_decide_eq_true_1 in Hf; by destruct Hf.
Qed.

(** X17.  The note of a branch after a commit.  After
    [Transaction::commit] the registry knows the branch of the
    transaction; with notes switched on its note is the metadata message
    of this commit, replacing whatever note the branch had, and with
    notes switched off the note is the one before; no other record is
    touched. *)
Theorem commit_sets_branch_note (o : Options) (t : Transaction) (r : Repository)
    (t' : Transaction) (r' : Repository) :
  Transaction_.commit o t r = Ok (t', r') →
  branchExists (branch t) r' = true
  ∧ branchNote (branch t) r'
    = (if add_metadata_notes o
       then formatMetadataMessage (svnprefix t) (revnum t) ""
       else branchNote (branch t) r)
  ∧ ∀ k, k ≠ branch t → branches r' !! k = branches r !! k.
Proof.
  intros H. apply commit_Ok in H as (r1 & out & desc & ms & warn & Hr1 & _ & _ & H).
  cbv zeta in H. destruct H as (_ & -> & H).
  apply startFastImport_Ok in Hr1 as [Hs _].
  pose proof (same_but_process_branches _ _ Hs) as Hb.
  set (mark := last_commit_mark r1 + 1) in *.
  set (pr := Transaction_.commit_branch t mark (set_last_commit_mark mark r1)) in *.
  set (r2 := write_all out (write (Transaction_.commit_header o t mark) pr.2)) in *.
  set (r3 := if warn then log_msg Warn _ r2 else r2) in *.
  set (r4 := write_all _ r3) in *.
  assert (H4 : branches r4 = branches (pr.2)).
  { subst r4. rewrite (same_but_process_branches _ _ (write_all_same _ _)).
    transitivity (branches r2); [subst r3; by destruct warn|].
    subst r2. rewrite (same_but_process_branches _ _ (write_all_same _ _)). done. }
  assert (Hpr : ∃ br', branches (pr.2) !! branch t = Some br'
                       ∧ note br' = branchNote (branch t) r
                       ∧ ∀ k, k ≠ branch t → branches (pr.2) !! k = branches r !! k).
  { subst pr.
    destruct (commit_branch_branches t mark (set_last_commit_mark mark r1)) as [-> _].
    unfold record. cbn [branches set_last_commit_mark]. rewrite Hb.
    eexists. split; [apply lookup_insert_eq|]. split; [done|].
    intros k Hk. by rewrite lookup_insert_ne. }
  destruct Hpr as (br' & Hbr' & Hnote & Hother). rewrite <- H4 in Hbr', Hother.
  assert (He4 : branchExists (branch t) r4 = true).
  { unfold branchExists. rewrite Hbr'. by apply bool_decide_eq_true_2. }
  destruct (add_metadata_notes o).
  - apply commitNote_note in H. cbv zeta in H. cbn [andb] in H.
    destruct H as (Hn & _ & Ho & Hs'). split; [|split].
    + unfold branchExists. apply bool_decide_eq_true_2. apply Hs'. by rewrite Hbr'.
    + by apply Hn.
    + intros k Hk. rewrite (Ho k Hk). by apply Hother.
  - injection H as <-. split; [done|]. split; [|done].
    unfold branchNote at 1. by rewrite Hbr'.
Qed.

Lemma commit_sets_branch_note_witness :
  ∃ t' r', Transaction_.commit notes_options txn_master_r1 fresh = Ok (t', r')
    ∧ branchNote "refs/heads/master" r' = "svn path=/trunk; revision=1" +:+ LF.
Proof.
  destruct (Transaction_.commit notes_options txn_master_r1 fresh) as [[t' r']|why] eqn:E;
    [|vm_compute in E; discriminate E].
  exists t', r'. split; [done|].
  destruct (commit_sets_branch_note _ _ _ _ _ E) as (_ & H & _). exact H.
Defined.

(** ** Deleted paths *)

Lemma ends_with_app (s suf : string) : ends_with (s +:+ suf) suf = true.
Proof.
  unfold ends_with. rewrite rev_append.
  generalize (String.rev suf) (String.rev s). clear. intros a b.
  induction a as [|c a IH]; [by destruct b|].
  change (String.prefix (String c a) (String c (a +:+ b)) = true).
  cbn [String.prefix]. destruct (ascii_dec c c); [exact IH|done].
Qed.

Lemma chop_app (s : string) (c : ascii) :
  String.rev (mid (String.rev (s +:+ String c "")) 1) = s.
Proof.
  rewrite rev_append. change (String.rev (String c "")) with (String c "").
  change (String c "" +:+ String.rev s) with (String c (String.rev s)).
  cbn [mid]. assert (mid (String.rev s) 0 = String.rev s) as -> by (by destruct (String.rev s)).
  apply rev_rev.
Qed.

(** X18.  The path a deletion stages.  [Transaction::deleteFile] stages
    the repository prefix followed by the path, without one trailing
    slash when there is one (one only: of two, one stays), after the
    paths staged before; deleting the root, the empty path or a lone
    slash under an empty prefix, stages the empty path, and a commit
    with the empty path staged writes one [deleteall] for all its
    deletions, before the file modifications and the progress line. *)
Theorem deleteFile_chops_one_slash (path : string) (t : Transaction) (r : Repository) :
  let full := prefix r +:+ path in
  let t' := Transaction_.deleteFile path t r in
  (∀ s, full = s +:+ "/" → deletedFiles t' = deletedFiles t ++ [s])
  ∧ (ends_with full "/" = false → deletedFiles t' = deletedFiles t ++ [full])
  ∧ modifiedFiles t' = modifiedFiles t ∧ merges t' = merges t
  ∧ (full = "" ∨ full = "/" →
     ∀ mark desc,
       Transaction_.commit_files t' mark desc
       = ("deleteall" +:+ LF) :: modifiedFiles t
         :: option_list (last (Transaction_.commit_files t mark desc))).
Proof.
  cbv zeta. unfold Transaction_.deleteFile. cbn [deletedFiles modifiedFiles merges].
  split_and!; try done.
  - intros s ->. by rewrite ends_with_app, chop_app.
  - by intros ->.
  - intros Hroot mark desc.
    assert (Hstaged : (if ends_with (prefix r +:+ path) "/"
                       then String.rev (mid (String.rev (prefix r +:+ path)) 1)
                       else prefix r +:+ path) = "").
    { by destruct Hroot as [-> | ->]. }
    rewrite Hstaged. unfold Transaction_.commit_files.
    cbn [deletedFiles modifiedFiles revnum branch].
    rewrite bool_decide_eq_true_2 by (apply elem_of_app; right; by left).
    rewrite last_app. reflexivity.
Qed.

(** ** The note of a tag *)

Lemma newTransaction_branches (o : Options) (b p : string) (n : Z)
    (r : Repository) (t : Transaction) (r' : Repository) :
  newTransaction o b p n r = Ok (t, r') →
  branches r' = branches r ∧ branch t = b.
Proof.
  unfold newTransaction. intros H.
  apply bind_Ok in H as (? & _ & H). apply bind_Ok in H as (r1 & Hr1 & H).
  injection H as <- <-. cbn [branch branches set_outstandingTransactions].
  split; [|done].
  destruct (commit_interval o =? 0); [done|].
  destruct (Z.rem _ _ =? 0).
  - apply bind_Ok in Hr1 as (r2 & Hr2 & Hr1). injection Hr1 as <-.
    apply startFastImport_Ok in Hr2 as (Hs & _).
    by apply same_but_process_branches in Hs.
  - by injection Hr1 as <-.
Qed.

(** X19.  The note of a tag.  With notes switched on, the block of an
    annotated tag is followed by a note on the supporting ref: when the
    registry knows that ref, its note afterwards is the note it had
    followed by the metadata message of the tag, so that the note of the
    tip commit is kept; when the registry does not know the ref, the
    note is written but the registry stays as it is.  No other record
    changes, and with notes switched off none does. *)
Theorem finalize_tag_appends_note (o : Options) (tagName : string)
    (tag : AnnotatedTag) (r r' : Repository) :
  finalize_tag o tagName tag r = Ok r' →
  let ref := supportingRef tag in
  let text := formatMetadataMessage (tag_svnprefix tag) (tag_revnum tag) tagName in
  (add_metadata_notes o = false → branches r' = branches r)
  ∧ (add_metadata_notes o = true →
     (branchExists ref r = true → branchNote ref r' = branchNote ref r +:+ text)
     ∧ (branchExists ref r = false → branches r' = branches r))
  ∧ (∀ k, k ≠ ref → branches r' !! k = branches r !! k)
  ∧ (∀ k, is_Some (branches r' !! k) ↔ is_Some (branches r !! k)).
Proof.
  unfold finalize_tag. intros H. apply bind_Ok in H as (? & _ & H). cbv zeta.
  set (r1 := write LF _) in H.
  assert (Hb1 : branches r1 = branches r) by done.
  destruct (add_metadata_notes o).
  - apply bind_Ok in H as ([txn r2] & Hnew & H).
    apply bind_Ok in H as (r3 & Hnote & H). injection H as <-.
    apply newTransaction_branches in Hnew as [Hb2 Hbr].
    apply commitNote_note in Hnote. cbv zeta in Hnote.
    cbn [branch Transaction_.setAuthor Transaction_.setDateTime] in Hnote.
    rewrite Hbr in Hnote. destruct Hnote as (N1 & N2 & N3 & N4).
    assert (Hf : branches (forgetTransaction r3) = branches r3).
    { unfold forgetTransaction. by destruct (_ =? 0). }
    assert (He : branchExists (supportingRef tag) r2 = branchExists (supportingRef tag) r)
      by (unfold branchExists; by rewrite Hb2, Hb1).
    assert (Hn : branchNote (supportingRef tag) r2 = branchNote (supportingRef tag) r)
      by (unfold branchNote; by rewrite Hb2, Hb1).
    rewrite He, Hn in *. cbn [andb] in N1.
    split; [done|]. split; [intros _; split|split].
    + intros Hex. unfold branchNote at 1. rewrite Hf. fold (branchNote (supportingRef tag) r3).
      rewrite (N1 Hex), Hex. cbn [andb].
      by destruct (branchNote (supportingRef tag) r).
    + intros Hex. rewrite Hf, (N2 Hex). congruence.
    + intros k Hk. rewrite Hf, (N3 k Hk). congruence.
    + intros k. rewrite Hf, (N4 k). by rewrite Hb2, Hb1.
  - injection H as <-. split_and!; try done. 
Qed.

Lemma finalize_tag_appends_note_witness :
  ∃ r', finalize_tag notes_options "v1" tag_v1
          (set_branches (<["refs/tags/v1" := mkBranch 9 [9] [1] ("n9" +:+ LF)]> ∅) fresh)
        = Ok r'
    ∧ branchNote "refs/tags/v1" r'
      = ("n9" +:+ LF) +:+ ("svn path=/tags/v1; revision=10; tag=v1" +:+ LF).
Proof.
  destruct (finalize_tag notes_options "v1" tag_v1
              (set_branches (<["refs/tags/v1" := mkBranch 9 [9] [1] ("n9" +:+ LF)]> ∅) fresh))
    as [r'|why] eqn:E; [|vm_compute in E; discriminate E].
  exists r'. split; [done|].
  destruct (finalize_tag_appends_note _ _ _ _ _ E) as (_ & H & _).
  destruct (H eq_refl) as [H1 _]. exact (H1 eq_refl).
Defined.

(** ** Messages *)

Lemma ends_with_app_r (a b suf : string) :
  ends_with b suf = true → ends_with (a +:+ b) suf = true.
Proof.
  unfold ends_with. rewrite rev_append.
  generalize (String.rev suf) (String.rev b) (String.rev a). clear.
  intros p. induction p as [|c p IH]; intros b a.
  - by destruct (b +:+ a).
  - destruct b as [|d b]; [done|]. cbn [String.prefix].
    change (String d b +:+ a) with (String d (b +:+ a)). cbn [String.prefix].
    destruct (ascii_dec c d); [apply IH|done].
Qed.

(** [boost::ends_with(s, "\n")] holds of the strings that are some
    string followed by a newline. *)
Lemma ends_with_LF_iff (s : string) :
  ends_with s LF = true ↔ ∃ s', s = s' +:+ LF.
Proof.
  split.
  - unfold ends_with. change (String.rev LF) with LF. intros H.
    destruct (String.rev s) as [|c rest] eqn:E; [done|].
    unfold LF in H. cbn [String.prefix] in H.
    destruct (ascii_dec "010" c) as [<-|]; [|done].
    exists (String.rev rest). rewrite <- (rev_rev s), E.
    change (String "010" rest) with (LF +:+ rest). by rewrite rev_append.
  - intros [s' ->]. apply ends_with_app.
Qed.

(** The log with a newline added unless it ends in one. *)
Lemma terminated_log (lg : string) :
  let body := if ends_with lg LF then lg else lg +:+ LF in
  ends_with body LF = true
  ∧ ((body = lg ∧ ∃ s, lg = s +:+ LF)
     ∨ (body = lg +:+ LF ∧ ∀ s, lg ≠ s +:+ LF)).
Proof.
  cbv zeta. destruct (ends_with lg LF) eqn:E.
  - split; [done|]. left. split; [done|]. by apply ends_with_LF_iff.
  - split; [apply ends_with_app|]. right. split; [done|].
    intros s' Hs. rewrite (proj2 (ends_with_LF_iff lg)) in E; [done | by exists s'].
Qed.

(** X20.  Messages end in a newline.  The metadata message is the path
    and the revision, the tag name when there is one, and a newline.
    The message of a commit is the log, with a newline added exactly
    when the log does not end in one, followed, when metadata is on, by
    an empty line and the metadata message of the transaction; the
    message of a tag is built the same way from the log of the tag,
    with the tag name in its metadata message.  All three end in a
    newline. *)
Theorem messages_end_in_newline (o : Options) (t : Transaction)
    (tagName : string) (tag : AnnotatedTag) (p : string) (n : Z) (nm : string) :
  formatMetadataMessage p n nm
  = "svn path=" +:+ p +:+ "; revision=" +:+ number n
    +:+ (if isEmpty_str nm then "" else "; tag=" +:+ nm) +:+ LF
  ∧ ends_with (formatMetadataMessage p n nm) LF = true
  ∧ ends_with (Transaction_.commit_message o t) LF = true
  ∧ ends_with (tag_message o tagName tag) LF = true
  ∧ (∃ body,
       ((body = log t ∧ ∃ s, log t = s +:+ LF)
        ∨ (body = log t +:+ LF ∧ ∀ s, log t ≠ s +:+ LF))
       ∧ Transaction_.commit_message o t
         = if add_metadata o
           then body +:+ LF +:+ formatMetadataMessage (svnprefix t) (revnum t) ""
           else body)
  ∧ (∃ body,
       ((body = tag_log tag ∧ ∃ s, tag_log tag = s +:+ LF)
        ∨ (body = tag_log tag +:+ LF ∧ ∀ s, tag_log tag ≠ s +:+ LF))
       ∧ tag_message o tagName tag
         = if add_metadata o
           then body +:+ LF
                +:+ formatMetadataMessage (tag_svnprefix tag) (tag_revnum tag) tagName
           else body).
Proof.
  assert (Hmeta : ∀ p n nm, ends_with (formatMetadataMessage p n nm) LF = true).
  { intros. unfold formatMetadataMessage. apply ends_with_app. }
  split.
  { unfold formatMetadataMessage. destruct (isEmpty_str nm).
    - by rewrite !str_app_assoc.
    - by rewrite !str_app_assoc. }
  split; [apply Hmeta|]. unfold Transaction_.commit_message, tag_message.
  destruct (terminated_log (log t)) as [Hl Hlog].
  destruct (terminated_log (tag_log tag)) as [Ht Htag].
  cbv zeta in Hl, Hlog, Ht, Htag. split; [|split; [|split]].
  - destruct (add_metadata o); [|exact Hl]. rewrite <- str_app_assoc.
    by apply ends_with_app_r.
  - destruct (add_metadata o); [|exact Ht]. rewrite <- str_app_assoc.
    by apply ends_with_app_r.
  - eexists. split; [exact Hlog|]. done.
  - eexists. split; [exact Htag|]. done.
Qed.

(** ** What a restarted child is told *)

Lemma reloadBranches_fold_chunks (l : list (string * Branch)) (r0 r1 : Repository)
    (b0 b1 : bool) :
  foldl (fun (acc : Res (Repository * bool)) (kv : string * Branch) =>
           '(r, reset_notes) ← acc;
           let '(branch, br) := kv in
           _ ← Q_ASSERT (startsWith branch "refs/") "branch.startsWith(refs/)";
           if negb (last_nonzero (marks br)) then Ok (r, reset_notes)
           else
             m ← vec_last (marks br);
             Ok (write ("reset " +:+ branch +:+ LF +:+ "from :" +:+ number m
                        +:+ LF +:+ LF +:+ "progress Branch " +:+ branch
                        +:+ " reloaded" +:+ LF) r, true))
        (Ok (r0, b0)) l = Ok (r1, b1) →
  r1 = write_all (omap reload_chunk l) r0
  ∧ b1 = b0 || negb (isEmpty (omap reload_chunk l)).
Proof.
  revert r0 b0. induction l as [|[k br] l IH]; intros r0 b0 H; cbn [foldl] in H.
  - injection H as -> ->. by rewrite orb_false_r.
  - match type of H with foldl _ ?acc _ = _ => destruct acc as [[r2 b2]|w] eqn:E end.
    + apply IH in H. destruct H as [H1 H2]. cbn [mbind Res_bind] in E.
      apply bind_Ok in E as (? & _ & E).
      assert (Hstep : r2 = write_all (option_list (reload_chunk (k, br))) r0
                      ∧ b2 = b0 || bool_decide (is_Some (reload_chunk (k, br)))).
      { unfold reload_chunk. cbn [fst snd]. unfold last_nonzero, vec_last in *.
        destruct (last (marks br)) as [m|].
        - destruct (m =? 0); simpl in E; injection E as <- <-; simpl.
          + by rewrite orb_false_r.
          + by rewrite orb_true_r.
        - simpl in E. injection E as <- <-. simpl. by rewrite orb_false_r. }
      destruct Hstep as [-> ->]. rewrite H1, H2. cbn [omap list_omap].
      destruct (reload_chunk (k, br)) as [c|]; cbn.
      * split; [done|]. by rewrite orb_true_r.
      * split; [done|]. by rewrite orb_false_r.
    + exfalso. clear -H. induction l as [|y l IH]; cbn [foldl] in H; [done|]. by apply IH.
Qed.

Lemma drop_space_keeps (x : string) (c : ascii) (y : string) :
  Ascii.is_space c = false →
  ∃ x', drop_space (x +:+ String c y) = x' +:+ String c y.
Proof.
  intros Hc. induction x as [|a x IH].
  - exists "". change (drop_space (String c y) = String c y). cbn [drop_space]. by rewrite Hc.
  - change (String a x +:+ String c y) with (String a (x +:+ String c y)).
    cbn [drop_space]. destruct (Ascii.is_space a); [exact IH|]. by exists (String a x).
Qed.

Lemma trimmed_keeps_head (a : ascii) (h : string) (c : ascii) (rest : string) :
  Ascii.is_space a = false → Ascii.is_space c = false →
  ∃ rest', trimmed (String a h +:+ String c rest) = String a h +:+ String c rest'.
Proof.
  intros Ha Hc. unfold trimmed.
  change (String a h +:+ String c rest) with (String a (h +:+ String c rest)).
  cbn [drop_space]. rewrite Ha.
  change (String a (h +:+ String c rest)) with (String a h +:+ String c rest).
  rewrite rev_append.
  change (String c rest) with (String c "" +:+ rest). rewrite rev_append.
  change (String.rev (String c "")) with (String c "").
  rewrite str_app_assoc.
  change (String c "" +:+ String.rev (String a h)) with (String c (String.rev (String a h))).
  destruct (drop_space_keeps (String.rev rest) c (String.rev (String a h)) Hc) as [x' ->].
  exists (String.rev x'). rewrite rev_append.
  change (String c (String.rev (String a h))) with (String c "" +:+ String.rev (String a h)).
  rewrite rev_append, rev_rev. change (String.rev (String c "")) with (String c "").
  by rewrite str_app_assoc.
Qed.

(** A line that starts with [progress ] and goes on with a letter other
    than the S of SVN is no progress line of the scan. *)
Lemma parse_progress_other (c : ascii) (rest : string) :
  c = "B"%char ∨ c = "C"%char →
  parse_progress ("progress " +:+ String c rest) = None.
Proof.
  intros Hc. unfold parse_progress.
  assert (H1 : ∃ r1, before_char "#" ("progress " +:+ String c rest)
                     = "progress " +:+ String c r1).
  { rewrite before_char_app by done. destruct Hc as [-> | ->]; cbn; eauto. }
  destruct H1 as [r1 ->].
  destruct (trimmed_keeps_head "p" "rogress " c r1 eq_refl) as [r2 E].
  { by destruct Hc as [-> | ->]. }
  change ("progress " +:+ String c r1) with (String "p" "rogress " +:+ String c r1).
  rewrite E.
  assert (isEmpty_str (String "p" "rogress " +:+ String c r2) = false) as -> by reflexivity.
  unfold to_QString. rewrite before_char_app by done.
  by destruct Hc as [-> | ->].
Qed.

(** X21.  What a restarted child is told.  When [startFastImport]
    starts the child, it writes one chunk for every record of the
    registry that ends in a non-zero mark, resetting the ref to that
    mark, and none for a record without marks or with a tombstone at the
    end; then, if it wrote any and notes are switched on, the reset of
    the notes ref; nothing else of the repository changes.  The progress
    line of such a chunk, like that of an annotated tag, is no progress
    line for the scan of the log: [setupIncremental] passes it over. *)
Theorem restart_reloads_live_branches (o : Options) (r r' : Repository) :
  running r = false →
  startFastImport o r = Ok r' →
  let chunks := omap reload_chunk (map_to_list (branches r)) in
  written r'
  = written r ++ chunks
    ++ (if negb (isEmpty chunks) && add_metadata_notes o
        then ["reset refs/notes/commits" +:+ LF +:+ "from :" +:+ number (maxMark + 1) +:+ LF]
        else [])
  ∧ same_but_process r r'
  ∧ (∀ b, parse_progress (reloaded_line b) = None)
  ∧ (∀ n ref, parse_progress (tag_progress_line n ref) = None)
  ∧ (∀ b lines pos cutoff M last r0,
       setupIncremental_loop (reloaded_line b :: lines) pos cutoff M last r0
       = setupIncremental_loop lines (pos + String.length (reloaded_line b)) cutoff M last r0).
Proof.
  intros Hrun H. cbv zeta.
  pose proof (startFastImport_Ok _ _ _ H) as (Hs & _ & _).
  assert (Hre : ∀ b, parse_progress (reloaded_line b) = None).
  { intros b. unfold reloaded_line.
    change ("progress Branch " +:+ b +:+ " reloaded" +:+ LF)
      with ("progress " +:+ String "B" ("ranch " +:+ b +:+ " reloaded" +:+ LF)).
    apply parse_progress_other. by left. }
  split; [|split; [done|split; [done|split]]].
  - unfold startFastImport in H. rewrite Hrun in H.
    destruct (processHasStarted r); [done|].
    unfold reloadBranches in H. apply bind_Ok in H as ([r1 b1] & Hf & H).
    cbn [branches set_process] in Hf.
    apply reloadBranches_fold_chunks in Hf as [-> ->]. cbn [orb] in H.
    destruct (negb (isEmpty _) && add_metadata_notes o); injection H as <-.
    + cbn [written write]. rewrite written_write_all. cbn [written set_process].
      by rewrite <- app_assoc.
    + rewrite written_write_all. cbn [written set_process]. by rewrite app_nil_r.
  - intros n ref. unfold tag_progress_line.
    change ("progress Creating annotated tag " +:+ n +:+ " from ref " +:+ ref +:+ LF)
      with ("progress " +:+ String "C" ("reating annotated tag " +:+ n +:+ " from ref "
                                         +:+ ref +:+ LF)).
    apply parse_progress_other. by right.
  - intros b lines pos cutoff M last r0. cbn [setupIncremental_loop]. by rewrite Hre.
Qed.

Lemma restart_reloads_live_branches_witness :
  ∃ r', startFastImport demo_options demo_registry = Ok r'
    ∧ written r'
      = ["reset refs/heads/master" +:+ LF +:+ "from :7" +:+ LF +:+ LF
         +:+ "progress Branch refs/heads/master reloaded" +:+ LF].
Proof.
  destruct (startFastImport demo_options demo_registry) as [r'|why] eqn:E;
    [|vm_compute in E; discriminate E].
  exists r'. split; [done|].
  destruct (restart_reloads_live_branches demo_options demo_registry r' eq_refl E) as [H _].
  rewrite H. vm_compute. reflexivity.
Defined.

(** ** A commit, read back by the scan of the log *)

Lemma number_indexOf (c : ascii) (n : Z) :
  is_digit c = false → c ≠ "-"%char → indexOf c (number n) = None.
Proof.
  intros Hc Hm. destruct n as [|p|p].
  - destruct (number_digits 0 ltac:(lia)) as (_ & Hd & _). by apply all_digits_indexOf.
  - destruct (number_digits (Z.pos p) ltac:(lia)) as (_ & Hd & _). by apply all_digits_indexOf.
  - unfold number. cbn [Z.to_int NilZero.string_of_int]. cbn [indexOf].
    rewrite (proj2 (Ascii.eqb_neq "-" c)) by congruence.
    assert (Hd : all_digits (NilZero.string_of_uint (Pos.to_uint p)) = true).
    { unfold NilZero.string_of_uint. destruct (Pos.to_uint p) eqn:E; [done|..];
        rewrite <- E; apply string_of_uint_digits. }
    by rewrite (all_digits_indexOf c _ Hc Hd).
Qed.

Lemma merge_loop_desc (c : ascii) (ms : list Z) (parent i : Z) (desc : string)
    (out : list string) :
  is_digit c = false → c ≠ "-"%char → c ≠ " "%char → c ≠ ":"%char →
  indexOf c desc = None →
  indexOf c (merge_loop ms parent i desc out).1.2 = None.
Proof.
  intros Hc H1 H2 H3. revert i desc out.
  induction ms as [|m ms IH]; intros i desc out Hd; cbn [merge_loop]; [done|].
  destruct (m =? parent); [by apply IH|].
  destruct (16 <? i + 1); [done|]. apply IH.
  apply indexOf_app_None; [done|].
  change (" :" +:+ number m) with (String " " (String ":" (number m))).
  cbn [indexOf]. rewrite (proj2 (Ascii.eqb_neq " " c)) by congruence.
  rewrite (proj2 (Ascii.eqb_neq ":" c)) by congruence.
  by rewrite number_indexOf.
Qed.

Lemma emit_merges_desc (c : ascii) (lg : string) (ms : list Z) (parent : Z)
    (out : list string) (desc : string) (ms' : list Z) (warn : bool) :
  is_digit c = false → c ≠ "-"%char → c ≠ " "%char → c ≠ ":"%char →
  emit_merges lg ms parent = Ok (out, desc, ms', warn) →
  indexOf c desc = None.
Proof.
  intros Hc H1 H2 H3. unfold emit_merges.
  destruct (contains_str lg cvs2svn_marker && (1 <? Z.of_nat (length ms))).
  - intros H. apply bind_Ok in H as (top & _ & H). by injection H as _ <- _ _.
  - pose proof (merge_loop_desc c ms parent (if parent =? 0 then 0 else 1) "" []
                  Hc H1 H2 H3 eq_refl) as Hd.
    destruct (merge_loop _ _ _ _ _) as [[o d] w]. intros [= _ <- _ _]. exact Hd.
Qed.

Lemma readLines_line (s rest : string) :
  indexOf "010"%char s = None →
  readLines (s +:+ LF +:+ rest) = (s +:+ LF) :: readLines rest.
Proof.
  induction s as [|c s IH]; intros Hs.
  - reflexivity.
  - cbn [indexOf] in Hs. destruct (Ascii.eqb c "010") eqn:Ec; [done|].
    destruct (indexOf "010" s); [done|].
    change (String c s +:+ LF +:+ rest) with (String c (s +:+ LF +:+ rest)).
    cbn [readLines]. rewrite Ec, (IH eq_refl). reflexivity.
Qed.

Lemma replay_progress_log_msg (n : Z) (b : string) (m : Z) (lvl : LogLevel)
    (msg : string) (r : Repository) :
  branches (replay_progress n b m (log_msg lvl msg r)) = branches (replay_progress n b m r)
  ∧ last_commit_mark (replay_progress n b m (log_msg lvl msg r))
    = last_commit_mark (replay_progress n b m r).
Proof.
  unfold replay_progress. cbn [last_commit_mark log_msg].
  destruct (last_commit_mark r <? m); cbn [branches log_msg set_last_commit_mark];
    by destruct (branches_index (branches r) b).
Qed.

(** X22.  A commit, read back.  The last chunk of a commit block is
    the progress command of the commit between empty lines; read as
    lines of the log, it makes the scan of [setupIncremental], started
    on the repository as it was before the commit, end with the
    revision of the commit and with the registry and the commit counter
    the commit left (creation revision, commits and marks under every
    ref): provided the revision is before the cutoff and fits an [int],
    the marks file knows the mark of the commit, and the ref holds no
    hash sign, NUL or newline. *)
Theorem commit_survives_recovery (o : Options) (t : Transaction) (r : Repository)
    (t' : Transaction) (r' : Repository) (cutoff M : Z) (pos : nat) (lastrev : Z) :
  Transaction_.commit o t r = Ok (t', r') →
  0 ≤ last_commit_mark r < M → M ≤ 2147483647 →
  0 ≤ revnum t < cutoff → revnum t ≤ 2147483647 →
  indexOf "#"%char (branch t) = None →
  indexOf "000"%char (branch t) = None →
  indexOf "010"%char (branch t) = None →
  ∃ suffix r'',
    let chunk := LF +:+ progress_line (revnum t) (branch t) (last_commit_mark r + 1) suffix
                 +:+ LF +:+ LF in
    chunk ∈ written r'
    ∧ readLines chunk
      = [LF; progress_line (revnum t) (branch t) (last_commit_mark r + 1) suffix +:+ LF; LF]
    ∧ setupIncremental_loop (readLines chunk) pos cutoff M lastrev r = (AtEnd (revnum t), r'')
    ∧ last_commit_mark r'' = last_commit_mark r'
    ∧ ∀ k, logged_part <$> branches r'' !! k = logged_part <$> branches r' !! k.
Proof.
  intros H Hl HM Hrev Hrev' Hhash Hnul Hlf.
  destruct (commit_registry o t r t' r' H) as [Hlcm Hk0].
  destruct (replay_progress_branches (revnum t) (branch t) (last_commit_mark r + 1) r)
    as [Hrb Hrm].
  assert (Hlcm0 : last_commit_mark (replay_progress (revnum t) (branch t)
                                      (last_commit_mark r + 1) r)
                  = last_commit_mark r') by (rewrite Hrm, Hlcm; lia).
  assert (Hk : ∀ k, logged_part <$> branches r' !! k
                    = logged_part <$> branches (replay_progress (revnum t) (branch t)
                                                  (last_commit_mark r + 1) r) !! k).
  { intros k. rewrite Hk0, Hrb.
    assert ((last_commit_mark r + 1 =? 0) = false) as -> by (apply Z.eqb_neq; lia).
    cbn [negb]. by rewrite andb_true_r. }
  clear Hk0 Hrb Hrm.
  apply commit_Ok in H as (r1 & out & desc & ms & warn & Hr1 & _ & _ & H).
  cbv zeta in H. destruct H as (Hem & -> & H).
  apply startFastImport_Ok in Hr1 as [Hs _].
  pose proof (same_but_process_counters _ _ Hs) as Hcs. injection Hcs as Hl1 _.
  rewrite Hl1 in *.
  set (mark := last_commit_mark r + 1) in *.
  set (suffix := if isEmpty_str desc then "" else " # merge from" +:+ desc).
  set (pl := progress_line (revnum t) (branch t) mark suffix).
  assert (Hchunk : last (Transaction_.commit_files (Transaction_.set_merges ms t) mark desc)
                   = Some (LF +:+ pl +:+ LF +:+ LF)).
  { unfold Transaction_.commit_files. rewrite last_app. cbn [last].
    f_equal. subst pl suffix. unfold progress_line.
    cbn [revnum branch Transaction_.set_merges].
    destruct (isEmpty_str desc) eqn:Ed.
    - destruct desc; [|done]. by rewrite !str_app_assoc.
    - by rewrite !str_app_assoc. }
  assert (Hin : (LF +:+ pl +:+ LF +:+ LF) ∈ written r').
  { match type of H with context [write_all ?cs ?x] =>
      assert (Hw : written (write_all cs x) = written x ++ cs) by apply written_write_all;
      set (r4 := write_all cs x) in *
    end.
    assert (Hin4 : (LF +:+ pl +:+ LF +:+ LF) ∈ written r4).
    { rewrite Hw. apply elem_of_app. right. by apply last_Some_elem_of. }
    destruct (add_metadata_notes o).
    - apply commitNote_written in H as [c ->]. apply elem_of_app. by left.
    - by injection H as <-. }
  assert (Hdesc : indexOf "010"%char desc = None).
  { eapply emit_merges_desc; [..|exact Hem]; done. }
  assert (Hpl : indexOf "010"%char pl = None).
  { subst pl. rewrite progress_line_split. apply indexOf_app_None.
    - apply progress_line_indexOf; [lia|lia|done..].
    - subst suffix. destruct (isEmpty_str desc); [done|].
      by apply indexOf_app_None. }
  assert (Hlines : readLines (LF +:+ pl +:+ LF +:+ LF) = [LF; pl +:+ LF; LF]).
  { change (LF +:+ pl +:+ LF +:+ LF) with ("" +:+ LF +:+ (pl +:+ LF +:+ LF)).
    rewrite (readLines_line "" _ eq_refl). by rewrite (readLines_line pl LF Hpl). }
  assert (Hparse : parse_progress (pl +:+ LF) = Some (revnum t, branch t, mark)).
  { subst pl. apply parse_progress_of_line; [lia|lia|done|done|].
    subst suffix. destruct (isEmpty_str desc); [by left|]. right.
    exists (" merge from" +:+ desc). done. }
  exists suffix. eexists. cbv zeta. fold pl.
  split; [done|]. split; [done|]. rewrite Hlines.
  cbn [setupIncremental_loop].
  assert (parse_progress LF = None) as -> by reflexivity.
  rewrite Hparse.
  rewrite (proj2 (Z.leb_gt cutoff (revnum t))) by lia.
  rewrite (proj2 (Z.ltb_ge M mark)) by lia.
  split; [reflexivity|].
  destruct (revnum t <? lastrev).
  - destruct (replay_progress_log_msg (revnum t) (branch t) mark Warn
                (not_monotonic_warning r lastrev (revnum t)) r) as [Eb El].
    rewrite Eb, El. split; [done|]. intros k. by rewrite Hk.
  - split; [done|]. intros k. by rewrite Hk.
Qed.

Lemma commit_survives_recovery_witness :
  ∃ t' r' suffix r'',
    Transaction_.commit demo_options txn_master_r1 fresh = Ok (t', r')
    ∧ setupIncremental_loop
        [LF; progress_line 1 "refs/heads/master" 1 suffix +:+ LF; LF] 0 100 7 0 fresh
      = (AtEnd 1, r'')
    ∧ ∀ k, logged_part <$> branches r'' !! k = logged_part <$> branches r' !! k.
Proof.
  destruct (Transaction_.commit demo_options txn_master_r1 fresh) as [[t' r']|why] eqn:E;
    [|vm_compute in E; discriminate E].
  destruct (commit_survives_recovery demo_options txn_master_r1 fresh t' r' 100 7 0 0 E)
    as (suffix & r'' & _ & Hlines & Hscan & _ & Hk);
    [vm_compute; split; [discriminate|reflexivity]|vm_compute; discriminate
    |vm_compute; split; [discriminate|reflexivity]|vm_compute; discriminate
    |reflexivity|reflexivity|reflexivity|].
  cbv zeta in Hlines, Hscan. rewrite Hlines in Hscan.
  exists t', r', suffix, r''. split; [done|]. split; [exact Hscan|exact Hk].
Defined.

(** ** Staging a file *)


